(** * namespace-containers: a shallow embedding of the container runtime

    The Go sources (config, container, main, utils, cgroups, filesystem,
    network) are embedded as Rocq functions.  Go strings are byte strings
    ([string]), Go [int] is a 64-bit integer carried in [Z], the built-in
    [error] is [option string] ([None] is [nil]), a failed index or slice
    expression is a run-time panic.  Logging ([logInfo], [logDebug],
    [logError]) only writes to standard error and is left out. *)

From Stdlib Require Import String Ascii List ZArith Lia Bool.
From Stdlib Require Import DecimalString DecimalNat Permutation.
Import ListNotations.

Open Scope string_scope.
Open Scope Z_scope.

(** ** Go values shared by all files *)

(** The built-in [error]: [None] is [nil], [Some msg] carries [err.Error()]. *)
Definition error := option string.

Definition nil_error : error := None.

(** [fmt.Errorf] with a format already expanded into its pieces. *)
Definition Errorf (pieces : list string) : error :=
  Some (String.concat "" pieces).

(** [%v] of an error that is known to be non-nil. *)
Definition verr (e : error) : string :=
  match e with
  | Some m => m
  | None => "<nil>"
  end.

(** Evaluation of an expression that may panic: [None] is the panic. *)
Definition bindp {A B} (x : option A) (k : A -> option B) : option B :=
  match x with
  | Some a => k a
  | None => None
  end.

Notation "x <-? e ;; k" := (bindp e (fun x => k))
  (at level 61, e at next level, right associativity).

(** How a call ends: it returns, the process exits ([os.Exit]), or it
    panics.  [OutOfFuel] is the bound of a loop of the model being reached;
    the loops of the program never reach it. *)
Inductive res (A : Type) : Type :=
  | Ok (a : A)
  | Exit (code : Z)
  | Panic
  | OutOfFuel.

Arguments Ok {A} a.
Arguments Exit {A} code.
Arguments Panic {A}.
Arguments OutOfFuel {A}.

Definition bindr {A B} (x : res A) (k : A -> res B) : res B :=
  match x with
  | Ok a => k a
  | Exit c => Exit c
  | Panic => Panic
  | OutOfFuel => OutOfFuel
  end.

Notation "x <-! e ;; k" := (bindr e (fun x => k))
  (at level 61, e at next level, right associativity).

(** A panicking expression inside a call. *)
Definition orPanic {A} (x : option A) : res A :=
  match x with
  | Some a => Ok a
  | None => Panic
  end.

(** ** Strings and slices as Go has them *)

Module GoString.

Definition len (s : string) : Z := Z.of_nat (String.length s).

(** [s[lo:hi]]; out of range bounds panic. *)
Definition slice (s : string) (lo hi : Z) : option string :=
  if (0 <=? lo) && (lo <=? hi) && (hi <=? len s)
  then Some (String.substring (Z.to_nat lo) (Z.to_nat (hi - lo)) s)
  else None.

(** [s[lo:]] *)
Definition slice_from (s : string) (lo : Z) : option string :=
  slice s lo (len s).

(** [s[:hi]] *)
Definition slice_to (s : string) (hi : Z) : option string :=
  slice s 0 hi.

(** [s[i]] *)
Definition at_index (s : string) (i : Z) : option ascii :=
  if (0 <=? i) && (i <? len s) then String.get (Z.to_nat i) s else None.

(** [strings.HasPrefix(s, prefix)] *)
Fixpoint HasPrefix (s prefix : string) {struct prefix} : bool :=
  match prefix, s with
  | EmptyString, _ => true
  | String p ps, String c cs => Ascii.eqb c p && HasPrefix cs ps
  | String _ _, EmptyString => false
  end.

(** [strings.Split(s, sep)] for a one-byte separator: the pieces between
    the separators, one more piece than there are separators. *)
Fixpoint Split (s : string) (sep : ascii) : list string :=
  match s with
  | EmptyString => [EmptyString]
  | String c rest =>
      if Ascii.eqb c sep then EmptyString :: Split rest sep
      else match Split rest sep with
           | piece :: pieces => String c piece :: pieces
           | [] => [String c EmptyString]
           end
  end.

(** The first [sep] of [s]: what is before it and what is after it. *)
Fixpoint cut (s : string) (sep : ascii) : option (string * string) :=
  match s with
  | EmptyString => None
  | String c rest =>
      if Ascii.eqb c sep then Some (EmptyString, rest)
      else match cut rest sep with
           | Some (k, v) => Some (String c k, v)
           | None => None
           end
  end.

(** [strings.Count(s, c)] for a one-byte [c]. *)
Fixpoint Count (s : string) (c : ascii) : nat :=
  match s with
  | EmptyString => O
  | String x rest => if Ascii.eqb x c then S (Count rest c) else Count rest c
  end.

(** No byte of [s] is [c]. *)
Fixpoint free_of (c : ascii) (s : string) : bool :=
  match s with
  | EmptyString => true
  | String x rest => negb (Ascii.eqb x c) && free_of c rest
  end.

End GoString.

(** [xs[i]] on a slice of strings; out of range panics. *)
Definition elem {A} (xs : list A) (i : Z) : option A :=
  if (0 <=? i) && (i <? Z.of_nat (length xs)) then nth_error xs (Z.to_nat i)
  else None.

Definition llen {A} (xs : list A) : Z := Z.of_nat (length xs).

(** ** strconv and the %d verb *)

Module Strconv.

Definition maxInt : Z := 9223372036854775807.
Definition minInt : Z := -9223372036854775808.

Definition digit_of (c : ascii) : option Z :=
  let n := Z.of_N (N_of_ascii c) in
  if (48 <=? n) && (n <=? 57) then Some (n - 48) else None.

(** The value of a string of decimal digits, most significant first,
    continuing from [acc]; [None] when a byte is not a digit. *)
Fixpoint digits_value (acc : Z) (s : string) : option Z :=
  match s with
  | EmptyString => Some acc
  | String c rest =>
      match digit_of c with
      | Some d => digits_value (acc * 10 + d) rest
      | None => None
      end
  end.

(** [strconv.Atoi]: an optional sign, then one or more decimal digits,
    the value within the range of [int].  The text of its errors is
    written without the quotes Go puts around the input; [parsePID], the
    only caller, drops that text. *)
Definition Atoi (s : string) : Z * error :=
  let syntax := Errorf ["strconv.Atoi: parsing "; s; ": invalid syntax"] in
  match s with
  | EmptyString => (0, syntax)
  | String c rest =>
      let neg := Ascii.eqb c "-" in
      let body := if neg || Ascii.eqb c "+" then rest else s in
      match body with
      | EmptyString => (0, syntax)
      | String _ _ =>
          match digits_value 0 body with
          | None => (0, syntax)
          | Some n =>
              let v := if neg then - n else n in
              if (minInt <=? v) && (v <=? maxInt) then (v, nil_error)
              else ((if neg then minInt else maxInt),
                    Errorf ["strconv.Atoi: parsing "; s;
                            ": value out of range"])
          end
      end
  end.

(** The decimal digits of a natural number, without leading zeros. *)
Definition digits (k : nat) : string :=
  NilEmpty.string_of_uint (Nat.to_uint k).

(** [strconv.Itoa], also the [%d] verb of [fmt]. *)
Definition Itoa (n : Z) : string :=
  match n with
  | Z0 => "0"
  | Zpos p => digits (Pos.to_nat p)
  | Zneg p => String "-" (digits (Pos.to_nat p))
  end.

End Strconv.

(** ** cgroups.go: the memory size parser *)

Module Cgroups.
Import GoString.

(** [ParseMemorySize]: ["" -> ""], a trailing K/k, M/m, G/g is replaced
    by three, six or nine zeros, anything else is returned as it is. *)
Definition ParseMemorySize (size : string) : option (string * error) :=
  if String.eqb size "" then Some ("", nil_error)
  else
    last <-? slice_from size (len size - 1) ;;
    if String.eqb last "K" || String.eqb last "k" then
      body <-? slice_to size (len size - 1) ;;
      Some (body ++ "000", nil_error)
    else if String.eqb last "M" || String.eqb last "m" then
      body <-? slice_to size (len size - 1) ;;
      Some (body ++ "000000", nil_error)
    else if String.eqb last "G" || String.eqb last "g" then
      body <-? slice_to size (len size - 1) ;;
      Some (body ++ "000000000", nil_error)
    else Some (size, nil_error).

(** The suffix [suffix] multiplies by ten to the [k]: on [digits] followed
    by the suffix the parser returns digits whose value is the value of
    [digits] times [10 ^ k] (and no digits when [digits] are none). *)
Definition multiplies (suffix : string) (k : Z) (digits : string) : Prop :=
  exists out,
    ParseMemorySize (digits ++ suffix) = Some (out, nil_error)
    /\ Strconv.digits_value 0 out =
       option_map (fun n => n * 10 ^ k) (Strconv.digits_value 0 digits).

End Cgroups.

(** ** config.go: the configuration model and the mount parser *)

Module Config.
Import GoString.

Record Mount := mkMount {
  Source : string;
  Destination : string;
  ReadOnly : bool
}.

Record ContainerConfig := mkConfig {
  Hostname : string;
  RootFS : string;
  Mounts : list Mount;
  NetworkCIDR : string;
  HostIP : string;
  ContainerIP : string;
  Command : list string
}.

Definition zeroMount : Mount := mkMount "" "" false.

(** [parseMount]: split at the colons, two or three parts. *)
Definition parseMount (mountStr : string) : option (Mount * error) :=
  let parts := Split mountStr ":" in
  if (llen parts <? 2) || (llen parts >? 3) then
    Some (zeroMount,
          Errorf ["mount format should be host_path:container_path[:ro]"])
  else
    p0 <-? elem parts 0 ;;
    p1 <-? elem parts 1 ;;
    let mount := mkMount p0 p1 false in
    if llen parts =? 3 then
      p2 <-? elem parts 2 ;;
      if String.eqb p2 "ro"
      then Some (mkMount (Source mount) (Destination mount) true, nil_error)
      else Some (mount, nil_error)
    else Some (mount, nil_error).

(** [NewDefaultConfig] *)
Definition NewDefaultConfig : ContainerConfig :=
  {| Hostname := "container";
     RootFS := "./namespace_fs";
     Mounts := [];
     NetworkCIDR := "192.168.1.0/24";
     HostIP := "192.168.1.1";
     ContainerIP := "192.168.1.2";
     Command := [] |}.

End Config.

(** ** The flag package, as far as [ParseFlags] uses it *)

Module Flag.
Import GoString.

(** The variables the flag set of [ParseFlags] writes to: five string
    flags and the repeatable [mount] flag ([multiString], whose [Set]
    appends and never fails). *)
Record Values := mkValues {
  hostname : string;
  rootfs : string;
  networkCIDR : string;
  hostIP : string;
  containerIP : string;
  mountFlags : list string
}.

Inductive ErrorHandling := ContinueOnError | ExitOnError | PanicOnError.

(** [f.formal[name]]: the [Set] method of the flag called [name]. *)
Definition formal (name : string) : option (string -> Values -> Values) :=
  if String.eqb name "hostname" then
    Some (fun x v => mkValues x (rootfs v) (networkCIDR v) (hostIP v)
                       (containerIP v) (mountFlags v))
  else if String.eqb name "rootfs" then
    Some (fun x v => mkValues (hostname v) x (networkCIDR v) (hostIP v)
                       (containerIP v) (mountFlags v))
  else if String.eqb name "network" then
    Some (fun x v => mkValues (hostname v) (rootfs v) x (hostIP v)
                       (containerIP v) (mountFlags v))
  else if String.eqb name "host-ip" then
    Some (fun x v => mkValues (hostname v) (rootfs v) (networkCIDR v) x
                       (containerIP v) (mountFlags v))
  else if String.eqb name "container-ip" then
    Some (fun x v => mkValues (hostname v) (rootfs v) (networkCIDR v)
                       (hostIP v) x (mountFlags v))
  else if String.eqb name "mount" then
    Some (fun x v => mkValues (hostname v) (rootfs v) (networkCIDR v)
                       (hostIP v) (containerIP v) (mountFlags v ++ [x]))
  else None.

(** The loop of [parseOne] that looks for [=] from index 1 on. *)
Definition nameValue (name : string) : string * option string :=
  match name with
  | EmptyString => (name, None)
  | String c rest =>
      match cut rest "=" with
      | Some (k, v) => (String c k, Some v)
      | None => (name, None)
      end
  end.

Inductive parsed :=
  | Seen (v : Values) (rest : list string)
  | Stop (rest : list string)
  | Fail (help : bool) (msg : string).

(** [parseOne]: one flag of the remaining arguments.  No flag of
    [ParseFlags] is a boolean flag, so each needs a value: after [=], or
    the next argument. *)
Definition parseOne (v : Values) (args : list string) : parsed :=
  match args with
  | [] => Stop args
  | s :: rest =>
      if (len s <? 2) || negb (HasPrefix s "-") then Stop args
      else
        let second := HasPrefix s "--" in
        if second && (len s =? 2) then Stop rest
        else
          let name := String.substring (if second then 2 else 1)
                        (String.length s) s in
          if (len name =? 0) || HasPrefix name "-" || HasPrefix name "="
          then Fail false ("bad flag syntax: " ++ s)
          else
            let (name, value) := nameValue name in
            match formal name with
            | None =>
                if String.eqb name "help" || String.eqb name "h"
                then Fail true "flag: help requested"
                else Fail false
                       ("flag provided but not defined: -" ++ name)
            | Some set =>
                match value, rest with
                | Some x, _ => Seen (set x v) rest
                | None, x :: rest' => Seen (set x v) rest'
                | None, [] =>
                    Fail false ("flag needs an argument: -" ++ name)
                end
            end
  end.

(** The loop of [Parse]. *)
Fixpoint parseLoop (fuel : nat) (h : ErrorHandling) (v : Values)
    (args : list string) : res (Values * error) :=
  match fuel with
  | O => OutOfFuel
  | S fuel' =>
      match parseOne v args with
      | Seen v' rest => parseLoop fuel' h v' rest
      | Stop _ => Ok (v, nil_error)
      | Fail help msg =>
          match h with
          | ContinueOnError => Ok (v, Some msg)
          | ExitOnError => if help then Exit 0 else Exit 2
          | PanicOnError => Panic
          end
      end
  end.

(** [FlagSet.Parse] *)
Definition Parse (h : ErrorHandling) (v : Values) (args : list string)
    : res (Values * error) :=
  parseLoop (S (length args)) h v args.

End Flag.

(** ** config.go: [ParseFlags] *)

Module Cli.
Import GoString Config.

(** The loop that looks for the first argument without a leading [-];
    [commandStart] keeps its zero value when there is none. *)
Fixpoint findCommandStart (i : nat) (args : list string) : nat :=
  match args with
  | [] => O
  | arg :: rest =>
      if negb (HasPrefix arg "-") then i
      else findCommandStart (S i) rest
  end.

(** A flag written as one token: [-name=value] or [--name=value], with
    [name] one of the flags [ParseFlags] defines. *)
Definition asFlag (tok : string) : option (string * string) :=
  let body :=
    if HasPrefix tok "--" then Some (String.substring 2 (String.length tok) tok)
    else if HasPrefix tok "-"
         then Some (String.substring 1 (String.length tok) tok)
         else None in
  match body with
  | None => None
  | Some body =>
      match cut body "=" with
      | Some (name, value) =>
          match Flag.formal name with
          | Some _ => Some (name, value)
          | None => None
          end
      | None => None
      end
  end.

(** A well-formed flag: a flag written as one token, and for [mount] a value
    that [parseMount] accepts. *)
Definition wellFormedFlag (tok : string) : bool :=
  match asFlag tok with
  | Some (name, value) =>
      if String.eqb name "mount" then
        match parseMount value with
        | Some (_, None) => true
        | _ => false
        end
      else true
  | None => false
  end.

(** The loop over the mount flags, stopping at the first bad one. *)
Fixpoint parseMountFlags (mountFlags : list string) (mounts : list Mount)
    : res (list Mount * error) :=
  match mountFlags with
  | [] => Ok (mounts, nil_error)
  | mountStr :: rest =>
      r <-! orPanic (parseMount mountStr) ;;
      match snd r with
      | Some msg =>
          Ok (mounts,
              Errorf ["invalid mount specification '"; mountStr; "': "; msg])
      | None => parseMountFlags rest (mounts ++ [fst r])
      end
  end.

(** [ParseFlags].  [getwd] is the result of [os.Getwd()], which only
    reads the state of the process. *)
Definition ParseFlags (getwd : string * error) (args : list string)
    : res (option ContainerConfig * error) :=
  let config := NewDefaultConfig in
  let flags0 :=
    Flag.mkValues (Hostname config) (RootFS config) (NetworkCIDR config)
      (HostIP config) (ContainerIP config) [] in
  let commandStart := findCommandStart 0 args in
  parsed <-!
    (if Nat.eqb commandStart 0 then Ok (flags0, nil_error, args)
     else
       r <-! Flag.Parse Flag.ExitOnError flags0 (firstn commandStart args) ;;
       Ok (r, skipn commandStart args)) ;;
  let '(flags, err, command) := parsed in
  match err with
  | Some msg => Ok (None, Errorf ["failed to parse flags: "; msg])
  | None =>
      r <-! parseMountFlags (Flag.mountFlags flags) (Mounts config) ;;
      match snd r with
      | Some msg => Ok (None, Some msg)
      | None =>
          let mounts := fst r in
          let mounts :=
            if llen mounts =? 0 then
              match snd getwd with
              | None => (mounts ++ [mkMount (fst getwd) "/app" false])%list
              | Some _ => mounts
              end
            else mounts in
          if llen command =? 0 then
            Ok (None, Errorf ["no command specified"])
          else
            Ok (Some {| Hostname := Flag.hostname flags;
                        RootFS := Flag.rootfs flags;
                        Mounts := mounts;
                        NetworkCIDR := Flag.networkCIDR flags;
                        HostIP := Flag.hostIP flags;
                        ContainerIP := Flag.containerIP flags;
                        Command := command |},
                nil_error)
      end
  end.

End Cli.

(** ** What the program asks of its host

    System calls, the netlink and netns libraries and external commands are
    calls to the host; each answers with the values and the error the Go
    function returns.  The pure library functions whose code is not part of
    the program ([filepath.Join], [net.ParseCIDR], [net.ParseIP],
    [IPNet.String]) are operations of the host as well. *)

Inductive Call :=
  | Geteuid
  | Getpid
  | Stat (path : string)
  | MkdirAll (path : string) (perm : Z)
  | WriteFile (path data : string) (perm : Z)
  | RemoveAll (path : string)
  | Sethostname (name : string)
  | Chroot (path : string)
  | Chdir (path : string)
  | SysMount (source target fstype : string) (flags : Z) (data : string)
  | SysUnmount (target : string) (flags : Z)
  | CmdRun (name : string) (args : list string) (dir : string)
  | CmdStart (name : string) (args env : list string)
      (cloneflags unshareflags : Z)
  | CmdWait (pid : Z)
  | ProcessKill (pid : Z)
  | LockOSThread
  | UnlockOSThread
  | NetnsGet
  | NetnsGetFromPid (pid : Z)
  | NetnsSet (ns : Z)
  | NetnsClose (ns : Z)
  | LinkAdd (name peer : string)
  | LinkByName (name : string)
  | LinkSetUp (link : Z)
  | AddrAdd (link : Z) (ip mask : string)
  | LinkSetNsFd (link fd : Z)
  | RouteAdd (linkIndex : Z) (gw : string).

(** An error of the host: whether [os.IsNotExist] holds of it, and its
    text. *)
Record OSError := mkOSError {
  NotExist : bool;
  Message : string
}.

(** What a call returns: the error, and the value beside it (a number: a
    pid, an exit status, a handle, an index; a flag: [FileInfo.IsDir]). *)
Record Reply := mkReply {
  r_err : option OSError;
  r_int : Z;
  r_dir : bool
}.

Definition Event : Type := Call * Reply.

Record IPNet := mkIPNet {
  IP : string;
  Mask : string
}.

Class Platform := {
  world : Type;
  syscall : Call -> world -> Reply * world;
  filepath_Join : string -> string -> string;
  net_ParseIP : string -> option string;
  net_ParseCIDR : string -> option IPNet;
  IPNet_String : IPNet -> string
}.

Definition os_IsNotExist (e : option OSError) : bool :=
  match e with
  | Some e => NotExist e
  | None => false
  end.

Definition as_error (e : option OSError) : error :=
  match e with
  | Some e => Some (Message e)
  | None => None
  end.

(** The error of [Cmd.Run] and [Cmd.Wait]: the command could not be run or
    waited for, or it ended with a status other than 0. *)
Definition exitError (r : Reply) : error :=
  match r_err r with
  | Some e => Some (Message e)
  | None =>
      if r_int r =? 0 then nil_error
      else Errorf ["exit status "; Strconv.Itoa (r_int r)]
  end.

(** The program runs in a state monad over the host, with the calls made
    so far. *)
Section Monad.
Context {P : Platform}.

Definition M (A : Type) : Type :=
  world * list Event -> res A * (world * list Event).

Definition ret {A} (a : A) : M A := fun s => (Ok a, s).

Definition bind {A B} (m : M A) (k : A -> M B) : M B :=
  fun s =>
    match m s with
    | (Ok a, s') => k a s'
    | (Exit c, s') => (Exit c, s')
    | (Panic, s') => (Panic, s')
    | (OutOfFuel, s') => (OutOfFuel, s')
    end.

Definition call (c : Call) : M Reply :=
  fun s =>
    let (r, w') := syscall c (fst s) in
    (Ok r, (w', (snd s ++ [(c, r)])%list)).

Definition os_Exit {A} (code : Z) : M A := fun s => (Exit code, s).

Definition lift {A} (x : res A) : M A := fun s => (x, s).

(** [defer cleanup] at the head of [body]: [cleanup] runs when [body]
    returns or panics, not when the process exits. *)
Definition defer {A} (cleanup : M unit) (body : M A) : M A :=
  fun s =>
    match body s with
    | (Ok a, s') => (Ok a, snd (cleanup s'))
    | (Panic, s') => (Panic, snd (cleanup s'))
    | other => other
    end.

End Monad.

Notation "x <- e ;; k" := (bind e (fun x => k))
  (at level 61, e at next level, right associativity).
Notation "e ;;; k" := (bind e (fun _ => k))
  (at level 61, right associativity).

(** [if err := e; err != nil { return wrap(err) }], then [k]. *)
Definition orReturn {P : Platform} (e : M error) (wrap : string -> error)
    (k : M error) : M error :=
  err <- e ;;
  match err with
  | Some msg => ret (wrap msg)
  | None => k
  end.

Notation "'check' e 'else' wrap ;; k" := (orReturn e wrap k)
  (at level 61, e at next level, wrap at next level, right associativity).

(** A call of which only the error is used. *)
Definition errOf {P : Platform} (c : Call) : M error :=
  r <- call c ;; ret (as_error (r_err r)).

(** ** utils.go *)

Module Utils.
Import GoString.

Section WithPlatform.
Context {P : Platform}.

Definition checkRoot : M error :=
  r <- call Geteuid ;;
  if negb (r_int r =? 0)
  then ret (Errorf ["this program must be run as root"])
  else ret nil_error.

Definition fileExists (path : string) : M bool :=
  r <- call (Stat path) ;;
  ret (negb (os_IsNotExist (r_err r))).

(** [info] is nil when [os.Stat] fails, and [info.IsDir()] is only
    evaluated when the failure is not "does not exist". *)
Definition dirExists (path : string) : M bool :=
  r <- call (Stat path) ;;
  if negb (os_IsNotExist (r_err r)) then
    match r_err r with
    | None => ret (r_dir r)
    | Some _ => lift Panic
    end
  else ret false.

Definition validatePath (path : string) : M error :=
  if String.eqb path "" then ret (Errorf ["path cannot be empty"])
  else
    ok <- fileExists path ;;
    if negb ok then ret (Errorf ["path does not exist: "; path])
    else ret nil_error.

End WithPlatform.

Definition parsePID (pidStr : string) : Z * error :=
  let (pid, err) := Strconv.Atoi pidStr in
  match err with
  | Some _ => (0, Errorf ["invalid PID: "; pidStr])
  | None =>
      if pid <=? 0
      then (0, Errorf ["PID must be positive: "; Strconv.Itoa pid])
      else (pid, nil_error)
  end.

Definition validateCommand (command : list string) : res error :=
  if llen command =? 0 then Ok (Errorf ["command cannot be empty"])
  else
    c0 <-! orPanic (elem command 0) ;;
    if String.eqb c0 "" then Ok (Errorf ["command name cannot be empty"])
    else Ok nil_error.

End Utils.

(** ** cgroups.go: setting up the control group *)

Module CgroupSetup.

Definition cgroupBasePath : string := "/sys/fs/cgroup".
Definition cgroupName : string := "namespace_test".

Record CgroupConfig := mkCgroupConfig {
  Name : string;
  MaxPids : string;
  MemoryLimit : string;
  CPUQuota : string;
  CPUPeriod : string
}.

Definition NewDefaultCgroupConfig : CgroupConfig :=
  {| Name := cgroupName;
     MaxPids := "max";
     MemoryLimit := "";
     CPUQuota := "";
     CPUPeriod := "100000" |}.

Section WithPlatform.
Context {P : Platform}.

(** [setCgroupValue]: a control file that does not exist is skipped. *)
Definition setCgroupValue (cgroupPath filename value : string)
    : M error :=
  let filePath := filepath_Join cgroupPath filename in
  st <- call (Stat filePath) ;;
  if os_IsNotExist (r_err st) then ret nil_error
  else
    wr <- call (WriteFile filePath value 420) ;;
    match r_err wr with
    | Some e =>
        ret (Errorf ["failed to write to "; filePath; ": "; Message e])
    | None => ret nil_error
    end.

Definition SetupCgroups (config : CgroupConfig) : M error :=
  let cgroupPath := filepath_Join cgroupBasePath (Name config) in
  check (st <- call (Stat cgroupPath) ;;
         if os_IsNotExist (r_err st)
         then errOf (MkdirAll cgroupPath 493)
         else ret nil_error)
  else (fun e => Errorf ["failed to create cgroup directory ";
                         cgroupPath; ": "; e]) ;;
  check setCgroupValue cgroupPath "pids.max" (MaxPids config)
  else (fun e => Errorf ["failed to set pids.max: "; e]) ;;
  check (if negb (String.eqb (MemoryLimit config) "")
         then setCgroupValue cgroupPath "memory.max" (MemoryLimit config)
         else ret nil_error)
  else (fun e => Errorf ["failed to set memory.max: "; e]) ;;
  check (if negb (String.eqb (CPUQuota config) "")
         then setCgroupValue cgroupPath "cpu.max"
                (CPUQuota config ++ " " ++ CPUPeriod config)
         else ret nil_error)
  else (fun e => Errorf ["failed to set cpu.max: "; e]) ;;
  pid <- call Getpid ;;
  check setCgroupValue cgroupPath "cgroup.procs" (Strconv.Itoa (r_int pid))
  else (fun e => Errorf ["failed to add process to cgroup: "; e]) ;;
  ret nil_error.

Definition CleanupCgroups (config : CgroupConfig) : M error :=
  let cgroupPath := filepath_Join cgroupBasePath (Name config) in
  check errOf (RemoveAll cgroupPath)
  else (fun e => Errorf ["failed to remove cgroup directory: "; e]) ;;
  ret nil_error.

End WithPlatform.

End CgroupSetup.

(** ** filesystem.go *)

Module Filesystem.
Import Config.

Definition MS_RDONLY : Z := 1.
Definition MS_REMOUNT : Z := 32.
Definition MS_BIND : Z := 4096.

Definition newline : string := String (ascii_of_nat 10) EmptyString.

Definition resolvConf : string :=
  "nameserver 8.8.8.8" ++ newline ++ "nameserver 8.8.4.4" ++ newline.

Section WithPlatform.
Context {P : Platform}.

Definition createBindMount (mount : Mount) (rootFS : string) : M error :=
  st <- call (Stat (Source mount)) ;;
  if os_IsNotExist (r_err st) then
    ret (Errorf ["source path does not exist: "; Source mount])
  else
    let mountPoint := filepath_Join rootFS (Destination mount) in
    check errOf (MkdirAll mountPoint 493)
    else (fun e => Errorf ["failed to create mount point "; mountPoint;
                           ": "; e]) ;;
    let flags :=
      if ReadOnly mount then Z.lor MS_BIND MS_RDONLY else MS_BIND in
    check errOf (SysMount (Source mount) mountPoint "" flags "")
    else (fun e => Errorf ["failed to bind mount: "; e]) ;;
    check (if ReadOnly mount
           then errOf (SysMount "" mountPoint "" (Z.lor flags MS_REMOUNT) "")
           else ret nil_error)
    else (fun e => Errorf ["failed to remount as read-only: "; e]) ;;
    ret nil_error.

Fixpoint bindMountLoop (mounts : list Mount) (rootFS : string)
    : M error :=
  match mounts with
  | [] => ret nil_error
  | mount :: rest =>
      check createBindMount mount rootFS
      else (fun e => Errorf ["failed to create bind mount ";
                             Source mount; " -> "; Destination mount;
                             ": "; e]) ;;
      bindMountLoop rest rootFS
  end.

Definition setupBindMounts (config : ContainerConfig) : M error :=
  bindMountLoop (Mounts config) (RootFS config).

Definition copyResolvConf : M error :=
  check errOf (MkdirAll "/etc" 493)
  else (fun e => Errorf ["failed to create /etc directory: "; e]) ;;
  check errOf (WriteFile "/etc/resolv.conf" resolvConf 420)
  else (fun e => Errorf ["failed to write resolv.conf: "; e]) ;;
  ret nil_error.

Definition SetupFilesystem (config : ContainerConfig) : M error :=
  check setupBindMounts config
  else (fun e => Errorf ["failed to setup bind mounts: "; e]) ;;
  check errOf (Sethostname (Hostname config))
  else (fun e => Errorf ["failed to set hostname: "; e]) ;;
  check errOf (Chroot (RootFS config))
  else (fun e => Errorf ["failed to chroot to "; RootFS config;
                         ": "; e]) ;;
  check errOf (Chdir "/")
  else (fun e => Errorf ["failed to change directory to /: "; e]) ;;
  check copyResolvConf
  else (fun e => Errorf ["failed to setup DNS: "; e]) ;;
  check errOf (SysMount "proc" "proc" "proc" 0 "")
  else (fun e => Errorf ["failed to mount proc: "; e]) ;;
  check errOf (SysMount "devpts" "/dev/pts" "devpts" 0 "")
  else (fun e => Errorf ["failed to mount devpts: "; e]) ;;
  ret nil_error.

Definition CleanupFilesystem : M error :=
  e1 <- errOf (SysUnmount "/dev/pts" 0) ;;
  e2 <- errOf (SysUnmount "proc" 0) ;;
  ret (match e2 with
       | Some _ => e2
       | None => e1
       end).

Fixpoint mkdirLoop (dirs : list string) : M error :=
  match dirs with
  | [] => ret nil_error
  | dir :: rest =>
      check errOf (MkdirAll dir 493)
      else (fun e => Errorf ["failed to create directory "; dir;
                             ": "; e]) ;;
      mkdirLoop rest
  end.

Definition PrepareRootFS (rootfsPath : string) : M error :=
  st <- call (Stat rootfsPath) ;;
  if os_IsNotExist (r_err st) then
    ret (Errorf ["root filesystem path "; rootfsPath; " does not exist"])
  else
    mkdirLoop [filepath_Join rootfsPath "proc";
               filepath_Join rootfsPath "dev";
               filepath_Join rootfsPath "dev/pts";
               filepath_Join rootfsPath "etc";
               filepath_Join rootfsPath "app";
               filepath_Join rootfsPath "tmp"].

End WithPlatform.

End Filesystem.

(** ** network.go *)

Module Network.
Import Config.

Section WithPlatform.
Context {P : Platform}.

Definition createVethPair : M error :=
  check errOf (LinkAdd "veth0" "veth1")
  else (fun e => Errorf ["failed to add veth pair: "; e]) ;;
  ret nil_error.

Definition configureHostNetwork (config : ContainerConfig) : M error :=
  veth0 <- call (LinkByName "veth0") ;;
  match r_err veth0 with
  | Some e => ret (Errorf ["failed to get veth0: "; Message e])
  | None =>
      check errOf (LinkSetUp (r_int veth0))
      else (fun e => Errorf ["failed to bring up veth0: "; e]) ;;
      match net_ParseIP (HostIP config) with
      | None => ret (Errorf ["invalid host IP: "; HostIP config])
      | Some hostIP =>
          match net_ParseCIDR (NetworkCIDR config) with
          | None =>
              ret (Errorf ["invalid network CIDR: "; NetworkCIDR config])
          | Some hostNet =>
              check errOf (AddrAdd (r_int veth0) hostIP (Mask hostNet))
              else (fun e => Errorf ["failed to add address to veth0: ";
                                     e]) ;;
              ret nil_error
          end
      end
  end.

Definition bringUpLoopback : M error :=
  lo <- call (LinkByName "lo") ;;
  match r_err lo with
  | Some e =>
      ret (Errorf ["failed to get loopback interface: "; Message e])
  | None =>
      check errOf (LinkSetUp (r_int lo))
      else (fun e => Errorf ["failed to bring up loopback: "; e]) ;;
      ret nil_error
  end.

Definition configureContainerNetwork (config : ContainerConfig)
    : M error :=
  check bringUpLoopback
  else (fun e => Errorf ["failed to bring up loopback: "; e]) ;;
  veth1 <- call (LinkByName "veth1") ;;
  match r_err veth1 with
  | Some e => ret (Errorf ["failed to get veth1: "; Message e])
  | None =>
      check errOf (LinkSetUp (r_int veth1))
      else (fun e => Errorf ["failed to bring up veth1: "; e]) ;;
      match net_ParseIP (ContainerIP config) with
      | None =>
          ret (Errorf ["invalid container IP: "; ContainerIP config])
      | Some containerIP =>
          match net_ParseCIDR (NetworkCIDR config) with
          | None =>
              ret (Errorf ["invalid network CIDR: "; NetworkCIDR config])
          | Some containerNet =>
              check errOf (AddrAdd (r_int veth1) containerIP
                             (Mask containerNet))
              else (fun e => Errorf ["failed to add address to veth1: ";
                                     e]) ;;
              let gw := match net_ParseIP (HostIP config) with
                        | Some ip => ip
                        | None => ""
                        end in
              check errOf (RouteAdd (r_int veth1) gw)
              else (fun e => Errorf ["failed to add default route: ";
                                     e]) ;;
              ret nil_error
          end
      end
  end.

(** [exec.Command("iptables", args...).Run()] *)
Definition iptables (args : list string) : M error :=
  r <- call (CmdRun "iptables" args "") ;;
  ret (exitError r).

Definition setupNAT (config : ContainerConfig) : M error :=
  match net_ParseCIDR (NetworkCIDR config) with
  | None => ret (Errorf ["invalid network CIDR: "; NetworkCIDR config])
  | Some network =>
      let networkStr := IPNet_String network in
      check iptables ["-t"; "nat"; "-A"; "POSTROUTING"; "-s"; networkStr;
                      "-o"; "eth0"; "-j"; "MASQUERADE"]
      else (fun e => Errorf ["failed to setup masquerading: "; e]) ;;
      check iptables ["-A"; "FORWARD"; "-s"; networkStr; "-j"; "ACCEPT"]
      else (fun e => Errorf ["failed to setup forward rule (outbound): ";
                             e]) ;;
      check iptables ["-A"; "FORWARD"; "-d"; networkStr; "-j"; "ACCEPT"]
      else (fun e => Errorf ["failed to setup forward rule (inbound): ";
                             e]) ;;
      ret nil_error
  end.

Definition CleanupNetwork (config : ContainerConfig) : M unit :=
  match net_ParseCIDR (NetworkCIDR config) with
  | None => ret tt
  | Some network =>
      let networkStr := IPNet_String network in
      iptables ["-t"; "nat"; "-D"; "POSTROUTING"; "-s"; networkStr;
                "-o"; "eth0"; "-j"; "MASQUERADE"] ;;;
      iptables ["-D"; "FORWARD"; "-s"; networkStr; "-j"; "ACCEPT"] ;;;
      iptables ["-D"; "FORWARD"; "-d"; networkStr; "-j"; "ACCEPT"] ;;;
      ret tt
  end.

Definition SetupNetworking (pid : Z) (config : ContainerConfig)
    : M error :=
  call LockOSThread ;;;
  defer (call UnlockOSThread ;;; ret tt)
    (hostNs <- call NetnsGet ;;
     match r_err hostNs with
     | Some e =>
         ret (Errorf ["failed to get host namespace: "; Message e])
     | None =>
     defer (call (NetnsClose (r_int hostNs)) ;;; ret tt)
       (containerNs <- call (NetnsGetFromPid pid) ;;
        match r_err containerNs with
        | Some e =>
            ret (Errorf ["failed to get container namespace: ";
                         Message e])
        | None =>
        defer (call (NetnsClose (r_int containerNs)) ;;; ret tt)
          (check createVethPair
           else (fun e => Errorf ["failed to create veth pair: "; e]) ;;
           check configureHostNetwork config
           else (fun e => Errorf ["failed to configure host network: ";
                                  e]) ;;
           veth1 <- call (LinkByName "veth1") ;;
           match r_err veth1 with
           | Some e => ret (Errorf ["failed to get veth1: "; Message e])
           | None =>
               check errOf (LinkSetNsFd (r_int veth1) (r_int containerNs))
               else (fun e => Errorf ["failed to move veth1 to container: ";
                                      e]) ;;
               check errOf (NetnsSet (r_int containerNs))
               else (fun e =>
                       Errorf ["failed to switch to container namespace: ";
                               e]) ;;
               cerr <- configureContainerNetwork config ;;
               match cerr with
               | Some e =>
                   call (NetnsSet (r_int hostNs)) ;;;
                   ret (Errorf ["failed to configure container network: ";
                                e])
               | None =>
                   check errOf (NetnsSet (r_int hostNs))
                   else (fun e =>
                           Errorf ["failed to switch back to host namespace: ";
                                   e]) ;;
                   check setupNAT config
                   else (fun e => Errorf ["failed to setup NAT: "; e]) ;;
                   ret nil_error
               end
           end)
        end)
     end).

End WithPlatform.

End Network.

(** ** container.go: the environment bridge *)

Module EnvBridge.
Import GoString Config.

(** [os.Getenv] on an environment given as [KEY=VALUE] entries.  The
    child gets the entries of [cmd.Env], of which [os/exec] keeps the
    last one for each key; an entry without [=] names no variable, and a
    variable that is not set reads as the empty string. *)
Definition Getenv (env : list string) (key : string) : string :=
  fold_left
    (fun found entry =>
       match cut entry "=" with
       | Some (k, v) => if String.eqb k key then v else found
       | None => found
       end)
    env "".

(** The entry [entry] sets the variable [key]. *)
Definition sets (key entry : string) : bool :=
  match cut entry "=" with
  | Some (k, _) => String.eqb k key
  | None => false
  end.

(** No entry of [env] sets [key]. *)
Definition unset (env : list string) (key : string) : Prop :=
  Forall (fun entry => sets key entry = false) env.

(** The name of a variable of the mount of index [i]; [field] is
    [_SOURCE], [_DEST] or [_READONLY]. *)
Definition mountKey (i : Z) (field : string) : string :=
  "CONTAINER_MOUNT_" ++ Strconv.Itoa i ++ field.

Definition mountFields : list string := ["_SOURCE"; "_DEST"; "_READONLY"].

(** The three entries [RunContainer] adds for the mount of index [i]. *)
Definition mountEnv (i : Z) (mount : Mount) : list string :=
  let readonly := if ReadOnly mount then "true" else "false" in
  ["CONTAINER_MOUNT_" ++ Strconv.Itoa i ++ "_SOURCE=" ++ Source mount;
   "CONTAINER_MOUNT_" ++ Strconv.Itoa i ++ "_DEST=" ++ Destination mount;
   "CONTAINER_MOUNT_" ++ Strconv.Itoa i ++ "_READONLY=" ++ readonly].

Fixpoint mountsEnv (i : Z) (mounts : list Mount) (env : list string)
    : list string :=
  match mounts with
  | [] => env
  | mount :: rest => mountsEnv (i + 1) rest (env ++ mountEnv i mount)
  end.

(** [cmd.Env] as [RunContainer] builds it from [os.Environ()]. *)
Definition containerEnv (environ : list string) (config : ContainerConfig)
    : list string :=
  let fixed :=
    ["CONTAINER_HOSTNAME=" ++ Hostname config;
     "CONTAINER_ROOTFS=" ++ RootFS config;
     "CONTAINER_NETWORK_CIDR=" ++ NetworkCIDR config;
     "CONTAINER_HOST_IP=" ++ HostIP config;
     "CONTAINER_CONTAINER_IP=" ++ ContainerIP config] in
  let env := app environ fixed in
  let env := mountsEnv 0 (Mounts config) env in
  app env
    ["CONTAINER_MOUNT_COUNT=" ++ Strconv.Itoa (llen (Mounts config))].

(** The mount of index [i] as [configFromEnv] reads it. *)
Definition mountFromEnv (env : list string) (i : Z) : Mount :=
  let source :=
    Getenv env ("CONTAINER_MOUNT_" ++ Strconv.Itoa i ++ "_SOURCE") in
  let dest :=
    Getenv env ("CONTAINER_MOUNT_" ++ Strconv.Itoa i ++ "_DEST") in
  let readonlyStr :=
    Getenv env ("CONTAINER_MOUNT_" ++ Strconv.Itoa i ++ "_READONLY") in
  mkMount source dest (String.eqb readonlyStr "true").

(** [for i := 0; i < mountCount; i++], with [remaining] iterations to
    go. *)
Fixpoint mountLoop (env : list string) (remaining : nat) (i : Z)
    (mounts : list Mount) : list Mount :=
  match remaining with
  | O => mounts
  | S remaining' =>
      mountLoop env remaining' (i + 1) (mounts ++ [mountFromEnv env i])
  end.

(** [configFromEnv] *)
Definition configFromEnv (env : list string)
    : option ContainerConfig * error :=
  let config :=
    {| Hostname := Getenv env "CONTAINER_HOSTNAME";
       RootFS := Getenv env "CONTAINER_ROOTFS";
       Mounts := [];
       NetworkCIDR := Getenv env "CONTAINER_NETWORK_CIDR";
       HostIP := Getenv env "CONTAINER_HOST_IP";
       ContainerIP := Getenv env "CONTAINER_CONTAINER_IP";
       Command := [] |} in
  let mountCountStr := Getenv env "CONTAINER_MOUNT_COUNT" in
  if negb (String.eqb mountCountStr "") then
    let (mountCount, err) := Utils.parsePID mountCountStr in
    match err with
    | Some e => (None, Errorf ["invalid mount count: "; e])
    | None =>
        (Some {| Hostname := Hostname config;
                 RootFS := RootFS config;
                 Mounts := mountLoop env (Z.to_nat mountCount) 0
                             (Mounts config);
                 NetworkCIDR := NetworkCIDR config;
                 HostIP := HostIP config;
                 ContainerIP := ContainerIP config;
                 Command := Command config |},
         nil_error)
    end
  else (Some config, nil_error).

End EnvBridge.

(** ** container.go: parent and child *)

Module Container.
Import Config.

Definition CLONE_NEWNS : Z := 131072.
Definition CLONE_NEWUTS : Z := 67108864.
Definition CLONE_NEWPID : Z := 536870912.
Definition CLONE_NEWNET : Z := 1073741824.

Section WithPlatform.
Context {P : Platform}.

Fixpoint validateMounts (i : Z) (mounts : list Mount) : M error :=
  match mounts with
  | [] => ret nil_error
  | mount :: rest =>
      check Utils.validatePath (Source mount)
      else (fun e => Errorf ["invalid mount source path for mount ";
                             Strconv.Itoa i; ": "; e]) ;;
      if String.eqb (Destination mount) "" then
        ret (Errorf ["mount destination cannot be empty for mount ";
                     Strconv.Itoa i])
      else validateMounts (i + 1) rest
  end.

Definition validateConfig (config : ContainerConfig) : M error :=
  check lift (Utils.validateCommand (Command config))
  else (fun e => Some e) ;;
  check Utils.validatePath (RootFS config)
  else (fun e => Errorf ["invalid root filesystem path: "; e]) ;;
  validateMounts 0 (Mounts config).

(** [RunContainer]; [environ] is [os.Environ()]. *)
Definition RunContainer (environ : list string)
    (config : ContainerConfig) : M error :=
  check validateConfig config
  else (fun e => Errorf ["invalid configuration: "; e]) ;;
  check Filesystem.PrepareRootFS (RootFS config)
  else (fun e => Errorf ["failed to prepare root filesystem: "; e]) ;;
  started <- call (CmdStart "/proc/self/exe"
                     ("child" :: Command config)
                     (EnvBridge.containerEnv environ config)
                     (Z.lor (Z.lor (Z.lor CLONE_NEWUTS CLONE_NEWPID)
                               CLONE_NEWNS) CLONE_NEWNET)
                     CLONE_NEWNS) ;;
  match r_err started with
  | Some e => ret (Errorf ["failed to start container: "; Message e])
  | None =>
      let pid := r_int started in
      nerr <- Network.SetupNetworking pid config ;;
      match nerr with
      | Some e =>
          call (ProcessKill pid) ;;;
          ret (Errorf ["failed to setup networking: "; e])
      | None =>
          waited <- call (CmdWait pid) ;;
          let err := exitError waited in
          Network.CleanupNetwork config ;;;
          ret err
      end
  end.

(** [RunChildProcess]; [env] is the environment of the child. *)
Definition RunChildProcess (env : list string) (command : list string)
    : M error :=
  match EnvBridge.configFromEnv env with
  | (_, Some e) =>
      ret (Errorf ["failed to parse container config from environment: ";
                   e])
  | (None, None) => lift Panic
  | (Some config, None) =>
      check CgroupSetup.SetupCgroups CgroupSetup.NewDefaultCgroupConfig
      else (fun e => Errorf ["failed to setup cgroups: "; e]) ;;
      check Filesystem.SetupFilesystem config
      else (fun e => Errorf ["failed to setup filesystem: "; e]) ;;
      name <- lift (orPanic (elem command 0)) ;;
      let args := skipn 1 command in
      app <- Utils.dirExists "/app" ;;
      let dir := if (app : bool) then "/app" else "" in
      ran <- call (CmdRun name args dir) ;;
      let err := exitError ran in
      Filesystem.CleanupFilesystem ;;;
      ret err
  end.

End WithPlatform.

End Container.

(** ** main.go *)

Module Main.

(** What a process is started with: [os.Args], [os.Environ()] and the
    result of [os.Getwd()]. *)
Record Process := mkProcess {
  Args : list string;
  Environ : list string;
  Getwd : string * error
}.

Section WithPlatform.
Context {P : Platform}.

(** [handleRun]; printing the configuration under [DEBUG] is left out.  A
    nil configuration with a nil error would be dereferenced by
    [RunContainer]. *)
Definition handleRun (proc : Process) (args : list string) : M unit :=
  parsed <- lift (Cli.ParseFlags (Getwd proc) args) ;;
  match parsed with
  | (_, Some _) => os_Exit 1
  | (None, None) => lift Panic
  | (Some config, None) =>
      err <- Container.RunContainer (Environ proc) config ;;
      match err with
      | Some _ => os_Exit 1
      | None => ret tt
      end
  end.

Definition handleChild (proc : Process) (args : list string) : M unit :=
  if llen args =? 0 then os_Exit 1
  else
    err <- Container.RunChildProcess (Environ proc) args ;;
    match err with
    | Some _ => os_Exit 1
    | None => ret tt
    end.

Definition main (proc : Process) : M unit :=
  if llen (Args proc) <? 2 then os_Exit 1
  else
    arg1 <- lift (orPanic (elem (Args proc) 1)) ;;
    if String.eqb arg1 "help" || String.eqb arg1 "--help"
       || String.eqb arg1 "-h" then ret tt
    else if String.eqb arg1 "version" || String.eqb arg1 "--version"
            || String.eqb arg1 "-v" then ret tt
    else
      rooterr <- Utils.checkRoot ;;
      match rooterr with
      | Some _ => os_Exit 1
      | None =>
          if String.eqb arg1 "run" then handleRun proc (skipn 2 (Args proc))
          else if String.eqb arg1 "child"
               then handleChild proc (skipn 2 (Args proc))
               else os_Exit 1
      end.

End WithPlatform.

(** The exit status of the process: 0 when [main] returns, the argument of
    [os.Exit], 2 after a panic. *)
Definition exitStatus (r : res unit) : option Z :=
  match r with
  | Ok _ => Some 0
  | Exit code => Some code
  | Panic => Some 2
  | OutOfFuel => None
  end.

End Main.

(** ** Hosts

    Hosts on which the program can be run: one that answers every call
    from a table, and one that keeps the rules of the packet filter. *)

Module Hosts.

(** Every call is answered by [answer]; paths are joined with a slash,
    addresses and networks are taken as they are written. *)
Definition scripted (answer : Call -> Reply) : Platform :=
  {| world := unit;
     syscall := fun c w => (answer c, w);
     filepath_Join := fun a b => a ++ "/" ++ b;
     net_ParseIP := fun s => Some s;
     net_ParseCIDR := fun s => Some (mkIPNet s "");
     IPNet_String := fun n => IP n |}.

Definition succeeded : Reply := mkReply None 0 false.

Definition exited (status : Z) : Reply := mkReply None status false.

Definition refused (notExist : bool) (msg : string) : Reply :=
  mkReply (Some (mkOSError notExist msg)) 0 false.

(** A rule of the packet filter: its table, its chain and its
    specification. *)
Definition Rule : Type := string * string * list string.

Definition Rule_eq_dec (a b : Rule) : {a = b} + {a <> b}.
Proof.
  decide equality; [apply (list_eq_dec string_dec)|].
  decide equality; apply string_dec.
Defined.

(** The first rule equal to [r] taken out; [None] when there is none. *)
Fixpoint deleteRule (r : Rule) (rules : list Rule) : option (list Rule) :=
  match rules with
  | [] => None
  | x :: rest =>
      if Rule_eq_dec r x then Some rest
      else match deleteRule r rest with
           | Some rest' => Some (x :: rest')
           | None => None
           end
  end.

(** The rules without the first one equal to [r], if there is one. *)
Definition removeRule (r : Rule) (rules : list Rule) : list Rule :=
  match deleteRule r rules with
  | Some rules' => rules'
  | None => rules
  end.

(** [iptables [-t table] -A chain spec] appends a rule, which succeeds;
    [iptables [-t table] -D chain spec] deletes the first rule that is
    equal, and fails with status 1 when there is none; anything else is
    refused with status 2.  The table is [filter] when none is named. *)
Definition iptablesCommand (args : list string) (rules : list Rule)
    : Reply * list Rule :=
  let (table, rest) :=
    match args with
    | t :: table :: rest =>
        if String.eqb t "-t" then (table, rest) else ("filter", args)
    | _ => ("filter", args)
    end in
  match rest with
  | command :: chain :: spec =>
      if String.eqb command "-A" then
        (succeeded, (rules ++ [(table, chain, spec)])%list)
      else if String.eqb command "-D" then
        match deleteRule (table, chain, spec) rules with
        | Some rules' => (succeeded, rules')
        | None => (exited 1, rules)
        end
      else (exited 2, rules)
  | _ => (exited 2, rules)
  end.

(** A host whose state is the list of the rules of the packet filter;
    every other call succeeds. *)
Definition netfilter (parseCIDR : string -> option IPNet)
    (show : IPNet -> string) : Platform :=
  {| world := list Rule;
     syscall := fun c rules =>
       match c with
       | CmdRun name args _ =>
           if String.eqb name "iptables" then iptablesCommand args rules
           else (succeeded, rules)
       | _ => (succeeded, rules)
       end;
     filepath_Join := fun a b => a ++ "/" ++ b;
     net_ParseIP := fun s => Some s;
     net_ParseCIDR := parseCIDR;
     IPNet_String := show |}.

(** Inside a container whose setup succeeds and whose command ends with
    [status]: every call succeeds and every path is a directory. *)
Definition inContainer (status : Z) : Platform :=
  scripted (fun c =>
              match c with
              | CmdRun _ _ _ => exited status
              | Stat _ => mkReply None 0 true
              | _ => succeeded
              end).

(** The host of the runtime, on which every call succeeds.  A started
    command is this program again ([/proc/self/exe]), run in a container
    whose command ends with [status]; waiting for it gives the exit status
    of that process. *)
Definition outside (status : Z) : Platform :=
  {| world := option Main.Process;
     syscall := fun c started =>
       match c with
       | CmdStart name args env _ _ =>
           (exited 4242, Some (Main.mkProcess (name :: args) env ("/", None)))
       | CmdWait _ =>
           match started with
           | Some child =>
               (exited
                  match Main.exitStatus
                          (fst (Main.main (P := inContainer status) child
                                  (tt, [])))
                  with
                  | Some code => code
                  | None => 2
                  end,
                started)
           | None => (refused false "exec: not started", started)
           end
       | _ => (succeeded, started)
       end;
     filepath_Join := fun a b => a ++ "/" ++ b;
     net_ParseIP := fun s => Some s;
     net_ParseCIDR := fun s => Some (mkIPNet s "");
     IPNet_String := fun n => IP n |}.

(** The exit status of [container run args] as root on that host. *)
Definition runtimeExit (status : Z) (args : list string) : option Z :=
  Main.exitStatus
    (fst (Main.main (P := outside status)
            (Main.mkProcess ("container" :: "run" :: args) [] ("/work", None))
            (None, []))).

End Hosts.

(** ** Vocabulary of the specifications *)

Module Spec.
Import Config.

Section WithPlatform.
Context {P : Platform}.

(** [runs m Q]: from every state [m] ends; it has then made the calls
    [evs], in that order and after those made before, and [Q evs r] holds
    of the calls and of how [m] ended. *)
Definition runs {A} (m : M A) (Q : list Event -> res A -> Prop) : Prop :=
  forall (w : world) (tr : list Event),
  exists evs,
    snd (snd (m (w, tr))) = (tr ++ evs)%list /\ Q evs (fst (m (w, tr))).

(** What a call leaves to its caller when it does not return. *)
Definition passed {A B} (r : res A) : res B :=
  match r with
  | Exit code => Exit code
  | OutOfFuel => OutOfFuel
  | _ => Panic
  end.

(** A run that returns after calls that are all in the class [ok]. *)
Definition returns {A} (ok : Call -> bool) (evs : list Event) (r : res A)
    : Prop :=
  Forall (fun ev => ok (fst ev) = true) evs /\ exists a, r = Ok a.

(** The calls of the child around its command: all but running a command
    to its end, waiting for one, and asking for the user id. *)
Definition inChild (c : Call) : bool :=
  match c with
  | CmdRun _ _ _ | CmdWait _ | Geteuid => false
  | _ => true
  end.

(** The calls of the parent around its wait for the child: all but waiting
    for a started command and asking for the user id. *)
Definition inParent (c : Call) : bool :=
  match c with
  | CmdWait _ | Geteuid => false
  | _ => true
  end.

Definition isRun (c : Call) : bool :=
  match c with
  | CmdRun _ _ _ => true
  | _ => false
  end.

Definition isWait (c : Call) : bool :=
  match c with
  | CmdWait _ => true
  | _ => false
  end.

(** A stat failed for another reason than the path not existing;
    [dirExists] then asks [IsDir] of a nil [FileInfo], which panics. *)
Definition statBroke (evs : list Event) : Prop :=
  exists path reply,
    In (Stat path, reply) evs
    /\ r_err reply <> None
    /\ os_IsNotExist (r_err reply) = false.

(** A run in which one call decides: either the deciding call was made,
    once, among calls of the class [ok], and the run returns the error of
    that call ([nil] when the command ended with status 0); or no deciding
    call was made and the run returns an error, or panics, which only
    happens when [excused]. *)
Definition decided (ok decisive : Call -> bool)
    (excused : list Event -> Prop) (evs : list Event) (r : res error)
    : Prop :=
  (exists pre ev post,
      evs = (pre ++ ev :: post)%list
      /\ decisive (fst ev) = true
      /\ Forall (fun e => ok (fst e) = true) pre
      /\ Forall (fun e => ok (fst e) = true) post
      /\ r = Ok (exitError (snd ev)))
  \/ (Forall (fun e => ok (fst e) = true) evs
      /\ ((r = Panic /\ excused evs) \/ exists msg, r = Ok (Some msg))).

(** How a process ends when one call decides: with status 0, 1 or 2; once
    a deciding call was made, with 0 if the command it ran or waited for
    ended with status 0 and with 1 otherwise, whatever the other status
    was; with 0 only after such a call, unless [helped]; with 2 only when
    [excused]; and the user id is not asked for. *)
Definition exitsBy (decisive : Call -> bool) (helped : Prop)
    (excused : list Event -> Prop) (evs : list Event) (r : res unit)
    : Prop :=
  exists code,
    Main.exitStatus r = Some code
    /\ (code = 0 \/ code = 1 \/ code = 2)
    /\ (forall ev, In ev evs -> decisive (fst ev) = true ->
        code = match exitError (snd ev) with
               | None => 0
               | Some _ => 1
               end)
    /\ (code = 0 -> helped \/ exists ev, In ev evs /\ decisive (fst ev) = true)
    /\ (code = 2 -> excused evs)
    /\ (forall reply, In (Geteuid, reply) evs -> False).

(** The call failed, as [SetupFilesystem] sees it: [os.Stat] only when the
    path does not exist, any other call when it returns an error. *)
Definition failed (ev : Event) : bool :=
  match fst ev with
  | Stat _ => os_IsNotExist (r_err (snd ev))
  | _ => match r_err (snd ev) with
         | Some _ => true
         | None => false
         end
  end.

(** The calls of one bind mount: the source is looked at, the mount point
    made, the source mounted, and mounted again when it is read-only. *)
Definition bindMountSteps (rootFS : string) (mount : Mount) : list Call :=
  let mountPoint := filepath_Join rootFS (Destination mount) in
  if ReadOnly mount then
    [Stat (Source mount);
     MkdirAll mountPoint 493;
     SysMount (Source mount) mountPoint "" 4097 "";
     SysMount "" mountPoint "" 4129 ""]
  else
    [Stat (Source mount);
     MkdirAll mountPoint 493;
     SysMount (Source mount) mountPoint "" 4096 ""].

(** The steps of the filesystem setup in their order: the bind mounts, the
    hostname, the root change and the change of directory to [/], the DNS
    configuration, the mount of [proc] and the mount of [devpts]. *)
Definition setupSteps (config : ContainerConfig) : list Call :=
  (flat_map (bindMountSteps (RootFS config)) (Mounts config)
   ++ [Sethostname (Hostname config);
       Chroot (RootFS config);
       Chdir "/";
       MkdirAll "/etc" 493;
       WriteFile "/etc/resolv.conf" Filesystem.resolvConf 420;
       SysMount "proc" "proc" "proc" 0 "";
       SysMount "devpts" "/dev/pts" "devpts" 0 ""])%list.

(** A run that returns after following [steps]: either every step was
    made, none failed and the result is nil; or the steps were made up to
    one that failed, which is the last call, and the result is an error. *)
Definition followed (steps : list Call) (evs : list Event) (r : res error)
    : Prop :=
  exists err,
    r = Ok err
    /\ ((err = nil_error
         /\ map fst evs = steps
         /\ Forall (fun ev => failed ev = false) evs)
        \/ (err <> nil_error
            /\ exists done ev rest,
                 evs = (done ++ [ev])%list
                 /\ failed ev = true
                 /\ Forall (fun ev => failed ev = false) done
                 /\ steps = (map fst evs ++ rest)%list)).

(** The arguments of the three [iptables] commands that install the
    rules for the network [net]: masquerading, forwarding from the network
    and forwarding to it. *)
Definition natRules (net : string) : list (list string) :=
  [["-t"; "nat"; "-A"; "POSTROUTING"; "-s"; net; "-o"; "eth0";
    "-j"; "MASQUERADE"];
   ["-A"; "FORWARD"; "-s"; net; "-j"; "ACCEPT"];
   ["-A"; "FORWARD"; "-d"; net; "-j"; "ACCEPT"]].

(** Running [iptables] with the arguments [args]. *)
Definition command (args : list string) : Call := CmdRun "iptables" args "".

(** The same command with [-D] in place of its [-A]. *)
Fixpoint asDelete (args : list string) : list string :=
  match args with
  | [] => []
  | a :: rest =>
      if String.eqb a "-A" then "-D" :: rest else a :: asDelete rest
  end.

(** The three rules as the packet filter keeps them. *)
Definition installedRules (net : string) : list Hosts.Rule :=
  [("nat", "POSTROUTING", ["-s"; net; "-o"; "eth0"; "-j"; "MASQUERADE"]);
   ("filter", "FORWARD", ["-s"; net; "-j"; "ACCEPT"]);
   ("filter", "FORWARD", ["-d"; net; "-j"; "ACCEPT"])].

(** The control files [SetupCgroups] writes, in their order. *)
Definition controlFiles (config : CgroupSetup.CgroupConfig) : list string :=
  (["pids.max"]
   ++ (if String.eqb (CgroupSetup.MemoryLimit config) "" then []
       else ["memory.max"])
   ++ (if String.eqb (CgroupSetup.CPUQuota config) "" then []
       else ["cpu.max"])
   ++ ["cgroup.procs"])%list.

(** The file calls [evs] are those of writing the control files [paths] one
    after the other: each file is looked at; a file that does not exist is
    skipped, nothing is written to it and the next file is taken; any other
    file is written, and a write that fails is the last call; [stopped]
    tells whether that happened. *)
Fixpoint visits (paths : list string) (evs : list Event) (stopped : bool)
    : Prop :=
  match paths with
  | [] => evs = [] /\ stopped = false
  | path :: rest =>
      exists st evs1,
        evs = (Stat path, st) :: evs1
        /\ if os_IsNotExist (r_err st) then visits rest evs1 stopped
           else exists value wr evs2,
                  evs1 = (WriteFile path value 420, wr) :: evs2
                  /\ match r_err wr with
                     | None => visits rest evs2 stopped
                     | Some _ => evs2 = [] /\ stopped = true
                     end
  end.

Definition isFileCall (ev : Event) : bool :=
  match fst ev with
  | Stat _ | WriteFile _ _ _ => true
  | _ => false
  end.

(** A run that returns after the calls for [paths], with an error exactly
    when a write failed. *)
Definition wrote (paths : list string) (evs : list Event) (r : res error)
    : Prop :=
  exists err stopped,
    r = Ok err
    /\ visits paths (filter isFileCall evs) stopped
    /\ (err = nil_error <-> stopped = false).

(** The calls [evs] made for the control files of [config] under [dir],
    and the error [SetupCgroups] returns after them: an error exactly when
    a write failed. *)
Definition cgroupWrites (dir : string) (config : CgroupSetup.CgroupConfig)
    (evs : list Event) (err : error) : Prop :=
  exists stopped,
    visits (map (filepath_Join dir) (controlFiles config))
      (filter isFileCall evs) stopped
    /\ (err = nil_error <-> stopped = false).

End WithPlatform.

End Spec.

(** ** Go maps with string keys *)

Module GoMap.

(** The entries of a map, each key once, in the order in which the keys
    were first assigned. *)
Definition GoMap (V : Type) : Type := list (string * V).

(** [v, ok := m[key]] *)
Fixpoint lookup {V} (m : GoMap V) (key : string) : option V :=
  match m with
  | [] => None
  | (k, v) :: rest => if String.eqb k key then Some v else lookup rest key
  end.

(** [m[key]]: the zero value of the type when the key is absent. *)
Definition index {V} (zero : V) (m : GoMap V) (key : string) : V :=
  match lookup m key with
  | Some v => v
  | None => zero
  end.

(** [m[key] = v] *)
Fixpoint store {V} (m : GoMap V) (key : string) (v : V) : GoMap V :=
  match m with
  | [] => [(key, v)]
  | (k, old) :: rest =>
      if String.eqb k key then (k, v) :: rest
      else (k, old) :: store rest key v
  end.

End GoMap.

(** ** utils.go: the helpers on slices and directories *)

Module Helpers.
Import GoMap.

(** [contains]: the loop returns at the first element equal to [item]. *)
Fixpoint contains (slice : list string) (item : string) : bool :=
  match slice with
  | [] => false
  | s :: rest => if String.eqb s item then true else contains rest item
  end.

(** The loop of [unique], with the map [keys] and the slice [result] it
    has built so far. *)
Fixpoint uniqueLoop (slice : list string) (keys : GoMap bool)
    (result : list string) : list string :=
  match slice with
  | [] => result
  | item :: rest =>
      if negb (index false keys item)
      then uniqueLoop rest (store keys item true) (result ++ [item])
      else uniqueLoop rest keys result
  end.

Definition unique (slice : list string) : list string :=
  uniqueLoop slice [] [].

Section WithPlatform.
Context {P : Platform}.

(** [ensureDir]: the directory is made when [dirExists] says no. *)
Definition ensureDir (path : string) (perm : Z) : M error :=
  found <- Utils.dirExists path ;;
  if negb (found : bool) then errOf (MkdirAll path perm)
  else ret nil_error.

End WithPlatform.

End Helpers.

(** ** config.go: the repeatable flag *)

Module MultiString.

(** [strings.Join] *)
Fixpoint Join (elems : list string) (sep : string) : string :=
  match elems with
  | [] => ""
  | x :: rest =>
      match rest with
      | [] => x
      | _ :: _ => x ++ sep ++ Join rest sep
      end
  end.

Definition multiString : Type := list string.

(** [(m *multiString) String()] *)
Definition String_ (m : multiString) : string := Join m ",".

(** [(m *multiString) Set(value)]: the receiver after the call, and the
    error. *)
Definition Set_ (m : multiString) (value : string) : multiString * error :=
  ((m ++ [value])%list, nil_error).

(** [Set] called once for each of [values], in their order. *)
Definition setAll (values : list string) (m : multiString) : multiString :=
  fold_left (fun m value => fst (Set_ m value)) values m.

End MultiString.

(** ** Vocabulary of the specifications of [ParseFlags] *)

Module CliSpec.
Import Config.

(** The values the tokens [toks] give to the flag [name], in their order;
    a token gives a value when it is a flag written as one token. *)
Fixpoint flagValues (name : string) (toks : list string) : list string :=
  match toks with
  | [] => []
  | tok :: rest =>
      match Cli.asFlag tok with
      | Some (n, value) =>
          if String.eqb n name then value :: flagValues name rest
          else flagValues name rest
      | None => flagValues name rest
      end
  end.

(** The mount a value of the [mount] flag stands for. *)
Definition mountOf (value : string) : Mount :=
  match parseMount value with
  | Some (mount, _) => mount
  | None => zeroMount
  end.

(** The mount [ParseFlags] adds when no [mount] flag is given: the working
    directory at [/app], when the working directory is known. *)
Definition defaultMounts (getwd : string * error) : list Mount :=
  match snd getwd with
  | None => [mkMount (fst getwd) "/app" false]
  | Some _ => []
  end.

End CliSpec.

(** ** Vocabulary of the specifications of the parent and the child *)

Module RunSpec.
Import Config.

Section WithPlatform.
Context {P : Platform}.





(** The calls that make and configure the links. *)
Definition linkCall (c : Call) : bool :=
  match c with
  | LinkAdd _ _ | LinkByName _ | LinkSetUp _ | AddrAdd _ _ _
  | LinkSetNsFd _ _ | RouteAdd _ _ => true
  | _ => false
  end.

(** Running [iptables]. *)
Definition isIptables (c : Call) : bool :=
  match c with
  | CmdRun name _ _ => String.eqb name "iptables"
  | _ => false
  end.

(** The call was refused: a command that could not be run or that ended
    with a status other than 0, any other call that returned an error. *)
Definition rejected (ev : Event) : bool :=
  match fst ev with
  | CmdRun _ _ _ =>
      match exitError (snd ev) with
      | Some _ => true
      | None => false
      end
  | _ =>
      match r_err (snd ev) with
      | Some _ => true
      | None => false
      end
  end.

(** A run that returns after calls of the class [cls], and returns nil
    only when none of them was refused. *)
Definition careful (cls : Call -> bool) (evs : list Event) (r : res error)
    : Prop :=
  exists err,
    r = Ok err
    /\ Forall (fun ev => cls (fst ev) = true) evs
    /\ (err = nil_error -> Forall (fun ev => rejected ev = false) evs).

(** The calls of [SetupNetworking] after the switch to the namespace of
    the container: the links are configured there, the thread is switched
    back to the namespace [hostNs] of the host, whether the configuration
    failed or not, and only then [iptables] is run; it is run only when
    the configuration and the switch back succeeded. *)
Definition inContainerNs (hostNs : Z) (evs : list Event) (r : res error)
    : Prop :=
  exists inside back nat err,
    r = Ok err
    /\ evs = (inside ++ (NetnsSet hostNs, back) :: nat)%list
    /\ Forall (fun ev => linkCall (fst ev) = true) inside
    /\ Forall (fun ev => isIptables (fst ev) = true) nat
    /\ (nat <> [] ->
        r_err back = None /\ Forall (fun ev => rejected ev = false) inside)
    /\ (err = nil_error ->
        r_err back = None
        /\ Forall (fun ev => rejected ev = false) (inside ++ nat)).

(** The calls of [SetupNetworking] between getting the two namespaces and
    closing them: the links are made and configured on the host; when
    that succeeded the thread is switched to the namespace [containerNs]
    of the container, and when the switch succeeded the rest is
    [inContainerNs].  Without a switch the result is an error. *)
Definition networkWork (hostNs containerNs : Z) (evs : list Event)
    (r : res error) : Prop :=
  exists hostSide rest err,
    r = Ok err
    /\ evs = (hostSide ++ rest)%list
    /\ Forall (fun ev => linkCall (fst ev) = true) hostSide
    /\ match rest with
       | [] => err <> nil_error
       | ev :: after =>
           fst ev = NetnsSet containerNs
           /\ Forall (fun ev => rejected ev = false) hostSide
           /\ match r_err (snd ev) with
              | Some _ => after = [] /\ err <> nil_error
              | None => inContainerNs hostNs after (Ok err)
              end
       end.

(** The calls [evs] get a namespace with [get] and close it: when [get]
    fails it is the only call and the result is an error; otherwise the
    calls between [get] and the closing of the handle it returned are
    [work] for that handle, and closing is the last call however the work
    ended. *)
Definition held (get : Call) (work : Z -> list Event -> res error -> Prop)
    (evs : list Event) (r : res error) : Prop :=
  exists got,
    match r_err got with
    | Some _ => evs = [(get, got)] /\ exists msg, r = Ok (Some msg)
    | None =>
        exists inner closed,
          evs = ((get, got) :: inner
                 ++ [(NetnsClose (r_int got), closed)])%list
          /\ work (r_int got) inner r
    end.

(** [evs] are the calls of a run of [m] that ended with [r]: from some
    state of the host, after the calls made before, [m] makes the calls
    [evs], gets the replies recorded in them, and ends with [r]. *)
Definition performs {A} (m : M A) (evs : list Event) (r : res A) : Prop :=
  exists w tr w', m (w, tr) = (r, (w', (tr ++ evs)%list)).

(** How [RunContainer] starts the child: this program again, with
    [child] and the command as arguments, the environment that carries
    the configuration, and new UTS, PID, mount and network namespaces. *)
Definition childStart (environ : list string) (config : ContainerConfig)
    : Call :=
  CmdStart "/proc/self/exe" ("child" :: Command config)
    (EnvBridge.containerEnv environ config) 1677852672 131072.

(** The calls of [RunContainer] once the child [pid] runs, and the
    result: the network is set up; when that returns an error the child
    is killed, which is the last call, and the result is an error;
    otherwise the child is waited for, the rules of the packet filter are
    removed, and the result is the outcome of the wait. *)
Definition supervised (config : ContainerConfig) (pid : Z)
    (evs : list Event) (err : error) : Prop :=
  exists net nerr,
    performs (Network.SetupNetworking pid config) net (Ok nerr)
    /\ match nerr with
       | Some _ =>
           exists killed,
             evs = (net ++ [(ProcessKill pid, killed)])%list
             /\ err <> nil_error
       | None =>
           exists waited cleanup,
             evs = (net ++ (CmdWait pid, waited) :: cleanup)%list
             /\ performs (Network.CleanupNetwork config) cleanup (Ok tt)
             /\ err = exitError waited
       end.

(** The calls of [RunContainer] from the start of the child on: when the
    start fails it is the last call and the result is an error; otherwise
    the child is [supervised] under the process id the start returned. *)
Definition launched (environ : list string) (config : ContainerConfig)
    (evs : list Event) (err : error) : Prop :=
  exists started after,
    evs = (childStart environ config, started) :: after
    /\ match r_err started with
       | Some _ => after = [] /\ err <> nil_error
       | None => supervised config (r_int started) after err
       end.

(** The calls of [RunContainer] and its result.  The configuration is
    validated; when that returns an error nothing else is called and the
    result is an error.  Then the root filesystem is prepared; when that
    returns an error nothing else is called and the result is an error.
    Only then the child is started ([launched]). *)
Definition lifecycle (environ : list string) (config : ContainerConfig)
    (evs : list Event) (err : error) : Prop :=
  exists checks verr,
    performs (Container.validateConfig config) checks (Ok verr)
    /\ match verr with
       | Some _ => evs = checks /\ err <> nil_error
       | None =>
           exists dirs perr,
             performs (Filesystem.PrepareRootFS (RootFS config)) dirs
               (Ok perr)
             /\ match perr with
                | Some _ => evs = (checks ++ dirs)%list /\ err <> nil_error
                | None =>
                    exists rest,
                      evs = (checks ++ dirs ++ rest)%list
                      /\ launched environ config rest err
                end
       end.

(** The command was run in the directory [dir], and after it, whatever
    its outcome, [/dev/pts] and [proc] were unmounted; the result is the
    outcome of the command. *)
Definition ranIn (dir : string) (command : list string)
    (evs : list Event) (r : res error) : Prop :=
  exists name args ran u1 u2,
    command = name :: args
    /\ evs = [(CmdRun name args dir, ran);
              (SysUnmount "/dev/pts" 0, u1);
              (SysUnmount "proc" 0, u2)]
    /\ r = Ok (exitError ran).

(** The calls of [RunChildProcess] after the setup, and how it ends:
    without a command it panics; otherwise [/app] is looked at, and the
    command is run in [/app] when it is a directory, in the directory of
    the process when it does not exist or is no directory; when looking
    at [/app] fails for another reason the child panics, nothing else
    being called. *)
Definition commanded (command : list string) (evs : list Event)
    (r : res error) : Prop :=
  match command with
  | [] => evs = [] /\ r = Panic
  | _ :: _ =>
      exists app after,
        evs = (Stat "/app", app) :: after
        /\ match r_err app with
           | Some e =>
               if NotExist e then ranIn "" command after r
               else after = [] /\ r = Panic
           | None =>
               ranIn (if r_dir app then "/app" else "") command after r
           end
  end.

(** The calls of [RunChildProcess] and how it ends.  When the
    configuration cannot be read from the environment nothing is called
    and the result is an error.  Otherwise the control group is set up;
    when that returns an error nothing else is called and the result is an
    error.  Then the filesystem is set up; when that returns an error
    nothing else is called and the result is an error.  Only then comes
    the command ([commanded]). *)
Definition childRun (env command : list string) (evs : list Event)
    (r : res error) : Prop :=
  match EnvBridge.configFromEnv env with
  | (_, Some _) => evs = [] /\ exists msg, r = Ok (Some msg)
  | (None, None) => evs = [] /\ r = Panic
  | (Some config, None) =>
      exists cgroups cgerr,
        performs (CgroupSetup.SetupCgroups CgroupSetup.NewDefaultCgroupConfig)
          cgroups (Ok cgerr)
        /\ match cgerr with
           | Some _ => evs = cgroups /\ exists msg, r = Ok (Some msg)
           | None =>
               exists files fserr,
                 performs (Filesystem.SetupFilesystem config) files
                   (Ok fserr)
                 /\ match fserr with
                    | Some _ =>
                        evs = (cgroups ++ files)%list
                        /\ exists msg, r = Ok (Some msg)
                    | None =>
                        exists rest,
                          evs = (cgroups ++ files ++ rest)%list
                          /\ commanded command rest r
                    end
           end
  end.

(** What [SetupCgroups] may write to the control file [filename] of the
    group: the configured limits, each to its file and only when it is
    set, and to [cgroup.procs] the process id that [os.Getpid] returned
    in [evs]. *)
Definition cgroupValue (config : CgroupSetup.CgroupConfig)
    (evs : list Event) (filename data : string) : Prop :=
  (filename = "pids.max" /\ data = CgroupSetup.MaxPids config)
  \/ (filename = "memory.max"
      /\ data = CgroupSetup.MemoryLimit config
      /\ CgroupSetup.MemoryLimit config <> "")
  \/ (filename = "cpu.max"
      /\ data = CgroupSetup.CPUQuota config ++ " "
                ++ CgroupSetup.CPUPeriod config
      /\ CgroupSetup.CPUQuota config <> "")
  \/ (filename = "cgroup.procs"
      /\ exists pid, In (Getpid, pid) evs
                     /\ data = Strconv.Itoa (r_int pid)).

(** Every write among [evs] is a write of mode 0644 to a control file
    under [dir], of a value [SetupCgroups] may write to it. *)
Definition writesOnly (dir : string) (config : CgroupSetup.CgroupConfig)
    (evs : list Event) : Prop :=
  forall path data perm reply,
    In (WriteFile path data perm, reply) evs ->
    perm = 420
    /\ exists filename,
         path = filepath_Join dir filename
         /\ cgroupValue config evs filename data.


(** A run that returns and writes only what [SetupCgroups] may write. *)
Definition writing (dir : string) (config : CgroupSetup.CgroupConfig)
    (evs : list Event) (r : res error) : Prop :=
  (exists err, r = Ok err) /\ writesOnly dir config evs.


(** The first arguments for which [main] prints and returns. *)
Definition informational : list string :=
  ["help"; "--help"; "-h"; "version"; "--version"; "-v"].

(** The status of the process after the run of a role: 0 when the run
    returned nil, 1 when it returned an error, the argument of [os.Exit]
    when the flag package left, 2 after a panic. *)
Definition statusOf (r : res error) : option Z :=
  match r with
  | Ok None => Some 0
  | Ok (Some _) => Some 1
  | Exit code => Some code
  | Panic => Some 2
  | OutOfFuel => None
  end.

(** The calls of the child after the user id was asked for, and the
    status it ends with: without a command no call and 1; otherwise the
    calls of [childRun] and the status of its result, which is 1 when the
    configuration cannot be read or the setup of the control group or of
    the filesystem returns an error, 2 when looking at [/app] fails for
    another reason than [/app] not existing, and once the command has run
    0 when it ended with status 0 and 1 when it ended otherwise. *)
Definition childExit (proc : Main.Process) (args : list string)
    (calls : list Event) (code : Z) : Prop :=
  match args with
  | [] => calls = [] /\ code = 1
  | _ :: _ =>
      exists result,
        childRun (Main.Environ proc) args calls result
        /\ statusOf result = Some code
  end.

(** The calls of the parent after the user id was asked for, and the
    status it ends with: when the flag package leaves, no call and the
    status it leaves with (0 for a help flag, 2 for flags it refuses);
    when [ParseFlags] returns an error, no call and 1; otherwise the calls
    of [lifecycle] and the status of its result, which is 0 when the child
    was waited for and ended with status 0, and 1 in every other case:
    when the validation or the preparation of the root filesystem returns
    an error, when the child cannot be started, when it is killed, and
    when it ended with another status. *)
Definition parentExit (proc : Main.Process) (args : list string)
    (calls : list Event) (code : Z) : Prop :=
  match Cli.ParseFlags (Main.Getwd proc) args with
  | Exit status => calls = [] /\ code = status
  | Ok (_, Some _) => calls = [] /\ code = 1
  | Ok (Some config, None) =>
      exists err,
        lifecycle (Main.Environ proc) config calls err
        /\ statusOf (Ok err) = Some code
  | _ => False
  end.

End WithPlatform.

End RunSpec.

(** ** cgroups.go: reading the statistics *)

Module CgroupStats.
Import GoMap CgroupSetup.

Section WithPlatform.
Context {P : Platform}.

(** [ioutil.ReadFile] on the host: the content and the error, and the
    host after the call. *)
Variable ReadFile : string -> world -> (string * error) * world.

Definition statFiles : list string :=
  ["pids.current"; "memory.current"; "memory.max"; "cpu.stat"].

(** The loop over the files: a file that is read is kept under its name,
    a file that cannot be read is passed over. *)
Fixpoint readStats (cgroupPath : string) (files : list string)
    (stats : GoMap string) (w : world) : GoMap string * world :=
  match files with
  | [] => (stats, w)
  | file :: rest =>
      let filePath := filepath_Join cgroupPath file in
      let (read, w') := ReadFile filePath w in
      match snd read with
      | None => readStats cgroupPath rest (store stats file (fst read)) w'
      | Some _ => readStats cgroupPath rest stats w'
      end
  end.

Definition GetCgroupStats (config : CgroupConfig) (w : world)
    : (GoMap string * error) * world :=
  let cgroupPath := filepath_Join cgroupBasePath (Name config) in
  let (stats, w') := readStats cgroupPath statFiles [] w in
  ((stats, nil_error), w').

End WithPlatform.

End CgroupStats.

(** * Properties *)

(** ** Strings *)

Module StringFacts.
Import GoString.

Lemma length_app (a b : string) :
  String.length (a ++ b) = (String.length a + String.length b)%nat.
Proof. induction a as [|c a IH]; simpl; [reflexivity | now rewrite IH]. Qed.

Lemma app_nil_r (a : string) : a ++ "" = a.
Proof. induction a as [|c a IH]; simpl; [reflexivity | now rewrite IH]. Qed.

Lemma app_assoc (a b c : string) : (a ++ b) ++ c = a ++ (b ++ c).
Proof. induction a as [|x a IH]; simpl; [reflexivity | now rewrite IH]. Qed.

Lemma substring_all (s : string) : String.substring 0 (String.length s) s = s.
Proof. induction s as [|c s IH]; simpl; [reflexivity | now rewrite IH]. Qed.

Lemma substring_head (a b : string) :
  String.substring 0 (String.length a) (a ++ b) = a.
Proof.
  induction a as [|c a IH]; simpl.
  - now destruct b.
  - now rewrite IH.
Qed.

Lemma substring_tail (a b : string) :
  String.substring (String.length a) (String.length b) (a ++ b) = b.
Proof.
  induction a as [|c a IH]; simpl.
  - apply substring_all.
  - exact IH.
Qed.

(** A non-empty string has a last byte. *)
Lemma last_byte (s : string) :
  s <> "" -> exists body c, s = body ++ String c "".
Proof.
  induction s as [|x s IH]; intros H; [congruence|].
  destruct s as [|y s].
  - exists "", x. reflexivity.
  - destruct IH as (body & c & E); [discriminate|].
    exists (String x body), c. simpl. now rewrite <- E.
Qed.

Lemma slice_last (body : string) (c : ascii) :
  let s := body ++ String c "" in
  slice_from s (len s - 1) = Some (String c "")
  /\ slice_to s (len s - 1) = Some body.
Proof.
  intros s. unfold slice_from, slice_to, slice, len, s.
  rewrite length_app. simpl String.length.
  replace (Z.of_nat (String.length body + 1) - 1)
    with (Z.of_nat (String.length body)) by lia.
  split.
  - replace ((0 <=? Z.of_nat (String.length body))
             && (Z.of_nat (String.length body)
                 <=? Z.of_nat (String.length body + 1))
             && (Z.of_nat (String.length body + 1)
                 <=? Z.of_nat (String.length body + 1))) with true
      by (symmetry; rewrite !andb_true_iff, !Z.leb_le; lia).
    rewrite Nat2Z.id.
    replace (Z.to_nat (Z.of_nat (String.length body + 1)
                       - Z.of_nat (String.length body)))
      with (String.length (String c "")) by (simpl; lia).
    now rewrite substring_tail.
  - replace ((0 <=? 0) && (0 <=? Z.of_nat (String.length body))
             && (Z.of_nat (String.length body)
                 <=? Z.of_nat (String.length body + 1))) with true
      by (symmetry; rewrite !andb_true_iff, !Z.leb_le; lia).
    rewrite Z.sub_0_r, Nat2Z.id. simpl Z.to_nat.
    now rewrite substring_head.
Qed.

Lemma app_inv_tail (a b c : string) : a ++ c = b ++ c -> a = b.
Proof.
  revert b. induction a as [|x a IH]; intros [|y b] H; simpl in H.
  - reflexivity.
  - apply (f_equal String.length) in H. simpl in H.
    rewrite length_app in H. lia.
  - apply (f_equal String.length) in H. simpl in H.
    rewrite length_app in H. lia.
  - injection H as -> H. f_equal. now apply IH.
Qed.

Lemma app_inv_head (a b c : string) : a ++ b = a ++ c -> b = c.
Proof. induction a as [|x a IH]; simpl; intros H; [exact H|]. injection H. exact IH. Qed.

End StringFacts.

(** ** [ParseMemorySize] *)

Module CgroupsFacts.
Import GoString Cgroups StringFacts Strconv.

(** The parser on a string with last byte [c]. *)
Lemma ParseMemorySize_last (body : string) (c : ascii) :
  ParseMemorySize (body ++ String c "") =
  Some (if Ascii.eqb c "K" || Ascii.eqb c "k" then body ++ "000"
        else if Ascii.eqb c "M" || Ascii.eqb c "m" then body ++ "000000"
        else if Ascii.eqb c "G" || Ascii.eqb c "g" then body ++ "000000000"
        else body ++ String c "",
        nil_error).
Proof.
  unfold ParseMemorySize.
  destruct (slice_last body c) as [Hl Hb]. cbv zeta in Hl, Hb.
  replace (String.eqb (body ++ String c "") "") with false
    by (symmetry; apply String.eqb_neq; destruct body; discriminate).
  rewrite Hl, Hb. unfold bindp.
  change (String.eqb (String c "") "K") with (Ascii.eqb c "K" && true).
  change (String.eqb (String c "") "k") with (Ascii.eqb c "k" && true).
  change (String.eqb (String c "") "M") with (Ascii.eqb c "M" && true).
  change (String.eqb (String c "") "m") with (Ascii.eqb c "m" && true).
  change (String.eqb (String c "") "G") with (Ascii.eqb c "G" && true).
  change (String.eqb (String c "") "g") with (Ascii.eqb c "g" && true).
  rewrite !andb_true_r.
  destruct (Ascii.eqb c "K" || Ascii.eqb c "k"); [reflexivity|].
  destruct (Ascii.eqb c "M" || Ascii.eqb c "m"); [reflexivity|].
  destruct (Ascii.eqb c "G" || Ascii.eqb c "g"); reflexivity.
Qed.

Lemma digits_value_app (a b : string) (acc : Z) :
  digits_value acc (a ++ b) =
  match digits_value acc a with
  | Some n => digits_value n b
  | None => None
  end.
Proof.
  revert acc. induction a as [|c a IH]; intros acc; simpl; [reflexivity|].
  destruct (digit_of c); [apply IH | reflexivity].
Qed.

Lemma multiplies_last (c : ascii) (k : Z) (zeros digits : string) :
  ParseMemorySize (digits ++ String c "") = Some (digits ++ zeros, nil_error) ->
  (forall n, digits_value n zeros = Some (n * 10 ^ k)) ->
  multiplies (String c "") k digits.
Proof.
  intros Hp Hz. exists (digits ++ zeros). split; [exact Hp|].
  rewrite digits_value_app.
  destruct (digits_value 0 digits) as [n|]; simpl; [apply Hz | reflexivity].
Qed.

(** C8: the five values of the specification, and the suffixes as decimal
    multipliers: on a string of digits followed by K/k, M/m or G/g the
    result is a string of digits whose value is the value of the digits
    times 10^3, 10^6 or 10^9. *)
Theorem ParseMemorySize_examples_and_multipliers :
  ParseMemorySize "10K" = Some ("10000", nil_error)
  /\ ParseMemorySize "2M" = Some ("2000000", nil_error)
  /\ ParseMemorySize "3G" = Some ("3000000000", nil_error)
  /\ ParseMemorySize "500" = Some ("500", nil_error)
  /\ ParseMemorySize "" = Some ("", nil_error)
  /\ forall digits : string,
       multiplies "K" 3 digits /\ multiplies "k" 3 digits
       /\ multiplies "M" 6 digits /\ multiplies "m" 6 digits
       /\ multiplies "G" 9 digits /\ multiplies "g" 9 digits.
Proof.
  repeat (split; [reflexivity|]).
  intros digits.
  repeat split;
    (eapply multiplies_last;
     [rewrite ParseMemorySize_last; reflexivity
     | intros n; simpl; f_equal; lia]).
Qed.

(** C9: the parser is total and its error is always nil; whatever stands
    before a suffix is kept as it is, digits or not. *)
Theorem ParseMemorySize_never_fails :
  (forall size : string,
      exists out, ParseMemorySize size = Some (out, nil_error))
  /\ (forall body : string,
        ParseMemorySize (body ++ "K") = Some (body ++ "000", nil_error)
        /\ ParseMemorySize (body ++ "k") = Some (body ++ "000", nil_error)
        /\ ParseMemorySize (body ++ "M") = Some (body ++ "000000", nil_error)
        /\ ParseMemorySize (body ++ "m") = Some (body ++ "000000", nil_error)
        /\ ParseMemorySize (body ++ "G")
           = Some (body ++ "000000000", nil_error)
        /\ ParseMemorySize (body ++ "g")
           = Some (body ++ "000000000", nil_error))
  /\ ParseMemorySize "abcG" = Some ("abc000000000", nil_error).
Proof.
  split; [|split; [|reflexivity]].
  - intros size. destruct (String.eqb_spec size "") as [->|Hne].
    + exists "". reflexivity.
    + destruct (last_byte size Hne) as (body & c & ->).
      rewrite ParseMemorySize_last. eexists. reflexivity.
  - intros body. repeat split; rewrite ParseMemorySize_last; reflexivity.
Qed.

End CgroupsFacts.

(** ** [parseMount] *)

Module MountFacts.
Import GoString Config StringFacts.

Lemma Split_nonempty (s : string) (sep : ascii) : Split s sep <> [].
Proof.
  destruct s as [|c s]; simpl; [discriminate|].
  destruct (Ascii.eqb c sep); [discriminate|].
  destruct (Split s sep); discriminate.
Qed.

(** One more piece than separators. *)
Lemma Split_length (s : string) (sep : ascii) :
  length (Split s sep) = S (Count s sep).
Proof.
  induction s as [|c s IH]; simpl; [reflexivity|].
  destruct (Ascii.eqb c sep); simpl; [now rewrite IH|].
  destruct (Split s sep) as [|p ps] eqn:E; simpl in *; [discriminate|].
  exact IH.
Qed.

Lemma Split_free (s : string) (sep : ascii) :
  free_of sep s = true -> Split s sep = [s].
Proof.
  induction s as [|c s IH]; simpl; intros H; [reflexivity|].
  apply andb_true_iff in H as [Hc Hs].
  apply negb_true_iff in Hc. rewrite Hc, (IH Hs). reflexivity.
Qed.

Lemma Split_cons (a rest : string) (sep : ascii) :
  free_of sep a = true ->
  Split (a ++ String sep rest) sep = a :: Split rest sep.
Proof.
  induction a as [|c a IH]; simpl; intros H.
  - now rewrite Ascii.eqb_refl.
  - apply andb_true_iff in H as [Hc Ha].
    apply negb_true_iff in Hc. rewrite Hc, (IH Ha). reflexivity.
Qed.

Lemma parseMount_parts (s : string) :
  parseMount s =
  match Split s ":" with
  | [p0; p1] => Some (mkMount p0 p1 false, nil_error)
  | [p0; p1; p2] => Some (mkMount p0 p1 (String.eqb p2 "ro"), nil_error)
  | _ => Some (zeroMount,
               Errorf ["mount format should be host_path:container_path[:ro]"])
  end.
Proof.
  unfold parseMount.
  destruct (Split s ":") as [|p0 [|p1 [|p2 [|p3 ps]]]]; try reflexivity.
  - cbv - [String.eqb]. destruct (String.eqb p2 "ro"); reflexivity.
  - replace (llen (p0 :: p1 :: p2 :: p3 :: ps) >? 3) with true.
    + now rewrite orb_true_r.
    + symmetry. unfold llen. simpl length. apply Z.gtb_lt. lia.
Qed.

(** C3 (as the code has it): ["a:b"] is the read-write mount of [a] at
    [b], ["a:b:ro"] the read-only one; a third part other than ["ro"] is
    accepted and ignored; the error is returned exactly for the strings
    with no colon or with more than two, and nothing panics. *)
Theorem parseMount_shapes (a b : string) :
  free_of ":" a = true ->
  free_of ":" b = true ->
  parseMount (a ++ ":" ++ b) = Some (mkMount a b false, nil_error)
  /\ parseMount (a ++ ":" ++ b ++ ":ro") = Some (mkMount a b true, nil_error)
  /\ (forall c : string,
        free_of ":" c = true ->
        parseMount (a ++ ":" ++ b ++ ":" ++ c)
        = Some (mkMount a b (String.eqb c "ro"), nil_error))
  /\ (forall s : string,
        exists mount err,
          parseMount s = Some (mount, err)
          /\ (err = nil_error <->
              (1 <= Count s ":" <= 2)%nat)).
Proof.
  intros Ha Hb.
  assert (H3 : forall c, free_of ":" c = true ->
            parseMount (a ++ ":" ++ b ++ ":" ++ c)
            = Some (mkMount a b (String.eqb c "ro"), nil_error)).
  { intros c Hc. rewrite parseMount_parts.
    change (a ++ ":" ++ b ++ ":" ++ c)
      with (a ++ String ":" (b ++ String ":" c)).
    rewrite (Split_cons a _ ":" Ha), (Split_cons b _ ":" Hb),
      (Split_free c ":" Hc).
    reflexivity. }
  repeat split.
  - rewrite parseMount_parts.
    change (a ++ ":" ++ b) with (a ++ String ":" b).
    rewrite (Split_cons a _ ":" Ha), (Split_free b ":" Hb). reflexivity.
  - apply (H3 "ro"). reflexivity.
  - exact H3.
  - intros s. rewrite parseMount_parts.
    pose proof (Split_length s ":") as HL.
    destruct (Split s ":") as [|p0 [|p1 [|p2 [|p3 ps]]]];
      simpl in HL; eexists; eexists; (split; [reflexivity|]);
      unfold nil_error, Errorf; split; intros H;
      try discriminate; try reflexivity; lia.
Qed.

Lemma parseMount_shapes_witness :
  free_of ":" "/tmp" = true /\ free_of ":" "/x" = true
  /\ parseMount "/tmp:/x:ro" = Some (mkMount "/tmp" "/x" true, nil_error).
Proof.
  split; [reflexivity|]. split; [reflexivity|].
  exact (proj1 (proj2 (parseMount_shapes "/tmp" "/x" eq_refl eq_refl))).
Defined.

(** C3, the claim as stated fails: a three-part string whose third part
    is not ["ro"] is not rejected. *)
Lemma parseMount_third_part_not_checked :
  Split "a:b:rw" ":" = ["a"; "b"; "rw"]
  /\ parseMount "a:b:rw" = Some (mkMount "a" "b" false, nil_error)
  /\ ~ (exists mount msg, parseMount "a:b:rw" = Some (mount, Some msg)).
Proof.
  split; [reflexivity|]. split; [reflexivity|].
  intros (mount & msg & H). discriminate H.
Qed.

End MountFacts.

(** ** Decimal numbers *)

Module StrconvFacts.
Import GoString Strconv StringFacts.

Lemma digits_of_uint (d : Decimal.uint) (acc : nat) :
  digits_value (Z.of_nat acc) (NilEmpty.string_of_uint d)
  = Some (Z.of_nat (Nat.of_uint_acc d acc)).
Proof.
  revert acc.
  induction d as [|d IH|d IH|d IH|d IH|d IH|d IH|d IH|d IH|d IH|d IH];
    intros acc; [reflexivity|..];
    cbn [NilEmpty.string_of_uint digits_value Nat.of_uint_acc];
    change (digit_of "0") with (Some 0); change (digit_of "1") with (Some 1);
    change (digit_of "2") with (Some 2); change (digit_of "3") with (Some 3);
    change (digit_of "4") with (Some 4); change (digit_of "5") with (Some 5);
    change (digit_of "6") with (Some 6); change (digit_of "7") with (Some 7);
    change (digit_of "8") with (Some 8); change (digit_of "9") with (Some 9);
    cbv iota; rewrite <- IH; f_equal;
    rewrite Nat.tail_mul_spec; lia.
Qed.

Lemma digits_value_digits (k : nat) :
  digits_value 0 (digits k) = Some (Z.of_nat k).
Proof.
  unfold digits. change 0 with (Z.of_nat 0).
  rewrite (digits_of_uint (Nat.to_uint k) 0).
  change (Nat.of_uint_acc (Nat.to_uint k) 0) with (Nat.of_uint (Nat.to_uint k)).
  now rewrite DecimalNat.Unsigned.of_to.
Qed.

Lemma Itoa_digits (k : nat) : Itoa (Z.of_nat k) = digits k.
Proof.
  destruct k as [|k]; [reflexivity|].
  unfold Itoa. cbn [Z.of_nat].
  now rewrite SuccNat2Pos.id_succ.
Qed.

Lemma Itoa_value (n : Z) : 0 <= n -> digits_value 0 (Itoa n) = Some n.
Proof.
  intros H. rewrite <- (Z2Nat.id n H) at 1. rewrite Itoa_digits.
  rewrite digits_value_digits. now rewrite Z2Nat.id.
Qed.

Lemma Itoa_inj (a b : Z) : 0 <= a -> 0 <= b -> Itoa a = Itoa b -> a = b.
Proof.
  intros Ha Hb E. apply (f_equal (digits_value 0)) in E.
  rewrite !Itoa_value in E by assumption. congruence.
Qed.

(** The first byte of a printed number is a digit. *)
Lemma Itoa_head (n : Z) :
  0 <= n -> exists c rest d, Itoa n = String c rest /\ digit_of c = Some d.
Proof.
  intros H. pose proof (Itoa_value n H) as V.
  destruct (Itoa n) as [|c rest] eqn:E.
  - exfalso. destruct n as [|p|p]; [discriminate E | | lia].
    unfold Itoa in E.
    pose proof (digits_value_digits (Pos.to_nat p)) as D.
    rewrite E in D. simpl in D. injection D. lia.
  - simpl in V. destruct (digit_of c) as [d|] eqn:Dc; [|discriminate].
    now exists c, rest, d.
Qed.

(** A string of digits has none of the bytes that are not digits. *)
Lemma digits_free (c : ascii) (s : string) (acc n : Z) :
  digit_of c = None -> digits_value acc s = Some n -> free_of c s = true.
Proof.
  intros Hc. revert acc. induction s as [|x s IH]; intros acc V; simpl in *.
  - reflexivity.
  - destruct (digit_of x) as [d|] eqn:Dx; [|discriminate].
    rewrite (IH _ V), andb_true_r. apply negb_true_iff, Ascii.eqb_neq.
    intros ->. congruence.
Qed.

(** Two strings of digits followed by something that does not start with
    a digit: equal wholes have equal parts. *)
Lemma digits_then_inj (d1 d2 r1 r2 : string) (a1 a2 n1 n2 : Z) :
  digits_value a1 d1 = Some n1 ->
  digits_value a2 d2 = Some n2 ->
  (forall c r, r1 = String c r -> digit_of c = None) ->
  (forall c r, r2 = String c r -> digit_of c = None) ->
  d1 ++ r1 = d2 ++ r2 -> d1 = d2 /\ r1 = r2.
Proof.
  revert d2 a1 a2. induction d1 as [|x d1 IH]; intros [|y d2] a1 a2 V1 V2 H1 H2 E;
    simpl in *.
  - now split.
  - exfalso. destruct (digit_of y) eqn:Dy; [|discriminate].
    rewrite (H1 y (d2 ++ r2) E) in Dy. discriminate.
  - exfalso. destruct (digit_of x) eqn:Dx; [|discriminate].
    rewrite (H2 x (d1 ++ r1) (eq_sym E)) in Dx. discriminate.
  - injection E as -> E.
    destruct (digit_of y) as [d|]; [|discriminate].
    destruct (IH d2 _ _ V1 V2 H1 H2 E) as [-> ->]. now split.
Qed.

(** [Atoi] reads back what [Itoa] prints. *)
Lemma Atoi_Itoa (n : Z) :
  0 <= n <= maxInt -> Atoi (Itoa n) = (n, nil_error).
Proof.
  intros [H0 Hmax].
  destruct (Itoa_head n H0) as (c & rest & d & E & Dc).
  pose proof (Itoa_value n H0) as V. rewrite E in V.
  unfold Atoi. rewrite E.
  assert (Ascii.eqb c "-" = false) as ->
    by (apply Ascii.eqb_neq; intros ->; discriminate).
  assert (Ascii.eqb c "+" = false) as ->
    by (apply Ascii.eqb_neq; intros ->; discriminate).
  cbn [orb]. cbv iota. rewrite V.
  replace ((minInt <=? n) && (n <=? maxInt)) with true; [reflexivity|].
  symmetry. apply andb_true_iff. unfold minInt, maxInt in *.
  split; apply Z.leb_le; lia.
Qed.

End StrconvFacts.

(** ** The environment bridge *)

Module EnvFacts.
Import GoString Config EnvBridge Strconv StringFacts StrconvFacts.

Lemma free_of_app (c : ascii) (a b : string) :
  free_of c (a ++ b) = free_of c a && free_of c b.
Proof.
  induction a as [|x a IH]; simpl; [reflexivity|].
  now rewrite IH, andb_assoc.
Qed.

Lemma cut_entry (k v : string) :
  free_of "=" k = true -> cut (k ++ "=" ++ v) "=" = Some (k, v).
Proof.
  induction k as [|c k IH]; simpl; intros H; [reflexivity|].
  apply andb_true_iff in H as [Hc Hk].
  apply negb_true_iff in Hc. rewrite Hc.
  change (k ++ String "=" v) with (k ++ "=" ++ v).
  now rewrite (IH Hk).
Qed.

Lemma Getenv_snoc (env : list string) (entry key : string) :
  Getenv (env ++ [entry]) key =
  match cut entry "=" with
  | Some (k, v) => if String.eqb k key then v else Getenv env key
  | None => Getenv env key
  end.
Proof. unfold Getenv. rewrite fold_left_app. reflexivity. Qed.

Lemma Getenv_snoc_kv (env : list string) (k v key : string) :
  free_of "=" k = true ->
  Getenv (env ++ [k ++ "=" ++ v]) key =
  if String.eqb k key then v else Getenv env key.
Proof. intros H. now rewrite Getenv_snoc, (cut_entry k v H). Qed.

(** A variable no entry sets reads as the empty string. *)
Lemma Getenv_unset (env : list string) (key : string) :
  unset env key -> Getenv env key = "".
Proof.
  unfold unset. induction env as [|entry env IH] using rev_ind; intros H.
  - reflexivity.
  - apply Forall_app in H as [He Hentry].
    rewrite Getenv_snoc. inversion Hentry as [|? ? Hs _]; subst.
    unfold sets in Hs. destruct (cut entry "=") as [[k v]|].
    + rewrite Hs. now apply IH.
    + now apply IH.
Qed.

(** *** The names of the mount variables *)

Lemma field_head (f : string) :
  In f mountFields -> forall c r, f = String c r -> digit_of c = None.
Proof.
  intros Hin c r E. simpl in Hin.
  destruct Hin as [<-|[<-|[<-|[]]]]; injection E as <- _; reflexivity.
Qed.

Lemma mountKey_free (i : Z) (f : string) :
  0 <= i -> In f mountFields -> free_of "=" (mountKey i f) = true.
Proof.
  intros Hi Hin. unfold mountKey.
  rewrite !free_of_app.
  rewrite (digits_free "=" (Itoa i) 0 i eq_refl (Itoa_value i Hi)).
  simpl in Hin. destruct Hin as [<-|[<-|[<-|[]]]]; reflexivity.
Qed.

Lemma mountKey_inj (i j : Z) (f g : string) :
  0 <= i -> 0 <= j -> In f mountFields -> In g mountFields ->
  mountKey i f = mountKey j g -> i = j /\ f = g.
Proof.
  intros Hi Hj Hf Hg E. unfold mountKey in E.
  apply app_inv_head in E.
  destruct (digits_then_inj _ _ _ _ _ _ _ _ (Itoa_value i Hi)
              (Itoa_value j Hj) (field_head f Hf) (field_head g Hg) E)
    as [Ei Ef].
  split; [now apply Itoa_inj | exact Ef].
Qed.

(** A mount variable is none of the six other variables. *)
Lemma mountKey_other (i : Z) (f key : string) :
  0 <= i ->
  In key ["CONTAINER_HOSTNAME"; "CONTAINER_ROOTFS"; "CONTAINER_NETWORK_CIDR";
          "CONTAINER_HOST_IP"; "CONTAINER_CONTAINER_IP";
          "CONTAINER_MOUNT_COUNT"] ->
  String.eqb (mountKey i f) key = false.
Proof.
  intros Hi Hin. simpl in Hin.
  destruct Hin as [<-|[<-|[<-|[<-|[<-|[<-|[]]]]]]]; try reflexivity.
  unfold mountKey.
  destruct (Itoa_head i Hi) as (c & rest & d & -> & Dc).
  simpl. destruct (Ascii.eqb_spec c "C") as [->|Hc]; [discriminate Dc|].
  reflexivity.
Qed.

Lemma mountEnv_keys (i : Z) (m : Mount) :
  mountEnv i m =
  [mountKey i "_SOURCE" ++ "=" ++ Source m;
   mountKey i "_DEST" ++ "=" ++ Destination m;
   mountKey i "_READONLY" ++ "=" ++ (if ReadOnly m then "true" else "false")].
Proof.
  unfold mountEnv, mountKey. now rewrite !app_assoc.
Qed.

(** *** Looking up in what [RunContainer] builds *)

Lemma eqb_mountKey (i j : Z) (f g : string) :
  0 <= i -> 0 <= j -> In f mountFields -> In g mountFields ->
  String.eqb (mountKey i f) (mountKey j g)
  = (i =? j) && String.eqb f g.
Proof.
  intros Hi Hj Hf Hg.
  destruct (String.eqb_spec (mountKey i f) (mountKey j g)) as [E|N].
  - destruct (mountKey_inj i j f g Hi Hj Hf Hg E) as [-> ->].
    now rewrite Z.eqb_refl, String.eqb_refl.
  - symmetry. apply andb_false_iff.
    destruct (Z.eqb_spec i j) as [->|]; [right | now left].
    apply String.eqb_neq. intros ->. now apply N.
Qed.

(** The entries of the mounts from index [i] on do not touch a variable
    that is not one of theirs. *)
Lemma mountsEnv_other (ms : list Mount) (i : Z) (env : list string)
    (key : string) :
  0 <= i ->
  (forall j f, i <= j -> In f mountFields ->
               String.eqb (mountKey j f) key = false) ->
  Getenv (mountsEnv i ms env) key = Getenv env key.
Proof.
  revert i env. induction ms as [|m ms IH]; intros i env Hi Hk; simpl.
  - reflexivity.
  - rewrite IH by (try lia; intros j f Hj; apply Hk; lia).
    rewrite mountEnv_keys.
    change (env ++ [?a; ?b; ?c])%list
      with (env ++ [a] ++ [b] ++ [c])%list.
    rewrite !List.app_assoc.
    rewrite !Getenv_snoc_kv by (apply mountKey_free; simpl; auto).
    rewrite !Hk by (simpl; auto; lia). reflexivity.
Qed.

(** The variables of the mount at position [k] read as that mount. *)
Lemma mountsEnv_lookup (ms : list Mount) (i : Z) (env : list string)
    (k : nat) (m : Mount) :
  0 <= i ->
  nth_error ms k = Some m ->
  let env' := mountsEnv i ms env in
  let idx := i + Z.of_nat k in
  Getenv env' (mountKey idx "_SOURCE") = Source m
  /\ Getenv env' (mountKey idx "_DEST") = Destination m
  /\ Getenv env' (mountKey idx "_READONLY")
     = (if ReadOnly m then "true" else "false").
Proof.
  revert i env k. induction ms as [|m0 ms IH]; intros i env k Hi Hk;
    [destruct k; discriminate|].
  destruct k as [|k]; simpl in Hk.
  - injection Hk as ->. cbv zeta. rewrite Z.add_0_r. simpl mountsEnv.
    assert (Hf : forall f, In f mountFields ->
              Getenv (mountsEnv (i + 1) ms (env ++ mountEnv i m)) (mountKey i f)
              = Getenv (env ++ mountEnv i m) (mountKey i f)).
    { intros f Hf. apply mountsEnv_other; [lia|].
      intros j g Hj Hg. rewrite eqb_mountKey by (auto; lia).
      replace (j =? i) with false; [reflexivity|].
      symmetry. apply Z.eqb_neq. lia. }
    rewrite !Hf by (simpl; auto).
    rewrite mountEnv_keys.
    change (env ++ [?a; ?b; ?c])%list
      with (env ++ [a] ++ [b] ++ [c])%list.
    rewrite !List.app_assoc.
    rewrite !Getenv_snoc_kv by (apply mountKey_free; simpl; auto).
    rewrite !eqb_mountKey by (simpl; auto).
    rewrite Z.eqb_refl. repeat split; reflexivity.
  - cbv zeta. simpl mountsEnv.
    replace (i + Z.of_nat (S k)) with ((i + 1) + Z.of_nat k) by lia.
    apply IH; [lia | exact Hk].
Qed.

(** *** Reading the configuration back *)

Lemma mountLoop_spec (env : list string) (n : nat) (i : Z)
    (acc : list Mount) :
  mountLoop env n i acc =
  (acc ++ map (fun k => mountFromEnv env (i + Z.of_nat k)) (seq 0 n))%list.
Proof.
  revert i acc. induction n as [|n IH]; intros i acc.
  - simpl. now rewrite List.app_nil_r.
  - cbn [mountLoop]. rewrite IH, <- List.app_assoc. f_equal.
    cbn [seq map app]. rewrite Z.add_0_r. f_equal.
    rewrite <- seq_shift, map_map. apply map_ext.
    intros k. f_equal. lia.
Qed.

Lemma mountLoop_nth (env : list string) (n k : nat) :
  (k < n)%nat ->
  nth_error (mountLoop env n 0 []) k = Some (mountFromEnv env (Z.of_nat k)).
Proof.
  intros Hk. rewrite mountLoop_spec. cbn [app].
  rewrite (map_nth_error _ k (seq 0 n) (d := k)); [reflexivity|].
  rewrite nth_error_nth' with (d := O) by (now rewrite length_seq).
  now rewrite seq_nth.
Qed.

Lemma mountLoop_length (env : list string) (n : nat) (i : Z)
    (acc : list Mount) :
  length (mountLoop env n i acc) = (length acc + n)%nat.
Proof.
  rewrite mountLoop_spec, List.length_app, length_map, length_seq.
  reflexivity.
Qed.

Lemma parsePID_positive (s : string) (n : Z) :
  Atoi s = (n, nil_error) -> 0 < n -> Utils.parsePID s = (n, nil_error).
Proof.
  intros HA Hn. unfold Utils.parsePID. rewrite HA. cbv iota beta.
  unfold nil_error.
  replace (n <=? 0) with false; [reflexivity|].
  symmetry. apply Z.leb_gt. exact Hn.
Qed.

Lemma Atoi_nonempty (s : string) (n : Z) :
  Atoi s = (n, nil_error) -> String.eqb s "" = false.
Proof. destruct s; [discriminate | reflexivity]. Qed.

(** C10: [configFromEnv] checks nothing but the mount count.  Without a
    count (unset or empty) it succeeds with no mounts; with a count that
    [Atoi] reads as a positive [n] it succeeds with [n] mounts, the one of
    index [k] read from the three variables of that index: a variable that
    is not set gives the empty string, and only the text [true] makes a
    mount read-only. *)
Theorem configFromEnv_no_validation (env : list string) :
  let count := Getenv env "CONTAINER_MOUNT_COUNT" in
  let read mounts :=
    {| Hostname := Getenv env "CONTAINER_HOSTNAME";
       RootFS := Getenv env "CONTAINER_ROOTFS";
       Mounts := mounts;
       NetworkCIDR := Getenv env "CONTAINER_NETWORK_CIDR";
       HostIP := Getenv env "CONTAINER_HOST_IP";
       ContainerIP := Getenv env "CONTAINER_CONTAINER_IP";
       Command := [] |} in
  (count = "" -> configFromEnv env = (Some (read []), nil_error))
  /\ (forall n : Z,
        Atoi count = (n, nil_error) -> 0 < n ->
        exists mounts,
          configFromEnv env = (Some (read mounts), nil_error)
          /\ llen mounts = n
          /\ forall k : nat,
               Z.of_nat k < n ->
               let var f := Getenv env (mountKey (Z.of_nat k) f) in
               nth_error mounts k
               = Some (mkMount (var "_SOURCE") (var "_DEST")
                         (String.eqb (var "_READONLY") "true"))
               /\ (unset env (mountKey (Z.of_nat k) "_SOURCE") ->
                   unset env (mountKey (Z.of_nat k) "_DEST") ->
                   unset env (mountKey (Z.of_nat k) "_READONLY") ->
                   nth_error mounts k = Some (mkMount "" "" false))
               /\ (var "_READONLY" <> "true" ->
                   option_map ReadOnly (nth_error mounts k) = Some false)).
Proof.
  cbv zeta. split.
  - intros Hc. unfold configFromEnv. rewrite Hc. reflexivity.
  - intros n HA Hn. unfold configFromEnv.
    rewrite (Atoi_nonempty _ _ HA), (parsePID_positive _ _ HA Hn).
    cbn [negb]. cbv iota beta.
    exists (mountLoop env (Z.to_nat n) 0 []). split; [reflexivity|]. split.
    + unfold llen. rewrite mountLoop_length. simpl. lia.
    + intros k Hk.
      assert (Hnth : nth_error (mountLoop env (Z.to_nat n) 0 []) k
                     = Some (mountFromEnv env (Z.of_nat k)))
        by (apply mountLoop_nth; lia).
      rewrite Hnth. split; [reflexivity|]. split.
      * intros Hs Hd Hr. unfold mountFromEnv.
        fold (mountKey (Z.of_nat k) "_SOURCE").
        fold (mountKey (Z.of_nat k) "_DEST").
        fold (mountKey (Z.of_nat k) "_READONLY").
        now rewrite (Getenv_unset _ _ Hs), (Getenv_unset _ _ Hd),
          (Getenv_unset _ _ Hr).
      * intros Hne. simpl. f_equal.
        fold (mountKey (Z.of_nat k) "_READONLY").
        now apply String.eqb_neq.
Qed.

Lemma configFromEnv_no_validation_witness :
  let env := ["HOME=/root"; "CONTAINER_MOUNT_COUNT=+2";
              "CONTAINER_MOUNT_1_SOURCE=/data";
              "CONTAINER_MOUNT_1_READONLY=TRUE"] in
  Atoi (Getenv env "CONTAINER_MOUNT_COUNT") = (2, nil_error) /\ 0 < 2
  /\ exists mounts,
       configFromEnv env
       = (Some {| Hostname := ""; RootFS := ""; Mounts := mounts;
                  NetworkCIDR := ""; HostIP := ""; ContainerIP := "";
                  Command := [] |}, nil_error)
       /\ llen mounts = 2
       /\ nth_error mounts 0 = Some (mkMount "" "" false)
       /\ nth_error mounts 1 = Some (mkMount "/data" "" false).
Proof.
  intros env. split; [reflexivity|]. split; [lia|].
  destruct (proj2 (configFromEnv_no_validation env) 2 eq_refl eq_refl)
    as (mounts & Hc & Hl & Hk).
  exists mounts. split; [exact Hc|]. split; [exact Hl|]. split.
  - exact (proj1 (Hk O eq_refl)).
  - exact (proj1 (Hk 1%nat eq_refl)).
Defined.

(** *** The round trip *)

Lemma snoc5 (env : list string) (a b c d e : string) :
  (env ++ [a; b; c; d; e] = ((((env ++ [a]) ++ [b]) ++ [c]) ++ [d]) ++ [e])%list.
Proof. now rewrite <- !List.app_assoc. Qed.

Lemma containerEnv_count (environ : list string) (config : ContainerConfig) :
  Getenv (containerEnv environ config) "CONTAINER_MOUNT_COUNT"
  = Itoa (llen (Mounts config)).
Proof. unfold containerEnv. rewrite Getenv_snoc. reflexivity. Qed.

Lemma containerEnv_fixed (environ : list string) (config : ContainerConfig) :
  let env := containerEnv environ config in
  Getenv env "CONTAINER_HOSTNAME" = Hostname config
  /\ Getenv env "CONTAINER_ROOTFS" = RootFS config
  /\ Getenv env "CONTAINER_NETWORK_CIDR" = NetworkCIDR config
  /\ Getenv env "CONTAINER_HOST_IP" = HostIP config
  /\ Getenv env "CONTAINER_CONTAINER_IP" = ContainerIP config.
Proof.
  cbv zeta. unfold containerEnv.
  repeat split;
    (rewrite Getenv_snoc; cbn [cut Ascii.eqb Bool.eqb String.eqb];
     rewrite mountsEnv_other
       by first [lia | intros j f Hj _; apply mountKey_other;
                       [exact Hj | simpl; tauto]];
     rewrite snoc5, !Getenv_snoc; reflexivity).
Qed.

Lemma containerEnv_mount (environ : list string) (config : ContainerConfig)
    (k : nat) (m : Mount) :
  nth_error (Mounts config) k = Some m ->
  mountFromEnv (containerEnv environ config) (Z.of_nat k) = m.
Proof.
  intros Hk. unfold mountFromEnv, containerEnv.
  fold (mountKey (Z.of_nat k) "_SOURCE").
  fold (mountKey (Z.of_nat k) "_DEST").
  fold (mountKey (Z.of_nat k) "_READONLY").
  change ("CONTAINER_MOUNT_COUNT=" ++ Itoa (llen (Mounts config)))
    with ("CONTAINER_MOUNT_COUNT" ++ "=" ++ Itoa (llen (Mounts config))).
  rewrite !Getenv_snoc_kv by reflexivity.
  rewrite !(String.eqb_sym "CONTAINER_MOUNT_COUNT").
  rewrite !mountKey_other by first [lia | simpl; tauto].
  match goal with
  | |- context [mountsEnv 0 _ ?e] =>
      destruct (mountsEnv_lookup (Mounts config) 0 e k m (Z.le_refl 0) Hk)
        as (Hs & Hd & Hr)
  end.
  cbv zeta in Hs, Hd, Hr. rewrite Z.add_0_l in Hs, Hd, Hr.
  rewrite Hs, Hd, Hr.
  destruct m as [src dst ro]. simpl. destruct ro; reflexivity.
Qed.

Lemma containerEnv_mounts (environ : list string)
    (config : ContainerConfig) :
  mountLoop (containerEnv environ config) (length (Mounts config)) 0 []
  = Mounts config.
Proof.
  apply nth_error_ext. intros k.
  destruct (Nat.lt_ge_cases k (length (Mounts config))) as [Hlt|Hge].
  - rewrite mountLoop_nth by exact Hlt.
    destruct (nth_error (Mounts config) k) as [m|] eqn:E.
    + now rewrite (containerEnv_mount environ config k m E).
    + apply nth_error_None in E. lia.
  - rewrite (proj2 (nth_error_None (Mounts config) k)) by exact Hge.
    apply nth_error_None. rewrite mountLoop_length. simpl. exact Hge.
Qed.

(** C1 (as the code has it): for a configuration with at least one mount,
    what [configFromEnv] reads from the environment [RunContainer] builds
    is the configuration again, the mounts in their order, whatever the
    environment of the parent was; the command is not in the environment
    and is empty in the result. *)
Theorem env_round_trip (environ : list string) (config : ContainerConfig) :
  Mounts config <> [] ->
  llen (Mounts config) <= maxInt ->
  configFromEnv (containerEnv environ config)
  = (Some {| Hostname := Hostname config;
             RootFS := RootFS config;
             Mounts := Mounts config;
             NetworkCIDR := NetworkCIDR config;
             HostIP := HostIP config;
             ContainerIP := ContainerIP config;
             Command := [] |},
     nil_error).
Proof.
  intros Hne Hmax.
  assert (Hpos : 0 < llen (Mounts config)).
  { unfold llen. destruct (Mounts config); [congruence | simpl; lia]. }
  unfold configFromEnv.
  rewrite containerEnv_count.
  rewrite (Atoi_nonempty _ _ (Atoi_Itoa _ (conj (Z.lt_le_incl _ _ Hpos) Hmax))).
  rewrite (parsePID_positive _ _
             (Atoi_Itoa _ (conj (Z.lt_le_incl _ _ Hpos) Hmax)) Hpos).
  cbn [negb]. cbv iota beta.
  destruct (containerEnv_fixed environ config) as (H1 & H2 & H3 & H4 & H5).
  cbv zeta in H1, H2, H3, H4, H5.
  cbn [Hostname RootFS Mounts NetworkCIDR HostIP ContainerIP Command].
  rewrite H1, H2, H3, H4, H5.
  unfold llen. rewrite Nat2Z.id, containerEnv_mounts. reflexivity.
Qed.

Lemma env_round_trip_witness :
  let config :=
    {| Hostname := "box"; RootFS := "./namespace_fs";
       Mounts := [mkMount "/srv=data" "/app" false;
                  mkMount "/etc/hostname" "/x" true];
       NetworkCIDR := "10.0.0.0/24"; HostIP := "10.0.0.1";
       ContainerIP := "10.0.0.2"; Command := ["/bin/sh"] |} in
  let environ := ["CONTAINER_HOSTNAME=old"; "CONTAINER_MOUNT_COUNT=7";
                  "CONTAINER_MOUNT_1_READONLY=false"] in
  Mounts config <> [] /\ llen (Mounts config) <= maxInt
  /\ option_map Mounts (fst (configFromEnv (containerEnv environ config)))
     = Some (Mounts config).
Proof.
  intros config environ.
  assert (Hne : Mounts config <> []) by discriminate.
  assert (Hmax : llen (Mounts config) <= maxInt) by (vm_compute; discriminate).
  split; [exact Hne|]. split; [exact Hmax|].
  now rewrite (env_round_trip environ config Hne Hmax).
Defined.

(** With no mount the count is written as [0], which the child rejects. *)
Lemma zero_mounts_rejected (environ : list string)
    (config : ContainerConfig) :
  Mounts config = [] ->
  configFromEnv (containerEnv environ config)
  = (None, Errorf ["invalid mount count: "; "PID must be positive: 0"]).
Proof.
  intros H0. unfold configFromEnv. rewrite containerEnv_count, H0.
  reflexivity.
Qed.

(** C1, the claim as stated fails: the command of the configuration does
    not come back, and a configuration without mounts is not read back at
    all. *)
Lemma env_round_trip_fails :
  let one :=
    {| Hostname := "container"; RootFS := "./namespace_fs";
       Mounts := [mkMount "/work" "/app" false];
       NetworkCIDR := "192.168.1.0/24"; HostIP := "192.168.1.1";
       ContainerIP := "192.168.1.2"; Command := ["/bin/sh"] |} in
  let none :=
    {| Hostname := "container"; RootFS := "./namespace_fs";
       Mounts := [];
       NetworkCIDR := "192.168.1.0/24"; HostIP := "192.168.1.1";
       ContainerIP := "192.168.1.2"; Command := [] |} in
  configFromEnv (containerEnv [] one) <> (Some one, nil_error)
  /\ option_map Command (fst (configFromEnv (containerEnv [] one)))
     = Some []
  /\ configFromEnv (containerEnv [] none) <> (Some none, nil_error)
  /\ configFromEnv (containerEnv [] none)
     = (None, Some "invalid mount count: PID must be positive: 0").
Proof.
  cbv zeta. repeat split; try (vm_compute; discriminate); reflexivity.
Qed.

End EnvFacts.

(** ** The flags of [run] *)

Module FlagFacts.
Import GoString Config Flag Cli StringFacts.

Lemma HasPrefix_split (p s : string) :
  HasPrefix s p = true -> exists x, s = p ++ x.
Proof.
  revert s. induction p as [|c p IH]; intros s H.
  - exists s. reflexivity.
  - destruct s as [|d s]; [discriminate|]. simpl in H.
    apply andb_true_iff in H as [Hc Hs].
    apply Ascii.eqb_eq in Hc as ->.
    destruct (IH s Hs) as (x & ->). now exists x.
Qed.

Lemma substring_whole (x : string) (m : nat) :
  (String.length x <= m)%nat -> String.substring 0 m x = x.
Proof.
  revert m. induction x as [|c x IH]; intros m H.
  - now destruct m.
  - destruct m as [|m]; simpl in *; [lia|]. rewrite IH by lia. reflexivity.
Qed.

Lemma substring_skip (p x : string) (m : nat) :
  (String.length x <= m)%nat ->
  String.substring (String.length p) m (p ++ x) = x.
Proof.
  induction p as [|c p IH]; intros H; simpl.
  - now apply substring_whole.
  - now apply IH.
Qed.

Lemma cut_spec (s k v : string) :
  cut s "=" = Some (k, v) -> s = k ++ "=" ++ v /\ free_of "=" k = true.
Proof.
  revert k. induction s as [|c s IH]; intros k H; simpl in H; [discriminate|].
  destruct (Ascii.eqb_spec c "=") as [->|Hc].
  - injection H as <- <-. now split.
  - destruct (cut s "=") as [[k' v']|]; [|discriminate].
    injection H as <- <-. destruct (IH k' eq_refl) as [-> Hk].
    split; [reflexivity|]. simpl. rewrite Hk, andb_true_r.
    apply negb_true_iff. now apply Ascii.eqb_neq.
Qed.

Lemma cut_kv (k v : string) :
  free_of "=" k = true -> cut (k ++ "=" ++ v) "=" = Some (k, v).
Proof.
  induction k as [|c k IH]; simpl; intros H; [reflexivity|].
  apply andb_true_iff in H as [Hc Hk].
  apply negb_true_iff in Hc. rewrite Hc.
  change (k ++ String "=" v) with (k ++ "=" ++ v).
  now rewrite (IH Hk).
Qed.

(** The flags that are defined. *)
Lemma formal_names (name : string) (set : string -> Values -> Values) :
  formal name = Some set ->
  In name ["hostname"; "rootfs"; "network"; "host-ip"; "container-ip"; "mount"].
Proof.
  unfold formal. intros H.
  repeat match type of H with
         | (if String.eqb ?a ?b then _ else _) = _ =>
             destruct (String.eqb_spec a b) as [->|_]; [simpl; tauto|]
         end.
  discriminate.
Qed.

Lemma len_cons (c : ascii) (s : string) : len (String c s) = len s + 1.
Proof. unfold len. simpl String.length. lia. Qed.

Lemma len_nonneg (s : string) : 0 <= len s.
Proof. unfold len. lia. Qed.

Ltac len_lia :=
  cbn [append]; rewrite ?len_cons;
  match goal with
  | |- context [len ?x] => pose proof (len_nonneg x); lia
  end.

(** [parseOne] on a flag written as one token. *)
Lemma parseOne_flag (dashes name value : string)
    (set : string -> Values -> Values) (v : Values) (rest : list string) :
  dashes = "-" \/ dashes = "--" ->
  formal name = Some set ->
  free_of "=" name = true ->
  parseOne v ((dashes ++ name ++ "=" ++ value) :: rest)
  = Seen (set value v) rest.
Proof.
  intros Hd Hf Hfree.
  assert (Hname : exists c n, name = String c n
                              /\ Ascii.eqb c "-" = false
                              /\ Ascii.eqb c "=" = false).
  { pose proof (formal_names name set Hf) as Hin. simpl in Hin.
    destruct Hin as [<-|[<-|[<-|[<-|[<-|[<-|[]]]]]]];
      eexists; eexists; (split; [reflexivity|]); split; reflexivity. }
  destruct Hname as (c & n & -> & Hc1 & Hc2).
  simpl in Hfree. apply andb_true_iff in Hfree as [_ Hn].
  unfold parseOne.
  set (body := String c n ++ "=" ++ value).
  assert (Hsub : String.substring (if HasPrefix (dashes ++ body) "--"
                                   then 2 else 1)
                   (String.length (dashes ++ body)) (dashes ++ body) = body
                 /\ (len (dashes ++ body) <? 2) = false
                 /\ HasPrefix (dashes ++ body) "-" = true
                 /\ (HasPrefix (dashes ++ body) "--"
                     && (len (dashes ++ body) =? 2)) = false).
  { destruct Hd as [-> | ->].
    - assert (HasPrefix ("-" ++ body) "--" = false) as ->
        by (unfold body; simpl; now rewrite Hc1).
      split; [|split; [|split]]; try reflexivity.
      + apply (substring_skip "-" body). rewrite length_app. simpl. lia.
      + unfold body. apply Z.ltb_ge. len_lia.
    - assert (HasPrefix ("--" ++ body) "--" = true) as -> by reflexivity.
      split; [|split; [|split]]; try reflexivity.
      + apply (substring_skip "--" body). rewrite length_app. simpl. lia.
      + unfold body. apply Z.ltb_ge. len_lia.
      + cbn [andb]. unfold body. apply Z.eqb_neq. len_lia. }
  destruct Hsub as (-> & -> & -> & ->). cbn [orb negb].
  assert (Hb : (len body =? 0) || HasPrefix body "-" || HasPrefix body "="
               = false).
  { unfold body. cbn [append HasPrefix]. rewrite Hc1, Hc2, len_cons.
    cbn [andb orb]. rewrite !orb_false_r. apply Z.eqb_neq. len_lia. }
  rewrite Hb. unfold body, nameValue. cbn [append].
  change (n ++ String "=" value) with (n ++ "=" ++ value).
  rewrite (cut_kv n value Hn), Hf. reflexivity.
Qed.

Lemma asFlag_split (tok name value : string) :
  asFlag tok = Some (name, value) ->
  exists dashes set,
    (dashes = "-" \/ dashes = "--")
    /\ tok = dashes ++ name ++ "=" ++ value
    /\ formal name = Some set
    /\ free_of "=" name = true.
Proof.
  unfold asFlag. intros H.
  assert (Hbody : exists dashes body,
            (dashes = "-" \/ dashes = "--") /\ tok = dashes ++ body
            /\ match cut body "=" with
               | Some (name0, value0) =>
                   match formal name0 with
                   | Some _ => Some (name0, value0)
                   | None => None
                   end
               | None => None
               end = Some (name, value)).
  { destruct (HasPrefix tok "--") eqn:H2.
    - destruct (HasPrefix_split "--" tok H2) as (x & ->).
      exists "--", x. split; [now right|]. split; [reflexivity|].
      rewrite (substring_skip "--" x) in H
        by (rewrite length_app; simpl; lia).
      exact H.
    - destruct (HasPrefix tok "-") eqn:H1; [|discriminate].
      destruct (HasPrefix_split "-" tok H1) as (x & ->).
      exists "-", x. split; [now left|]. split; [reflexivity|].
      rewrite (substring_skip "-" x) in H
        by (rewrite length_app; simpl; lia).
      exact H. }
  destruct Hbody as (dashes & body & Hd & -> & Hc).
  destruct (cut body "=") as [[name0 value0]|] eqn:Ecut; [|discriminate].
  destruct (formal name0) as [set|] eqn:Ef; [|discriminate].
  injection Hc as -> ->.
  destruct (cut_spec body name value Ecut) as [-> Hfree].
  now exists dashes, set.
Qed.

(** What setting a flag does to the collected mount flags. *)
Lemma formal_mountFlags (name x : string) (set : string -> Values -> Values)
    (v : Values) :
  formal name = Some set ->
  mountFlags (set x v)
  = if String.eqb name "mount" then (mountFlags v ++ [x])%list
    else mountFlags v.
Proof.
  unfold formal. intros H.
  repeat match type of H with
         | (if String.eqb ?a ?b then _ else _) = _ =>
             destruct (String.eqb_spec a b) as [->|_];
             [injection H as <-; reflexivity|]
         end.
  discriminate.
Qed.

Lemma parseOne_wellFormed (tok : string) (v : Values) (rest : list string) :
  wellFormedFlag tok = true ->
  Forall (fun x => exists m, parseMount x = Some (m, nil_error)) (mountFlags v) ->
  exists v',
    parseOne v (tok :: rest) = Seen v' rest
    /\ Forall (fun x => exists m, parseMount x = Some (m, nil_error))
         (mountFlags v').
Proof.
  unfold wellFormedFlag. intros Hwf Hv.
  destruct (asFlag tok) as [[name value]|] eqn:Ea; [|discriminate].
  destruct (asFlag_split tok name value Ea)
    as (dashes & set & Hd & -> & Hf & Hfree).
  exists (set value v). split; [now apply parseOne_flag|].
  rewrite (formal_mountFlags name value set v Hf).
  destruct (String.eqb name "mount"); [|exact Hv].
  apply Forall_app. split; [exact Hv|]. constructor; [|constructor].
  destruct (parseMount value) as [[m [e|]]|]; try discriminate.
  now exists m.
Qed.

Lemma parseLoop_wellFormed (pre : list string) (v : Values) (fuel : nat) :
  (length pre < fuel)%nat ->
  Forall (fun t => wellFormedFlag t = true) pre ->
  Forall (fun x => exists m, parseMount x = Some (m, nil_error)) (mountFlags v) ->
  exists v',
    parseLoop fuel ExitOnError v pre = Ok (v', nil_error)
    /\ Forall (fun x => exists m, parseMount x = Some (m, nil_error))
         (mountFlags v').
Proof.
  revert v fuel. induction pre as [|tok pre IH]; intros v fuel Hfuel Hwf Hv.
  - destruct fuel as [|fuel]; [simpl in Hfuel; lia|].
    exists v. split; [reflexivity | exact Hv].
  - destruct fuel as [|fuel]; [simpl in Hfuel; lia|].
    inversion Hwf as [|? ? Htok Hpre]; subst.
    destruct (parseOne_wellFormed tok v pre Htok Hv) as (v1 & H1 & Hv1).
    cbn [parseLoop]. rewrite H1.
    apply IH; [simpl in Hfuel; lia | exact Hpre | exact Hv1].
Qed.

(** One step of [parseOne] never hands back more arguments than it got. *)
Lemma parseOne_shorter (v v' : Values) (args rest : list string) :
  parseOne v args = Seen v' rest -> (length rest < length args)%nat.
Proof.
  unfold parseOne. destruct args as [|s args]; [discriminate|].
  destruct ((len s <? 2) || negb (HasPrefix s "-")); [discriminate|].
  destruct (HasPrefix s "--" && (len s =? 2)); [discriminate|].
  match goal with
  | |- context [if ?c then Fail _ _ else _] => destruct c; [discriminate|]
  end.
  destruct (nameValue _) as [name value].
  destruct (formal name) as [set|].
  - destruct value as [x|].
    + intros H. injection H as _ <-. simpl. lia.
    + destruct args as [|x args]; [discriminate|].
      intros H. injection H as _ <-. simpl. lia.
  - destruct (String.eqb name "help" || String.eqb name "h"); discriminate.
Qed.

(** The loop of [Parse] ends within its bound. *)
Lemma parseLoop_fuel (fuel : nat) (h : ErrorHandling) (v : Values)
    (args : list string) :
  (length args < fuel)%nat -> parseLoop fuel h v args <> OutOfFuel.
Proof.
  revert v args. induction fuel as [|fuel IH]; intros v args Hf; [lia|].
  cbn [parseLoop]. destruct (parseOne v args) as [v' rest|rest|help msg] eqn:E.
  - apply IH. apply parseOne_shorter in E. lia.
  - discriminate.
  - destruct h; [discriminate | destruct help; discriminate | discriminate].
Qed.

Lemma parseMountFlags_ok (flags : list string) (acc : list Mount) :
  Forall (fun x => exists m, parseMount x = Some (m, nil_error)) flags ->
  exists mounts, parseMountFlags flags acc = Ok (mounts, nil_error).
Proof.
  revert acc. induction flags as [|x flags IH]; intros acc H.
  - now exists acc.
  - inversion H as [|? ? (m & Hm) Hrest]; subst.
    cbn [parseMountFlags]. rewrite Hm. cbn. now apply IH.
Qed.

Lemma parseMountFlags_no_fuel (flags : list string) (acc : list Mount) :
  parseMountFlags flags acc <> OutOfFuel.
Proof.
  revert acc. induction flags as [|x flags IH]; intros acc; [discriminate|].
  cbn [parseMountFlags].
  destruct (parseMount x) as [[m [e|]]|]; cbn; try discriminate. apply IH.
Qed.

Lemma findCommandStart_spec (pre : list string) (tok : string)
    (rest : list string) (i : nat) :
  Forall (fun t => HasPrefix t "-" = true) pre ->
  HasPrefix tok "-" = false ->
  findCommandStart i (pre ++ tok :: rest) = (i + length pre)%nat.
Proof.
  intros Hpre Htok. revert i.
  induction Hpre as [|t pre Ht _ IH]; intros i;
    cbn [findCommandStart app].
  - rewrite Htok. simpl. lia.
  - rewrite Ht. cbn [negb]. rewrite IH. simpl. lia.
Qed.

Lemma firstn_pre {A} (pre rest : list A) :
  firstn (length pre) (pre ++ rest) = pre.
Proof. induction pre as [|x pre IH]; simpl; [now destruct rest | now rewrite IH]. Qed.

Lemma skipn_pre {A} (pre rest : list A) :
  skipn (length pre) (pre ++ rest) = rest.
Proof. induction pre as [|x pre IH]; simpl; [reflexivity | exact IH]. Qed.

Lemma wellFormed_dash (tok : string) :
  wellFormedFlag tok = true -> HasPrefix tok "-" = true.
Proof.
  unfold wellFormedFlag. destruct (asFlag tok) as [[name value]|] eqn:E;
    [|discriminate].
  intros _. destruct (asFlag_split tok name value E)
    as (dashes & set & [-> | ->] & -> & _); reflexivity.
Qed.

(** [ParseFlags] once the first token without a leading [-] is known. *)
Lemma ParseFlags_unfold (getwd : string * error) (pre : list string)
    (tok : string) (rest : list string) :
  Forall (fun t => HasPrefix t "-" = true) pre ->
  HasPrefix tok "-" = false ->
  let flags0 := mkValues "container" "./namespace_fs" "192.168.1.0/24"
                  "192.168.1.1" "192.168.1.2" [] in
  ParseFlags getwd (pre ++ tok :: rest) =
  parsed <-! (match pre with
              | [] => Ok (flags0, nil_error)
              | _ :: _ => Parse ExitOnError flags0 pre
              end) ;;
  match snd parsed with
  | Some msg => Ok (None, Errorf ["failed to parse flags: "; msg])
  | None =>
      r <-! parseMountFlags (mountFlags (fst parsed)) [] ;;
      match snd r with
      | Some msg => Ok (None, Some msg)
      | None =>
          Ok (Some {| Hostname := hostname (fst parsed);
                      RootFS := rootfs (fst parsed);
                      Mounts :=
                        (if llen (fst r) =? 0 then
                           match snd getwd with
                           | None =>
                               (fst r ++ [mkMount (fst getwd) "/app" false])%list
                           | Some _ => fst r
                           end
                         else fst r);
                      NetworkCIDR := networkCIDR (fst parsed);
                      HostIP := hostIP (fst parsed);
                      ContainerIP := containerIP (fst parsed);
                      Command := tok :: rest |},
              nil_error)
      end
  end.
Proof.
  intros Hpre Htok flags0. unfold ParseFlags.
  rewrite (findCommandStart_spec pre tok rest 0 Hpre Htok).
  cbn [Nat.add].
  change (mkValues (Hostname NewDefaultConfig) (RootFS NewDefaultConfig)
            (NetworkCIDR NewDefaultConfig) (HostIP NewDefaultConfig)
            (ContainerIP NewDefaultConfig) []) with flags0.
  change (Mounts NewDefaultConfig) with (@nil Mount).
  destruct pre as [|p pre].
  - cbn [length Nat.eqb app bindr snd fst].
    destruct (parseMountFlags _ _) as [[ms [e|]]| | |]; reflexivity.
  - replace (Nat.eqb (length (p :: pre)) 0) with false by reflexivity.
    rewrite firstn_pre, skipn_pre.
    destruct (Parse ExitOnError flags0 (p :: pre)) as [[v [e|]]| | |];
      cbn [bindr snd fst]; reflexivity.
Qed.

(** C2 (as the code has it): when the arguments have a first token without
    a leading [-], the command of a successful parse is the arguments from
    that token on; parsing succeeds when every token before it is a
    well-formed flag; and the loop of the flag package ends. *)
Theorem ParseFlags_command (getwd : string * error) (pre : list string)
    (tok : string) (rest : list string) :
  Forall (fun t => HasPrefix t "-" = true) pre ->
  HasPrefix tok "-" = false ->
  (forall config,
      ParseFlags getwd (pre ++ tok :: rest) = Ok (Some config, nil_error) ->
      Command config = tok :: rest)
  /\ (Forall (fun t => wellFormedFlag t = true) pre ->
      exists config,
        ParseFlags getwd (pre ++ tok :: rest) = Ok (Some config, nil_error)
        /\ Command config = tok :: rest)
  /\ ParseFlags getwd (pre ++ tok :: rest) <> OutOfFuel.
Proof.
  intros Hpre Htok.
  rewrite (ParseFlags_unfold getwd pre tok rest Hpre Htok). cbv zeta.
  split; [|split].
  - intros config.
    destruct (match pre with [] => _ | _ :: _ => _ end)
      as [[v [e|]]| | |]; cbn [bindr snd fst]; try discriminate.
    destruct (parseMountFlags _ _) as [[ms [e|]]| | |];
      cbn [bindr snd fst]; try discriminate.
    intros H. injection H as <-. reflexivity.
  - intros Hwf.
    assert (HP : exists v,
               match pre with
               | [] => Ok (mkValues "container" "./namespace_fs"
                             "192.168.1.0/24" "192.168.1.1" "192.168.1.2" [],
                           nil_error)
               | _ :: _ => Parse ExitOnError
                             (mkValues "container" "./namespace_fs"
                                "192.168.1.0/24" "192.168.1.1" "192.168.1.2" [])
                             pre
               end = Ok (v, nil_error)
               /\ Forall (fun x => exists m, parseMount x = Some (m, nil_error))
                    (mountFlags v)).
    { destruct pre as [|p pre].
      - eexists. split; [reflexivity|]. constructor.
      - apply parseLoop_wellFormed; [lia | exact Hwf | constructor]. }
    destruct HP as (v & -> & Hv). cbn [bindr snd fst].
    destruct (parseMountFlags_ok (mountFlags v) [] Hv) as (ms & ->).
    cbn [bindr snd fst]. eexists. split; reflexivity.
  - destruct pre as [|p pre]; cbn [bindr snd fst].
    + discriminate.
    + pose proof (parseLoop_fuel (S (length (p :: pre))) ExitOnError
                    (mkValues "container" "./namespace_fs" "192.168.1.0/24"
                       "192.168.1.1" "192.168.1.2" [])
                    (p :: pre) (Nat.lt_succ_diag_r _)) as HF.
      fold (Parse ExitOnError
              (mkValues "container" "./namespace_fs" "192.168.1.0/24"
                 "192.168.1.1" "192.168.1.2" []) (p :: pre)) in HF.
      destruct (Parse _ _ _) as [[v [e|]]| | |]; cbn [bindr snd fst];
        try discriminate; try congruence.
      pose proof (parseMountFlags_no_fuel (mountFlags v) []) as HM.
      destruct (parseMountFlags _ _) as [[ms [e|]]| | |];
        cbn [bindr snd fst]; try discriminate; congruence.
Qed.

Lemma ParseFlags_command_witness :
  let pre := ["--hostname=myhost"; "-mount=/etc/hostname:/x:ro"] in
  Forall (fun t => HasPrefix t "-" = true) pre
  /\ HasPrefix "/bin/sh" "-" = false
  /\ Forall (fun t => wellFormedFlag t = true) pre
  /\ exists config,
       ParseFlags ("/work", nil_error) (pre ++ ["/bin/sh"; "-c"; "hostname"])
       = Ok (Some config, nil_error)
       /\ Command config = ["/bin/sh"; "-c"; "hostname"].
Proof.
  intros pre.
  assert (H1 : Forall (fun t => HasPrefix t "-" = true) pre)
    by (repeat constructor).
  assert (H2 : HasPrefix "/bin/sh" "-" = false) by reflexivity.
  assert (H3 : Forall (fun t => wellFormedFlag t = true) pre)
    by (repeat constructor).
  split; [exact H1|]. split; [exact H2|]. split; [exact H3|].
  exact (proj1 (proj2 (ParseFlags_command ("/work", nil_error) pre "/bin/sh"
                         ["-c"; "hostname"] H1 H2)) H3).
Defined.

(** C2, the claim as stated fails.  With no token without a leading [-]
    the arguments themselves become the command and the parse succeeds,
    the flag unread; and tokens after [--] are never looked at, although
    the same token is refused when it comes first. *)
Lemma ParseFlags_not_iff :
  (exists config,
      ParseFlags ("/work", nil_error) ["--hostname=x"]
      = Ok (Some config, nil_error)
      /\ Command config = ["--hostname=x"]
      /\ Hostname config = "container")
  /\ (exists config,
        ParseFlags ("/work", nil_error) ["--"; "--bogus"; "sh"]
        = Ok (Some config, nil_error)
        /\ Command config = ["sh"])
  /\ wellFormedFlag "--bogus" = false
  /\ ParseFlags ("/work", nil_error) ["--bogus"; "sh"] = Exit 2.
Proof.
  split; [|split; [|split]].
  - eexists. split; [vm_compute; reflexivity|]. split; reflexivity.
  - eexists. split; [vm_compute; reflexivity|]. reflexivity.
  - reflexivity.
  - reflexivity.
Qed.

(** How [Parse] ends when it exits on errors. *)
Lemma parseLoop_ends (fuel : nat) (v : Values) (args : list string) :
  parseLoop fuel ExitOnError v args = OutOfFuel
  \/ (exists v', parseLoop fuel ExitOnError v args = Ok (v', nil_error))
  \/ parseLoop fuel ExitOnError v args = Exit 0
  \/ parseLoop fuel ExitOnError v args = Exit 2.
Proof.
  revert v args. induction fuel as [|fuel IH]; intros v args; [now left|].
  cbn [parseLoop]. destruct (parseOne v args) as [v' rest|rest|help msg].
  - apply IH.
  - right. left. now exists v.
  - destruct help; tauto.
Qed.

Lemma parseMountFlags_ends (flags : list string) (acc : list Mount) :
  exists x, parseMountFlags flags acc = Ok x.
Proof.
  revert acc. induction flags as [|f flags IH]; intros acc.
  - now eexists.
  - cbn [parseMountFlags]. rewrite MountFacts.parseMount_parts.
    destruct (Split f ":") as [|p0 [|p1 [|p2 [|p3 ps]]]]; cbn;
      try (eexists; reflexivity); apply IH.
Qed.

(** [ParseFlags] returns, or the flag package makes the process exit with
    status 0 (help) or 2. *)
Lemma ParseFlags_ends (getwd : string * error) (args : list string) :
  (exists x, ParseFlags getwd args = Ok x)
  \/ ParseFlags getwd args = Exit 0
  \/ ParseFlags getwd args = Exit 2.
Proof.
  unfold ParseFlags.
  assert (HP : forall v a,
             (exists v', Parse ExitOnError v a = Ok (v', nil_error))
             \/ Parse ExitOnError v a = Exit 0
             \/ Parse ExitOnError v a = Exit 2).
  { intros v a. unfold Parse.
    destruct (parseLoop_ends (S (length a)) v a) as [H|H]; [|exact H].
    exfalso. revert H. apply parseLoop_fuel. lia. }
  assert (HM : forall v command,
             exists x,
               (let '(flags, err, command) := (v, nil_error, command) in
                match err with
                | Some msg => Ok (None, Errorf ["failed to parse flags: "; msg])
                | None =>
                    r <-! parseMountFlags (mountFlags flags)
                            (Mounts NewDefaultConfig) ;;
                    match snd r with
                    | Some msg => Ok (None, Some msg)
                    | None =>
                        if llen command =? 0 then
                          Ok (None, Errorf ["no command specified"])
                        else
                          Ok (Some {| Hostname := hostname flags;
                                      RootFS := rootfs flags;
                                      Mounts :=
                                        (if llen (fst r) =? 0 then
                                           match snd getwd with
                                           | None =>
                                               (fst r ++
                                                [mkMount (fst getwd) "/app"
                                                   false])%list
                                           | Some _ => fst r
                                           end
                                         else fst r);
                                      NetworkCIDR := networkCIDR flags;
                                      HostIP := hostIP flags;
                                      ContainerIP := containerIP flags;
                                      Command := command |},
                              nil_error)
                    end
                end) = Ok x).
  { intros v command. cbv iota beta.
    destruct (parseMountFlags_ends (mountFlags v) (Mounts NewDefaultConfig))
      as (x & ->). cbn [bindr].
    destruct (snd x); [now eexists|].
    destruct (llen command =? 0); now eexists. }
  destruct (Nat.eqb (findCommandStart 0 args) 0).
  - left. cbn [bindr]. apply HM.
  - destruct (HP (mkValues (Hostname NewDefaultConfig) (RootFS NewDefaultConfig)
                    (NetworkCIDR NewDefaultConfig) (HostIP NewDefaultConfig)
                    (ContainerIP NewDefaultConfig) [])
                (firstn (findCommandStart 0 args) args))
      as [(v' & ->) | [-> | ->]]; cbn [bindr]; [|tauto|tauto].
    left. apply HM.
Qed.

End FlagFacts.

(** ** Reasoning about runs *)

Module RunFacts.
Import Spec.

Section WithPlatform.
Context {P : Platform}.

Lemma runs_weaken {A} (m : M A) (Q1 Q2 : list Event -> res A -> Prop) :
  runs m Q1 -> (forall evs r, Q1 evs r -> Q2 evs r) -> runs m Q2.
Proof.
  intros Hm HQ w tr. destruct (Hm w tr) as (evs & Htr & H1).
  exists evs. split; [exact Htr | now apply HQ].
Qed.

Lemma runs_ret {A} (a : A) (Q : list Event -> res A -> Prop) :
  Q [] (Ok a) -> runs (ret a) Q.
Proof.
  intros HQ w tr. exists []. simpl. rewrite List.app_nil_r. now split.
Qed.

Lemma runs_lift {A} (x : res A) (Q : list Event -> res A -> Prop) :
  Q [] x -> runs (lift x) Q.
Proof.
  intros HQ w tr. exists []. simpl. rewrite List.app_nil_r. now split.
Qed.

Lemma runs_exit {A} (code : Z) (Q : list Event -> res A -> Prop) :
  Q [] (Exit code) -> runs (os_Exit code) Q.
Proof.
  intros HQ w tr. exists []. simpl. rewrite List.app_nil_r. now split.
Qed.

Lemma runs_call (c : Call) (Q : list Event -> res Reply -> Prop) :
  (forall r, Q [(c, r)] (Ok r)) -> runs (call c) Q.
Proof.
  intros HQ w tr. unfold call. simpl.
  destruct (syscall c w) as [r w']. exists [(c, r)]. simpl.
  split; [reflexivity | apply HQ].
Qed.

Lemma runs_bind {A B} (m : M A) (k : A -> M B)
    (Q1 : list Event -> res A -> Prop) (Q : list Event -> res B -> Prop) :
  runs m Q1 ->
  (forall e1 a, Q1 e1 (Ok a) -> runs (k a) (fun e2 r => Q (e1 ++ e2)%list r)) ->
  (forall e1 r, Q1 e1 r -> (forall a, r <> Ok a) -> Q e1 (passed r)) ->
  runs (bind m k) Q.
Proof.
  intros Hm Hk Hfail w tr. unfold bind.
  destruct (Hm w tr) as (e1 & Htr & H1).
  destruct (m (w, tr)) as [r [w1 tr1]]. simpl in Htr, H1. subst tr1.
  destruct r as [a|code| |].
  - destruct (Hk e1 a H1 w1 (tr ++ e1)%list) as (e2 & Htr2 & H2).
    exists (e1 ++ e2)%list. rewrite List.app_assoc. now split.
  - exists e1. split; [reflexivity|].
    apply (Hfail e1 (Exit code) H1). discriminate.
  - exists e1. split; [reflexivity|].
    apply (Hfail e1 Panic H1). discriminate.
  - exists e1. split; [reflexivity|].
    apply (Hfail e1 OutOfFuel H1). discriminate.
Qed.

(** The rule of [check m else wrap ;; k] when [m] always returns. *)
Lemma runs_check (m : M error) (wrap : string -> error) (k : M error)
    (Q1 Q : list Event -> res error -> Prop) :
  runs m Q1 ->
  (forall e1 r, Q1 e1 r -> exists err, r = Ok err) ->
  (forall e1 msg, Q1 e1 (Ok (Some msg)) -> Q e1 (Ok (wrap msg))) ->
  (forall e1, Q1 e1 (Ok None) -> runs k (fun e2 r => Q (e1 ++ e2)%list r)) ->
  runs (orReturn m wrap k) Q.
Proof.
  intros Hm Hret Hwrap Hk. unfold orReturn.
  apply (runs_bind m _ Q1 Q Hm).
  - intros e1 [msg|] H1.
    + apply runs_ret. rewrite List.app_nil_r. now apply Hwrap.
    + now apply Hk.
  - intros e1 r H1 Hne. destruct (Hret e1 r H1) as (err & ->).
    now destruct (Hne err).
Qed.

(** [errOf c]: one call, and its error. *)
Lemma runs_errOf (c : Call) (Q : list Event -> res error -> Prop) :
  (forall r, Q [(c, r)] (Ok (as_error (r_err r)))) -> runs (errOf c) Q.
Proof.
  intros HQ. unfold errOf.
  apply (runs_bind _ _ (fun evs r => exists x, evs = [(c, x)] /\ r = Ok x)).
  - apply runs_call. intros r. now exists r.
  - intros e1 a (x & -> & E). injection E as ->.
    apply runs_ret. simpl. apply HQ.
  - intros e1 r (x & _ & ->) Hne. now destruct (Hne x).
Qed.

(** What a run says of one state. *)
Lemma runs_at {A} (m : M A) (Q : list Event -> res A -> Prop)
    (w : world) (tr : list Event) :
  runs m Q ->
  exists evs r w',
    m (w, tr) = (r, (w', (tr ++ evs)%list)) /\ Q evs r.
Proof.
  intros Hm. destruct (Hm w tr) as (evs & Htr & HQ).
  destruct (m (w, tr)) as [r [w' tr']]. simpl in *. subst tr'.
  now exists evs, r, w'.
Qed.

End WithPlatform.

End RunFacts.

(** ** [SetupCgroups] *)

Module CgroupFacts.
Import Spec RunFacts CgroupSetup.

Section WithPlatform.
Context {P : Platform}.

Lemma visits_app (p1 p2 : list string) (e1 e2 : list Event) (s : bool) :
  visits p1 e1 false -> visits p2 e2 s -> visits (p1 ++ p2) (e1 ++ e2) s.
Proof.
  revert e1. induction p1 as [|path p1 IH]; intros e1 H1 H2.
  - destruct H1 as [-> _]. exact H2.
  - destruct H1 as (st & evs1 & -> & H1). cbn [app visits].
    exists st, (evs1 ++ e2)%list. split; [reflexivity|].
    destruct (os_IsNotExist (r_err st)).
    + now apply IH.
    + destruct H1 as (value & wr & evs2 & -> & H1).
      exists value, wr, (evs2 ++ e2)%list. split; [reflexivity|].
      destruct (r_err wr); [now destruct H1 | now apply IH].
Qed.

Lemma visits_stopped (p1 p2 : list string) (e1 : list Event) :
  visits p1 e1 true -> visits (p1 ++ p2) e1 true.
Proof.
  revert e1. induction p1 as [|path p1 IH]; intros e1 H1.
  - now destruct H1.
  - destruct H1 as (st & evs1 & -> & H1). cbn [app visits].
    exists st, evs1. split; [reflexivity|].
    destruct (os_IsNotExist (r_err st)).
    + now apply IH.
    + destruct H1 as (value & wr & evs2 & -> & H1).
      exists value, wr, evs2. split; [reflexivity|].
      destruct (r_err wr); [exact H1 | now apply IH].
Qed.

Lemma wrote_setCgroupValue (dir filename value : string) :
  runs (setCgroupValue dir filename value) (wrote [filepath_Join dir filename]).
Proof.
  unfold setCgroupValue.
  apply (runs_bind _ _ (fun evs r =>
           exists st, evs = [(Stat (filepath_Join dir filename), st)]
                      /\ r = Ok st)).
  - apply runs_call. intros r. now exists r.
  - intros e1 st (x & -> & E). injection E as <-.
    destruct (os_IsNotExist (r_err st)) eqn:Hst.
    + apply runs_ret. exists nil_error, false. split; [reflexivity|].
      split; [|tauto]. simpl. exists st, []. rewrite Hst. now repeat split.
    + apply (runs_bind _ _ (fun evs r =>
               exists wr, evs = [(WriteFile (filepath_Join dir filename)
                                    value 420, wr)] /\ r = Ok wr)).
      * apply runs_call. intros r. now exists r.
      * intros e2 wr (x & -> & E). injection E as <-.
        destruct (r_err wr) as [e|] eqn:Hwr; apply runs_ret.
        -- eexists. exists true. split; [reflexivity|]. split.
           ++ simpl. exists st, [(WriteFile (filepath_Join dir filename)
                                    value 420, wr)].
              split; [reflexivity|]. rewrite Hst.
              exists value, wr, []. split; [reflexivity|]. now rewrite Hwr.
           ++ unfold Errorf, nil_error. split; discriminate.
        -- exists nil_error, false. split; [reflexivity|]. split; [|tauto].
           simpl. exists st, [(WriteFile (filepath_Join dir filename)
                                 value 420, wr)].
           split; [reflexivity|]. rewrite Hst.
           exists value, wr, []. split; [reflexivity|]. now rewrite Hwr.
      * intros e2 r (x & _ & ->) Hne. now destruct (Hne x).
  - intros e1 r (x & _ & ->) Hne. now destruct (Hne x).
Qed.

Lemma wrote_nothing : runs (ret nil_error) (wrote []).
Proof.
  apply runs_ret. exists nil_error, false. split; [reflexivity|].
  split; [now split | tauto].
Qed.

(** One more group of files after a [check]. *)
Lemma wrote_check (m k : M error) (pieces : string -> list string)
    (p1 p2 : list string) :
  runs m (wrote p1) -> runs k (wrote p2) ->
  runs (orReturn m (fun e => Errorf (pieces e)) k) (wrote (p1 ++ p2)).
Proof.
  intros Hm Hk. apply (runs_check m _ k (wrote p1)); [exact Hm | | |].
  - intros e1 r (err & s & -> & _). now exists err.
  - intros e1 msg (err & s & E & Hv & Hs). injection E as <-.
    eexists. exists true. split; [reflexivity|]. split.
    + apply visits_stopped. destruct s; [exact Hv|].
      destruct Hs as [_ Hs]. discriminate (Hs eq_refl).
    + unfold Errorf, nil_error. split; discriminate.
  - intros e1 (err & s & E & Hv & Hs). injection E as <-.
    assert (s = false) as -> by now apply Hs.
    apply (runs_weaken _ _ _ Hk).
    intros e2 r (err2 & s2 & -> & Hv2 & Hs2).
    exists err2, s2. split; [reflexivity|]. split; [|exact Hs2].
    rewrite filter_app. now apply visits_app.
Qed.

(** A call that is not a file call in front. *)
Lemma wrote_after (c : Call) (k : Reply -> M error) (paths : list string) :
  isFileCall (c, mkReply None 0 false) = false ->
  (forall r, runs (k r) (wrote paths)) ->
  runs (bind (call c) k) (wrote paths).
Proof.
  intros Hc Hk.
  apply (runs_bind _ _ (fun evs r => exists x, evs = [(c, x)] /\ r = Ok x)).
  - apply runs_call. intros r. now exists r.
  - intros e1 a (x & -> & E). injection E as <-.
    apply (runs_weaken _ _ _ (Hk a)).
    intros e2 r (err & s & -> & Hv & Hs). exists err, s.
    split; [reflexivity|]. split; [|exact Hs].
    cbn [app filter]. unfold isFileCall in Hc |- *. cbn [fst] in Hc |- *.
    now rewrite Hc.
  - intros e1 r (x & _ & ->) Hne. now destruct (Hne x).
Qed.

(** The part of [SetupCgroups] after the directory. *)
Lemma wrote_controlFiles (config : CgroupConfig) (dir : string) :
  runs
    (check setCgroupValue dir "pids.max" (MaxPids config)
     else (fun e => Errorf ["failed to set pids.max: "; e]) ;;
     check (if negb (String.eqb (MemoryLimit config) "")
            then setCgroupValue dir "memory.max" (MemoryLimit config)
            else ret nil_error)
     else (fun e => Errorf ["failed to set memory.max: "; e]) ;;
     check (if negb (String.eqb (CPUQuota config) "")
            then setCgroupValue dir "cpu.max"
                   (CPUQuota config ++ " " ++ CPUPeriod config)
            else ret nil_error)
     else (fun e => Errorf ["failed to set cpu.max: "; e]) ;;
     pid <- call Getpid ;;
     check setCgroupValue dir "cgroup.procs" (Strconv.Itoa (r_int pid))
     else (fun e => Errorf ["failed to add process to cgroup: "; e]) ;;
     ret nil_error)
    (wrote (map (filepath_Join dir) (controlFiles config))).
Proof.
  unfold controlFiles. rewrite !map_app.
  apply wrote_check; [apply wrote_setCgroupValue|].
  apply wrote_check.
  { destruct (String.eqb (MemoryLimit config) "");
      [apply wrote_nothing | apply wrote_setCgroupValue]. }
  apply wrote_check.
  { destruct (String.eqb (CPUQuota config) "");
      [apply wrote_nothing | apply wrote_setCgroupValue]. }
  apply wrote_after; [reflexivity|]. intros pid.
  rewrite <- (List.app_nil_r (map _ ["cgroup.procs"])).
  apply wrote_check; [apply wrote_setCgroupValue | apply wrote_nothing].
Qed.

(** C7: [setCgroupValue] looks at the control file first; when it does not
    exist nothing is written and the result is nil, otherwise the value is
    written and a failed write is returned as an error.  [SetupCgroups]
    looks at the directory of the group (and makes it when it does not
    exist, a failure of which is returned), then goes through its control
    files in order: a file that does not exist is skipped and the next one
    is taken, a failed write is the last file call, and the error returned
    is non-nil exactly when a write failed. *)
Theorem SetupCgroups_skips_missing_files (config : CgroupConfig)
    (w : world) (tr : list Event) :
  let dir := filepath_Join cgroupBasePath (Name config) in
  (forall filename value : string,
      let path := filepath_Join dir filename in
      let st := syscall (Stat path) w in
      let wr := syscall (WriteFile path value 420) (snd st) in
      setCgroupValue dir filename value (w, tr) =
      if os_IsNotExist (r_err (fst st))
      then (Ok nil_error, (snd st, tr ++ [(Stat path, fst st)]))
      else (Ok match r_err (fst wr) with
               | Some e => Errorf ["failed to write to "; path; ": ";
                                   Message e]
               | None => nil_error
               end,
            (snd wr, tr ++ [(Stat path, fst st);
                            (WriteFile path value 420, fst wr)])))%list
  /\ exists evs err w',
       SetupCgroups config (w, tr) = (Ok err, (w', tr ++ evs))%list
       /\ exists st rest,
            evs = (Stat dir, st) :: rest
            /\ if os_IsNotExist (r_err st) then
                 exists mk rest',
                   rest = (MkdirAll dir 493, mk) :: rest'
                   /\ match r_err mk with
                      | Some _ => rest' = [] /\ err <> nil_error
                      | None => cgroupWrites dir config rest' err
                      end
               else cgroupWrites dir config rest err.
Proof.
  intros dir. split.
  - intros filename value path st wr. subst wr st path.
    unfold setCgroupValue, bind, call, ret. cbn [fst snd].
    destruct (syscall (Stat (filepath_Join dir filename)) w) as [st w1].
    cbn [fst snd].
    destruct (os_IsNotExist (r_err st)); [reflexivity|]. cbn [fst snd].
    destruct (syscall (WriteFile (filepath_Join dir filename) value 420) w1)
      as [wr w2].
    cbn [fst snd]. rewrite <- List.app_assoc.
    destruct (r_err wr); reflexivity.
  - assert (H : runs (SetupCgroups config)
                  (fun evs r =>
                     exists err, r = Ok err
                       /\ exists st rest,
                            evs = (Stat dir, st) :: rest
                            /\ if os_IsNotExist (r_err st) then
                                 exists mk rest',
                                   rest = (MkdirAll dir 493, mk) :: rest'
                                   /\ match r_err mk with
                                      | Some _ => rest' = [] /\ err <> nil_error
                                      | None => cgroupWrites dir config rest' err
                                      end
                               else cgroupWrites dir config rest err)).
    { unfold SetupCgroups. fold dir.
      apply (runs_check _ _ _
               (fun evs r =>
                  exists st,
                    if os_IsNotExist (r_err st) then
                      exists mk, evs = [(Stat dir, st); (MkdirAll dir 493, mk)]
                                 /\ r = Ok (as_error (r_err mk))
                    else evs = [(Stat dir, st)] /\ r = Ok nil_error)).
      - apply (runs_bind _ _ (fun evs r =>
                 exists st, evs = [(Stat dir, st)] /\ r = Ok st)).
        + apply runs_call. intros r. now exists r.
        + intros e1 st (x & -> & E). injection E as <-.
          destruct (os_IsNotExist (r_err st)) eqn:Hst.
          * apply runs_errOf. intros mk. exists st. rewrite Hst.
            now exists mk.
          * apply runs_ret. exists st. now rewrite Hst.
        + intros e1 r (x & _ & ->) Hne. now destruct (Hne x).
      - intros e1 r (st & H). destruct (os_IsNotExist (r_err st)).
        + destruct H as (mk & _ & ->). eexists. reflexivity.
        + destruct H as (_ & ->). eexists. reflexivity.
      - intros e1 msg (st & H).
        destruct (os_IsNotExist (r_err st)) eqn:Hst.
        + destruct H as (mk & -> & E). injection E as E.
          eexists. split; [reflexivity|]. exists st, [(MkdirAll dir 493, mk)].
          split; [reflexivity|]. rewrite Hst. exists mk, [].
          split; [reflexivity|].
          destruct (r_err mk); [|discriminate]. split; [reflexivity|].
          discriminate.
        + destruct H as (_ & E). discriminate.
      - intros e1 (st & H).
        apply (runs_weaken _ _ _ (wrote_controlFiles config dir)).
        intros e2 r (err & s & -> & Hv & Hs).
        exists err. split; [reflexivity|].
        destruct (os_IsNotExist (r_err st)) eqn:Hst.
        + destruct H as (mk & -> & E). injection E as E.
          exists st, ((MkdirAll dir 493, mk) :: e2). split; [reflexivity|].
          rewrite Hst. exists mk, e2. split; [reflexivity|].
          destruct (r_err mk); [discriminate|]. now exists s.
        + destruct H as (-> & _). exists st, e2. split; [reflexivity|].
          rewrite Hst. now exists s. }
    destruct (runs_at _ _ w tr H) as (evs & r & w' & Hrun & err & -> & HQ).
    now exists evs, err, w'.
Qed.

End WithPlatform.

(** On a host without any control file nothing is written and the setup
    succeeds. *)
Example no_control_files :
  let host := Hosts.scripted
                (fun c =>
                   match c with
                   | Stat "/sys/fs/cgroup/namespace_test" => Hosts.succeeded
                   | Stat _ => Hosts.refused true "no such file or directory"
                   | Getpid => Hosts.exited 7
                   | _ => Hosts.succeeded
                   end) in
  SetupCgroups (P := host) NewDefaultCgroupConfig (tt, [])
  = (Ok nil_error,
     (tt,
      [(Stat "/sys/fs/cgroup/namespace_test", Hosts.succeeded);
       (Stat "/sys/fs/cgroup/namespace_test/pids.max",
        Hosts.refused true "no such file or directory");
       (Getpid, Hosts.exited 7);
       (Stat "/sys/fs/cgroup/namespace_test/cgroup.procs",
        Hosts.refused true "no such file or directory")])).
Proof. vm_compute. reflexivity. Qed.

(** A write that is refused ends the setup with an error. *)
Example refused_write :
  let host := Hosts.scripted
                (fun c =>
                   match c with
                   | WriteFile _ _ _ => Hosts.refused false "permission denied"
                   | _ => Hosts.succeeded
                   end) in
  SetupCgroups (P := host) NewDefaultCgroupConfig (tt, [])
  = (Ok (Some ("failed to set pids.max: failed to write to "
               ++ "/sys/fs/cgroup/namespace_test/pids.max: permission denied")),
     (tt,
      [(Stat "/sys/fs/cgroup/namespace_test", Hosts.succeeded);
       (Stat "/sys/fs/cgroup/namespace_test/pids.max", Hosts.succeeded);
       (WriteFile "/sys/fs/cgroup/namespace_test/pids.max" "max" 420,
        Hosts.refused false "permission denied")])).
Proof. vm_compute. reflexivity. Qed.

End CgroupFacts.

(** ** [SetupFilesystem] *)

Module FilesystemFacts.
Import Config Spec RunFacts Filesystem.

Section WithPlatform.
Context {P : Platform}.

Lemma followed_nothing : runs (ret nil_error) (followed []).
Proof.
  apply runs_ret. exists nil_error. split; [reflexivity|]. left.
  repeat split. constructor.
Qed.

(** A call whose error is its failure. *)
Lemma followed_errOf (c : Call) :
  (forall r, failed (c, r) = match r_err r with
                             | Some _ => true
                             | None => false
                             end) ->
  runs (errOf c) (followed [c]).
Proof.
  intros Hc. apply runs_errOf. intros r.
  exists (as_error (r_err r)). split; [reflexivity|].
  specialize (Hc r). destruct (r_err r) as [e|]; simpl.
  - right. split; [discriminate|]. exists [], (c, r), [].
    repeat split; [exact Hc | constructor].
  - left. repeat split. constructor; [exact Hc | constructor].
Qed.

Lemma followed_check (m k : M error) (pieces : string -> list string)
    (s1 s2 : list Call) :
  runs m (followed s1) -> runs k (followed s2) ->
  runs (orReturn m (fun e => Errorf (pieces e)) k) (followed (s1 ++ s2)).
Proof.
  intros Hm Hk. apply (runs_check m _ k (followed s1)); [exact Hm | | |].
  - intros e1 r (err & -> & _). now exists err.
  - intros e1 msg (err & E & H). injection E as <-.
    destruct H as [(E & _) | (_ & done & ev & rest & -> & Hev & Hdone & ->)];
      [discriminate|].
    eexists. split; [reflexivity|]. right. split; [discriminate|].
    exists done, ev, (rest ++ s2)%list.
    repeat split; [exact Hev | exact Hdone | now rewrite List.app_assoc].
  - intros e1 (err & E & H). injection E as <-.
    destruct H as [(_ & <- & Hall) | (Hne & _)]; [|now destruct Hne].
    apply (runs_weaken _ _ _ Hk).
    intros e2 r (err & -> & H2). exists err. split; [reflexivity|].
    destruct H2 as [(-> & <- & Hall2)
                   | (Hne & done & ev & rest & -> & Hev & Hdone & ->)].
    + left. repeat split; [now rewrite map_app | now apply Forall_app].
    + right. split; [exact Hne|].
      exists (e1 ++ done)%list, ev, rest.
      repeat split.
      * now rewrite List.app_assoc.
      * exact Hev.
      * now apply Forall_app.
      * now rewrite !map_app, !List.app_assoc.
Qed.

(** A call that did not fail, in front. *)
Lemma followed_cons (c : Call) (rp : Reply) (steps : list Call)
    (evs : list Event) (r : res error) :
  failed (c, rp) = false ->
  followed steps evs r -> followed (c :: steps) ((c, rp) :: evs) r.
Proof.
  intros Hc (err & -> & H). exists err. split; [reflexivity|].
  destruct H as [(-> & <- & Hall)
                | (Hne & done & ev & rest & -> & Hev & Hdone & ->)].
  - left. repeat split. now constructor.
  - right. split; [exact Hne|]. exists ((c, rp) :: done), ev, rest.
    repeat split; [exact Hev | now constructor].
Qed.

Lemma followed_createBindMount (mount : Mount) (rootFS : string) :
  runs (createBindMount mount rootFS) (followed (bindMountSteps rootFS mount)).
Proof.
  unfold createBindMount.
  apply (runs_bind _ _ (fun evs r =>
           exists st, evs = [(Stat (Source mount), st)] /\ r = Ok st)).
  - apply runs_call. intros r. now exists r.
  - intros e1 st (x & -> & E). injection E as <-.
    destruct (os_IsNotExist (r_err st)) eqn:Hst.
    + apply runs_ret. eexists. split; [reflexivity|]. right.
      split; [discriminate|].
      exists [], (Stat (Source mount), st).
      unfold bindMountSteps. destruct (ReadOnly mount); eexists;
        (split; [reflexivity|]; split; [exact Hst|];
         split; [constructor | reflexivity]).
    + assert (Hrest : runs
                (check errOf (MkdirAll (filepath_Join rootFS (Destination mount)) 493)
                 else (fun e => Errorf ["failed to create mount point ";
                                        filepath_Join rootFS (Destination mount);
                                        ": "; e]) ;;
                 check errOf (SysMount (Source mount)
                                (filepath_Join rootFS (Destination mount)) ""
                                (if ReadOnly mount
                                 then Z.lor MS_BIND MS_RDONLY else MS_BIND) "")
                 else (fun e => Errorf ["failed to bind mount: "; e]) ;;
                 check (if ReadOnly mount
                        then errOf (SysMount ""
                                      (filepath_Join rootFS (Destination mount))
                                      ""
                                      (Z.lor (if ReadOnly mount
                                              then Z.lor MS_BIND MS_RDONLY
                                              else MS_BIND) MS_REMOUNT) "")
                        else ret nil_error)
                 else (fun e => Errorf ["failed to remount as read-only: "; e]) ;;
                 ret nil_error)
                (followed (tl (bindMountSteps rootFS mount)))).
      { unfold bindMountSteps. destruct (ReadOnly mount); cbn [tl].
        - apply (followed_check _ _ _ [_] [_; _]);
            [apply followed_errOf; reflexivity|].
          apply (followed_check _ _ _ [_] [_]);
            [apply followed_errOf; reflexivity|].
          apply (followed_check _ _ _ [_] []);
            [apply followed_errOf; reflexivity | apply followed_nothing].
        - apply (followed_check _ _ _ [_] [_]);
            [apply followed_errOf; reflexivity|].
          apply (followed_check _ _ _ [_] []);
            [apply followed_errOf; reflexivity|].
          apply (followed_check _ _ _ [] []); apply followed_nothing. }
      apply (runs_weaken _ _ _ Hrest). intros e2 r H2.
      replace (bindMountSteps rootFS mount)
        with (Stat (Source mount) :: tl (bindMountSteps rootFS mount))
        by (unfold bindMountSteps; destruct (ReadOnly mount); reflexivity).
      apply followed_cons; [exact Hst | exact H2].
  - intros e1 r (x & _ & ->) Hne. now destruct (Hne x).
Qed.

Lemma followed_bindMountLoop (mounts : list Mount) (rootFS : string) :
  runs (bindMountLoop mounts rootFS)
    (followed (flat_map (bindMountSteps rootFS) mounts)).
Proof.
  induction mounts as [|mount mounts IH]; cbn [bindMountLoop flat_map].
  - apply followed_nothing.
  - apply followed_check; [apply followed_createBindMount | exact IH].
Qed.

Lemma followed_copyResolvConf :
  runs copyResolvConf
    (followed [MkdirAll "/etc" 493;
               WriteFile "/etc/resolv.conf" resolvConf 420]).
Proof.
  unfold copyResolvConf.
  apply (followed_check _ _ _ [_] [_]); [apply followed_errOf; reflexivity|].
  apply (followed_check _ _ _ [_] []);
    [apply followed_errOf; reflexivity | apply followed_nothing].
Qed.

Lemma followed_SetupFilesystem (config : ContainerConfig) :
  runs (SetupFilesystem config) (followed (setupSteps config)).
Proof.
  unfold SetupFilesystem, setupSteps, setupBindMounts.
  apply followed_check; [apply followed_bindMountLoop|].
  apply (followed_check _ _ _ [_] [_; _; _; _; _; _]);
    [apply followed_errOf; reflexivity|].
  apply (followed_check _ _ _ [_] [_; _; _; _; _]);
    [apply followed_errOf; reflexivity|].
  apply (followed_check _ _ _ [_] [_; _; _; _]);
    [apply followed_errOf; reflexivity|].
  apply (followed_check _ _ _ [_; _] [_; _]);
    [apply followed_copyResolvConf|].
  apply (followed_check _ _ _ [_] [_]); [apply followed_errOf; reflexivity|].
  apply (followed_check _ _ _ [_] []);
    [apply followed_errOf; reflexivity | apply followed_nothing].
Qed.

Lemma failed_is_last (done before after : list Event) (ev0 ev : Event) :
  Forall (fun e => failed e = false) done ->
  (before ++ ev :: after = done ++ [ev0])%list ->
  failed ev = true -> after = [].
Proof.
  intros Hdone. revert before.
  induction Hdone as [|d done Hd _ IH]; intros before E Hev.
  - destruct before as [|b before]; simpl in E.
    + now injection E.
    + injection E as _ E. now destruct before.
  - destruct before as [|b before]; simpl in E.
    + injection E as -> _. congruence.
    + injection E as _ E. now apply (IH before).
Qed.

(** Where an element that occurs once stands. *)
Lemma unique_split {A} (x : A) (l1 l2 l3 l4 : list A) :
  ~ In x l1 -> ~ In x l2 ->
  (l1 ++ x :: l2 = l3 ++ x :: l4)%list -> l1 = l3 /\ l2 = l4.
Proof.
  intros H1 H2. revert l3. induction l1 as [|a l1 IH]; intros l3 E.
  - destruct l3 as [|b l3]; simpl in E.
    + injection E as ->. now split.
    + injection E as <- E. exfalso. apply H2. rewrite E.
      apply in_or_app. right. now left.
  - destruct l3 as [|b l3]; simpl in E.
    + injection E as -> _. exfalso. apply H1. now left.
    + injection E as <- E.
      destruct (IH (fun H => H1 (or_intror H)) l3 E) as [-> ->]. now split.
Qed.

Lemma no_Chroot_in_bind_mounts (rootFS path : string) (mounts : list Mount) :
  ~ In (Chroot path) (flat_map (bindMountSteps rootFS) mounts).
Proof.
  induction mounts as [|m mounts IH]; simpl; [tauto|].
  intros H. apply in_app_or in H as [H|H]; [|now apply IH].
  unfold bindMountSteps in H. destruct (ReadOnly m); simpl in H;
    repeat (destruct H as [H|H]; [discriminate|]); exact H.
Qed.

(** C6: [SetupFilesystem] returns, and the calls it has made are a
    beginning of the setup steps in their order (the bind mounts, the
    hostname, the root change and the change of directory, the DNS
    configuration, the mount of proc, the mount of devpts).  It returns nil
    exactly when all the steps were made and none failed; a failed step is
    the last call; the steps stop only there: when the result is an error
    the last call is a step that failed, and no step before it failed, so
    that every step is made unless an earlier one failed; and whenever the
    root change is among the calls, all the bind mounts and the hostname,
    and nothing else, were done before it, the mounts of proc and devpts
    come after it. *)
Theorem SetupFilesystem_order (config : ContainerConfig)
    (w : world) (tr : list Event) :
  exists evs err w',
    SetupFilesystem config (w, tr) = (Ok err, (w', tr ++ evs))%list
    /\ (exists rest, setupSteps config = map fst evs ++ rest)%list
    /\ (err = nil_error <->
        map fst evs = setupSteps config
        /\ Forall (fun ev => failed ev = false) evs)
    /\ (forall before ev after,
          evs = (before ++ ev :: after)%list ->
          failed ev = true -> after = [] /\ err <> nil_error)
    /\ (err <> nil_error ->
        exists done ev,
          evs = (done ++ [ev])%list
          /\ failed ev = true
          /\ Forall (fun ev => failed ev = false) done)
    /\ (forall step,
          In step (setupSteps config) ->
          In step (map fst evs)
          \/ exists ev, In ev evs /\ failed ev = true)
    /\ (forall before after,
          map fst evs = (before ++ Chroot (RootFS config) :: after)%list ->
          before = (flat_map (bindMountSteps (RootFS config)) (Mounts config)
                    ++ [Sethostname (Hostname config)])%list
          /\ exists rest,
               [Chdir "/";
                MkdirAll "/etc" 493;
                WriteFile "/etc/resolv.conf" resolvConf 420;
                SysMount "proc" "proc" "proc" 0 "";
                SysMount "devpts" "/dev/pts" "devpts" 0 ""]
               = (after ++ rest)%list).
Proof.
  destruct (runs_at _ _ w tr (followed_SetupFilesystem config))
    as (evs & r & w' & Hrun & err & -> & H).
  exists evs, err, w'. split; [exact Hrun|].
  assert (Hprefix : exists rest, setupSteps config = (map fst evs ++ rest)%list).
  { destruct H as [(_ & <- & _) | (_ & done & ev & rest & _ & _ & _ & ->)].
    - exists []. now rewrite List.app_nil_r.
    - now exists rest. }
  split; [exact Hprefix|]. split; [|split; [|split; [|split]]].
  - destruct H as [(-> & <- & Hall) | (Hne & done & ev & rest & -> & Hev & _ & _)].
    + tauto.
    + split; [intros E; now destruct Hne|].
      intros [_ Hall]. apply Forall_app in Hall as [_ Hall].
      inversion Hall as [|? ? Hf _]; subst. congruence.
  - intros before ev after -> Hev.
    destruct H as [(_ & _ & Hall) | (Hne & done & ev0 & rest & E & _ & Hdone & _)].
    + apply Forall_app in Hall as [_ Hall].
      inversion Hall as [|? ? Hf _]; subst. congruence.
    + split; [|exact Hne]. exact (failed_is_last done before after ev0 ev Hdone E Hev).
  - intros Herr.
    destruct H as [(E & _) | (_ & done & ev & rest & E & Hev & Hdone & _)];
      [now destruct Herr|].
    now exists done, ev.
  - intros step Hstep.
    destruct H as [(_ & E & _) | (_ & done & ev & rest & E & Hev & _ & _)].
    + left. now rewrite E.
    + right. exists ev. split; [|exact Hev].
      rewrite E. apply in_or_app. right. now left.
  - intros before after E. destruct Hprefix as (rest & Hsteps).
    rewrite E in Hsteps. unfold setupSteps in Hsteps.
    rewrite <- List.app_assoc in Hsteps. cbn [app] in Hsteps.
    change (flat_map (bindMountSteps (RootFS config)) (Mounts config)
            ++ Sethostname (Hostname config) :: Chroot (RootFS config)
               :: [Chdir "/"; MkdirAll "/etc" 493;
                   WriteFile "/etc/resolv.conf" resolvConf 420;
                   SysMount "proc" "proc" "proc" 0 "";
                   SysMount "devpts" "/dev/pts" "devpts" 0 ""])%list
      with (flat_map (bindMountSteps (RootFS config)) (Mounts config)
            ++ [Sethostname (Hostname config)]
            ++ Chroot (RootFS config)
               :: [Chdir "/"; MkdirAll "/etc" 493;
                   WriteFile "/etc/resolv.conf" resolvConf 420;
                   SysMount "proc" "proc" "proc" 0 "";
                   SysMount "devpts" "/dev/pts" "devpts" 0 ""])%list in Hsteps.
    rewrite List.app_assoc in Hsteps.
    apply unique_split in Hsteps as [Hb Ha].
    + split; [now symmetry|]. now exists rest.
    + intros Hin. apply in_app_or in Hin as [Hin|Hin].
      * now apply (no_Chroot_in_bind_mounts _ _ _ Hin).
      * simpl in Hin. destruct Hin as [Hin|[]]. discriminate.
    + simpl. intros Hin.
      repeat (destruct Hin as [Hin|Hin]; [discriminate|]). exact Hin.
Qed.

End WithPlatform.

(** A root change that is refused: the bind mount and the hostname were
    done, nothing is mounted at proc or /dev/pts. *)
Example refused_chroot :
  let host := Hosts.scripted
                (fun c =>
                   match c with
                   | Chroot _ => Hosts.refused false "operation not permitted"
                   | _ => Hosts.succeeded
                   end) in
  let config := mkConfig "box" "rootfs" [mkMount "/srv" "data" true]
                  "10.0.0.0/24" "10.0.0.1" "10.0.0.2" ["/bin/sh"] in
  SetupFilesystem (P := host) config (tt, [])
  = (Ok (Some "failed to chroot to rootfs: operation not permitted"),
     (tt,
      [(Stat "/srv", Hosts.succeeded);
       (MkdirAll "rootfs/data" 493, Hosts.succeeded);
       (SysMount "/srv" "rootfs/data" "" 4097 "", Hosts.succeeded);
       (SysMount "" "rootfs/data" "" 4129 "", Hosts.succeeded);
       (Sethostname "box", Hosts.succeeded);
       (Chroot "rootfs", Hosts.refused false "operation not permitted")])).
Proof. vm_compute. reflexivity. Qed.

End FilesystemFacts.

(** ** The rules of the packet filter *)

Module NetworkFacts.
Import Config Spec RunFacts Network Hosts.

Lemma deleteRule_perm (r : Rule) (rules rules' : list Rule) :
  deleteRule r rules = Some rules' -> Permutation (r :: rules') rules.
Proof.
  revert rules'. induction rules as [|x rules IH]; intros rules' H;
    simpl in H; [discriminate|].
  destruct (Rule_eq_dec r x) as [->|Hne].
  - injection H as <-. reflexivity.
  - destruct (deleteRule r rules) as [rest|]; [|discriminate].
    injection H as <-. rewrite perm_swap. now rewrite (IH rest eq_refl).
Qed.

Lemma deleteRule_found (r : Rule) (rules : list Rule) :
  In r rules -> exists rules', deleteRule r rules = Some rules'.
Proof.
  induction rules as [|x rules IH]; intros Hin; [destruct Hin|]. simpl.
  destruct (Rule_eq_dec r x) as [->|Hne]; [now eexists|].
  destruct Hin as [->|Hin]; [now destruct Hne|].
  destruct (IH Hin) as (rest & ->). now eexists.
Qed.

Lemma removeRule_absent (r : Rule) (rules : list Rule) :
  ~ In r rules -> removeRule r rules = rules.
Proof.
  unfold removeRule. intros Hn.
  destruct (deleteRule r rules) as [rules'|] eqn:E; [|reflexivity].
  exfalso. apply Hn. apply (Permutation_in r (deleteRule_perm _ _ _ E)).
  now left.
Qed.

Lemma removeRule_present (r : Rule) (rules : list Rule) :
  In r rules -> Permutation (r :: removeRule r rules) rules.
Proof.
  intros Hin. unfold removeRule.
  destruct (deleteRule_found r rules Hin) as (rules' & E). rewrite E.
  now apply deleteRule_perm.
Qed.

(** The first occurrence is the one that goes. *)
Lemma removeRule_first (r : Rule) (before after : list Rule) :
  ~ In r before -> removeRule r (before ++ r :: after) = (before ++ after)%list.
Proof.
  unfold removeRule. induction before as [|x before IH]; intros Hn; simpl.
  - destruct (Rule_eq_dec r r) as [_|Hne]; [reflexivity | now destruct Hne].
  - destruct (Rule_eq_dec r x) as [->|Hne]; [exfalso; apply Hn; now left|].
    specialize (IH (fun H => Hn (or_intror H))).
    destruct (deleteRule r (before ++ r :: after)) as [rest|]; now rewrite IH.
Qed.

(** Three rules appended and then deleted leave the rules they were added
    to, up to their order; and exactly those rules when none of the three
    was among them. *)
Lemma append_then_delete (r1 r2 r3 : Rule) (rules : list Rule) :
  r1 <> r2 -> r1 <> r3 -> r2 <> r3 ->
  let after := removeRule r3 (removeRule r2 (removeRule r1
                 (rules ++ [r1; r2; r3]))) in
  Permutation after rules
  /\ (~ In r1 rules -> ~ In r2 rules -> ~ In r3 rules -> after = rules).
Proof.
  intros H12 H13 H23 after. split.
  - set (l0 := (rules ++ [r1; r2; r3])%list) in *.
    assert (P1 : Permutation (r1 :: removeRule r1 l0) l0)
      by (apply removeRule_present, in_or_app; right; simpl; tauto).
    assert (I2 : In r2 (removeRule r1 l0)).
    { assert (In r2 (r1 :: removeRule r1 l0)) as [E|I]
        by (apply (Permutation_in r2 (Permutation_sym P1)), in_or_app;
            right; simpl; tauto); [now destruct H12 | exact I]. }
    assert (P2 := removeRule_present r2 _ I2).
    assert (I3 : In r3 (removeRule r2 (removeRule r1 l0))).
    { assert (In r3 (r1 :: removeRule r1 l0)) as [E|I]
        by (apply (Permutation_in r3 (Permutation_sym P1)), in_or_app;
            right; simpl; tauto); [now destruct H13|].
      assert (In r3 (r2 :: removeRule r2 (removeRule r1 l0))) as [E|I']
        by (apply (Permutation_in r3 (Permutation_sym P2)); exact I);
        [now destruct H23 | exact I']. }
    assert (P3 := removeRule_present r3 _ I3). fold after in P3.
    apply (Permutation_cons_inv (a := r3)),
      (Permutation_cons_inv (a := r2)), (Permutation_cons_inv (a := r1)).
    rewrite P3, P2, P1. unfold l0.
    apply (Permutation_app_comm rules [r1; r2; r3]).
  - intros N1 N2 N3. unfold after.
    rewrite (removeRule_first r1 rules [r2; r3] N1).
    rewrite (removeRule_first r2 rules [r3] N2).
    rewrite (removeRule_first r3 rules [] N3).
    apply List.app_nil_r.
Qed.

(** *** The commands [setupNAT] and [CleanupNetwork] run *)

Lemma runs_iptables {P : Platform} (args : list string)
    (Q : list Event -> res error -> Prop) :
  (forall r, Q [(command args, r)] (Ok (exitError r))) ->
  runs (iptables args) Q.
Proof.
  intros HQ. unfold iptables.
  apply (runs_bind _ _ (fun evs r =>
           exists x, evs = [(command args, x)] /\ r = Ok x)).
  - apply runs_call. intros r. now exists r.
  - intros e1 a (x & -> & E). injection E as <-.
    apply runs_ret. apply HQ.
  - intros e1 r (x & _ & ->) Hne. now destruct (Hne x).
Qed.

(** The commands of [setupNAT] are the three of [natRules], in order, up
    to the first that fails. *)
Lemma setupNAT_commands {P : Platform} (config : ContainerConfig)
    (network : IPNet) :
  net_ParseCIDR (NetworkCIDR config) = Some network ->
  runs (setupNAT config)
    (fun evs r =>
       exists err,
         r = Ok err
         /\ (exists rest,
               map command (natRules (IPNet_String network))
               = map fst evs ++ rest)%list
         /\ (err = nil_error ->
             map fst evs = map command (natRules (IPNet_String network)))).
Proof.
  intros Hnet. unfold setupNAT. rewrite Hnet.
  set (net := IPNet_String network).
  apply (runs_check _ _ _
           (fun evs r => exists x, evs = [(command (nth 0 (natRules net) []), x)]
                                   /\ r = Ok (exitError x))).
  { apply runs_iptables. intros r. now exists r. }
  { intros e1 r (x & _ & ->). now eexists. }
  { intros e1 msg (x & -> & _). eexists. split; [reflexivity|].
    split; [eexists; reflexivity | discriminate]. }
  intros e1 (x1 & -> & _).
  apply (runs_check _ _ _
           (fun evs r => exists x, evs = [(command (nth 1 (natRules net) []), x)]
                                   /\ r = Ok (exitError x))).
  { apply runs_iptables. intros r. now exists r. }
  { intros e2 r (x & _ & ->). now eexists. }
  { intros e2 msg (x & -> & _). eexists. split; [reflexivity|].
    split; [eexists; reflexivity | discriminate]. }
  intros e2 (x2 & -> & _).
  apply (runs_check _ _ _
           (fun evs r => exists x, evs = [(command (nth 2 (natRules net) []), x)]
                                   /\ r = Ok (exitError x))).
  { apply runs_iptables. intros r. now exists r. }
  { intros e3 r (x & _ & ->). now eexists. }
  { intros e3 msg (x & -> & _). eexists. split; [reflexivity|].
    split; [exists []; reflexivity | discriminate]. }
  intros e3 (x3 & -> & _). apply runs_ret.
  exists nil_error. split; [reflexivity|].
  split; [exists []; reflexivity | reflexivity].
Qed.

(** The commands of [CleanupNetwork] are the three of [natRules] turned
    into deletions, all three whatever their outcome. *)
Lemma CleanupNetwork_commands {P : Platform} (config : ContainerConfig)
    (network : IPNet) :
  net_ParseCIDR (NetworkCIDR config) = Some network ->
  runs (CleanupNetwork config)
    (fun evs r =>
       r = Ok tt
       /\ map fst evs
          = map command (map asDelete (natRules (IPNet_String network)))).
Proof.
  intros Hnet. unfold CleanupNetwork. rewrite Hnet.
  set (net := IPNet_String network).
  apply (runs_bind _ _
           (fun evs r => exists x, evs = [(command (asDelete (nth 0 (natRules net) [])), x)]
                                   /\ r = Ok (exitError x))).
  { apply runs_iptables. intros r. now exists r. }
  2: { intros e1 r (x & _ & ->) Hne. now destruct (Hne (exitError x)). }
  intros e1 a1 (x1 & -> & _).
  apply (runs_bind _ _
           (fun evs r => exists x, evs = [(command (asDelete (nth 1 (natRules net) [])), x)]
                                   /\ r = Ok (exitError x))).
  { apply runs_iptables. intros r. now exists r. }
  2: { intros e2 r (x & _ & ->) Hne. now destruct (Hne (exitError x)). }
  intros e2 a2 (x2 & -> & _).
  apply (runs_bind _ _
           (fun evs r => exists x, evs = [(command (asDelete (nth 2 (natRules net) [])), x)]
                                   /\ r = Ok (exitError x))).
  { apply runs_iptables. intros r. now exists r. }
  2: { intros e3 r (x & _ & ->) Hne. now destruct (Hne (exitError x)). }
  intros e3 a3 (x3 & -> & _). apply runs_ret. now split.
Qed.

(** *** On the host that keeps the rules *)

Lemma iptables_on_netfilter (parseCIDR : string -> option IPNet)
    (show : IPNet -> string) (args : list string) (rules : list Rule)
    (tr : list Event) :
  exists reply,
    iptables (P := netfilter parseCIDR show) args (rules, tr)
    = (Ok (exitError reply),
       (snd (iptablesCommand args rules), tr ++ [(command args, reply)]))%list.
Proof.
  unfold iptables, bind, call, ret. cbn.
  destruct (iptablesCommand args rules) as [reply rules']. now exists reply.
Qed.

(** What a deletion does to the rules. *)
Lemma iptablesCommand_delete (chain : string) (spec : list string)
    (rules : list Rule) :
  snd (iptablesCommand ("-D" :: chain :: spec) rules)
  = removeRule ("filter", chain, spec) rules.
Proof.
  unfold iptablesCommand, removeRule.
  cbn [String.eqb Ascii.eqb Bool.eqb].
  destruct (deleteRule _ _); reflexivity.
Qed.

Lemma iptablesCommand_delete_in (table chain : string) (spec : list string)
    (rules : list Rule) :
  snd (iptablesCommand ("-t" :: table :: "-D" :: chain :: spec) rules)
  = removeRule (table, chain, spec) rules.
Proof.
  unfold iptablesCommand, removeRule.
  cbn [String.eqb Ascii.eqb Bool.eqb].
  destruct (deleteRule _ _); reflexivity.
Qed.

Lemma setupNAT_on_netfilter (parseCIDR : string -> option IPNet)
    (show : IPNet -> string) (config : ContainerConfig) (network : IPNet)
    (rules : list Rule) (tr : list Event) :
  parseCIDR (NetworkCIDR config) = Some network ->
  exists tr',
    setupNAT (P := netfilter parseCIDR show) config (rules, tr)
    = (Ok nil_error, ((rules ++ installedRules (show network))%list, tr')).
Proof.
  intros Hnet. unfold setupNAT. cbn [net_ParseCIDR netfilter IPNet_String].
  rewrite Hnet. unfold orReturn, iptables, bind, call, ret. cbn.
  rewrite <- !List.app_assoc. eexists. reflexivity.
Qed.

Lemma CleanupNetwork_on_netfilter (parseCIDR : string -> option IPNet)
    (show : IPNet -> string) (config : ContainerConfig) (network : IPNet)
    (rules : list Rule) (tr : list Event) :
  parseCIDR (NetworkCIDR config) = Some network ->
  exists tr',
    CleanupNetwork (P := netfilter parseCIDR show) config (rules, tr)
    = (Ok tt,
       (removeRule (nth 2 (installedRules (show network)) ("", "", []))
          (removeRule (nth 1 (installedRules (show network)) ("", "", []))
             (removeRule (nth 0 (installedRules (show network)) ("", "", []))
                rules)),
        tr')).
Proof.
  intros Hnet. unfold CleanupNetwork. cbn [net_ParseCIDR netfilter IPNet_String].
  rewrite Hnet. unfold bind at 1.
  destruct (iptables_on_netfilter parseCIDR show
              ["-t"; "nat"; "-D"; "POSTROUTING"; "-s"; show network;
               "-o"; "eth0"; "-j"; "MASQUERADE"] rules tr) as (x1 & ->).
  unfold bind at 1.
  match goal with
  | |- context [iptables ?a (?r, ?t)] =>
      destruct (iptables_on_netfilter parseCIDR show a r t) as (x2 & ->)
  end.
  unfold bind at 1.
  match goal with
  | |- context [iptables ?a (?r, ?t)] =>
      destruct (iptables_on_netfilter parseCIDR show a r t) as (x3 & ->)
  end.
  unfold ret. eexists. f_equal. f_equal.
  rewrite iptablesCommand_delete_in, !iptablesCommand_delete.
  reflexivity.
Qed.

(** C5: with a network that parses, [CleanupNetwork] runs the three
    commands of [setupNAT] with [-D] in place of [-A], the same tables,
    chains and arguments, all three whatever their outcome; [setupNAT] runs
    its three commands in order up to the first that fails.  On a host that
    keeps the rules of the packet filter, setup followed by cleanup leaves
    the rules there were, up to their order when one of the three was
    already there and exactly otherwise; and cleanup alone, the rules being
    absent, changes nothing and returns. *)
Theorem cleanup_deletes_what_setup_installs (P : Platform)
    (config : ContainerConfig) (network : IPNet) :
  net_ParseCIDR (NetworkCIDR config) = Some network ->
  let net := IPNet_String network in
  map asDelete (natRules net)
  = [["-t"; "nat"; "-D"; "POSTROUTING"; "-s"; net; "-o"; "eth0";
      "-j"; "MASQUERADE"];
     ["-D"; "FORWARD"; "-s"; net; "-j"; "ACCEPT"];
     ["-D"; "FORWARD"; "-d"; net; "-j"; "ACCEPT"]]
  /\ (forall (w : world) (tr : list Event),
        exists evs err w',
          setupNAT config (w, tr) = (Ok err, (w', tr ++ evs))%list
          /\ (exists rest,
                map command (natRules net) = map fst evs ++ rest)%list
          /\ (err = nil_error -> map fst evs = map command (natRules net)))
  /\ (forall (w : world) (tr : list Event),
        exists evs w',
          CleanupNetwork config (w, tr) = (Ok tt, (w', tr ++ evs))%list
          /\ map fst evs = map command (map asDelete (natRules net)))
  /\ (forall (rules : list Rule) (tr : list Event),
        let host := netfilter net_ParseCIDR IPNet_String in
        exists tr1 tr2 after,
          setupNAT (P := host) config (rules, tr)
          = (Ok nil_error, ((rules ++ installedRules net)%list, tr1))
          /\ CleanupNetwork (P := host) config
               ((rules ++ installedRules net)%list, tr1)
             = (Ok tt, (after, tr2))
          /\ Permutation after rules
          /\ ((forall r, In r (installedRules net) -> ~ In r rules) ->
              after = rules
              /\ exists tr3,
                   CleanupNetwork (P := host) config (rules, tr)
                   = (Ok tt, (rules, tr3)))).
Proof.
  intros Hnet net. split; [reflexivity|]. split; [|split].
  - intros w tr.
    destruct (runs_at _ _ w tr (setupNAT_commands config network Hnet))
      as (evs & r & w' & Hrun & err & -> & Hpre & Hall).
    now exists evs, err, w'.
  - intros w tr.
    destruct (runs_at _ _ w tr (CleanupNetwork_commands config network Hnet))
      as (evs & r & w' & Hrun & -> & Hall).
    now exists evs, w'.
  - intros rules tr host. subst host.
    destruct (setupNAT_on_netfilter net_ParseCIDR IPNet_String config network
                rules tr Hnet) as (tr1 & H1).
    destruct (CleanupNetwork_on_netfilter net_ParseCIDR IPNet_String config
                network (rules ++ installedRules net) tr1 Hnet) as (tr2 & H2).
    exists tr1, tr2. eexists. split; [exact H1|]. split; [exact H2|].
    fold net. cbn [nth installedRules].
    destruct (append_then_delete
                ("nat", "POSTROUTING",
                 ["-s"; net; "-o"; "eth0"; "-j"; "MASQUERADE"])
                ("filter", "FORWARD", ["-s"; net; "-j"; "ACCEPT"])
                ("filter", "FORWARD", ["-d"; net; "-j"; "ACCEPT"]) rules)
      as [Hperm Heq]; try discriminate.
    split; [exact Hperm|]. intros Habsent.
    assert (N1 : ~ In ("nat", "POSTROUTING",
                       ["-s"; net; "-o"; "eth0"; "-j"; "MASQUERADE"]) rules)
      by (apply Habsent; simpl; tauto).
    assert (N2 : ~ In ("filter", "FORWARD", ["-s"; net; "-j"; "ACCEPT"]) rules)
      by (apply Habsent; simpl; tauto).
    assert (N3 : ~ In ("filter", "FORWARD", ["-d"; net; "-j"; "ACCEPT"]) rules)
      by (apply Habsent; simpl; tauto).
    split; [exact (Heq N1 N2 N3)|].
    destruct (CleanupNetwork_on_netfilter net_ParseCIDR IPNet_String config
                network rules tr Hnet) as (tr3 & H3).
    exists tr3. rewrite H3. fold net. cbn [nth installedRules].
    now rewrite (removeRule_absent _ _ N1), (removeRule_absent _ _ N2),
      (removeRule_absent _ _ N3).
Qed.

Lemma cleanup_deletes_what_setup_installs_witness :
  let host := scripted (fun _ => succeeded) in
  let existing := [("filter", "FORWARD", ["-s"; "192.168.1.0/24"; "-j"; "ACCEPT"]);
                   ("filter", "INPUT", ["-j"; "DROP"])] in
  net_ParseCIDR (Platform := host) (NetworkCIDR NewDefaultConfig)
  = Some (mkIPNet "192.168.1.0/24" "")
  /\ exists tr1 tr2 after,
       setupNAT (P := netfilter net_ParseCIDR IPNet_String) NewDefaultConfig
         (existing, [])
       = (Ok nil_error,
          ((existing ++ installedRules "192.168.1.0/24")%list, tr1))
       /\ CleanupNetwork (P := netfilter net_ParseCIDR IPNet_String)
            NewDefaultConfig
            ((existing ++ installedRules "192.168.1.0/24")%list, tr1)
          = (Ok tt, (after, tr2))
       /\ Permutation after existing.
Proof.
  intros host existing. split; [reflexivity|].
  destruct (proj2 (proj2 (proj2
              (cleanup_deletes_what_setup_installs host NewDefaultConfig
                 (mkIPNet "192.168.1.0/24" "") eq_refl))) existing [])
    as (tr1 & tr2 & after & H1 & H2 & Hperm & _).
  now exists tr1, tr2, after.
Defined.

End NetworkFacts.

(** ** What the parts of a run call *)

Module CallFacts.
Import Config Spec RunFacts.

Section WithPlatform.
Context {P : Platform}.
Variable ok : Call -> bool.

Lemma returns_ret {A} (a : A) : runs (ret a) (returns ok).
Proof. apply runs_ret. split; [constructor | now exists a]. Qed.

Lemma returns_call (c : Call) : ok c = true -> runs (call c) (returns ok).
Proof.
  intros Hc. apply runs_call. intros r. split; [|now exists r].
  constructor; [exact Hc | constructor].
Qed.

Lemma returns_bind {A B} (m : M A) (k : A -> M B) :
  runs m (returns ok) -> (forall a, runs (k a) (returns ok)) ->
  runs (bind m k) (returns ok).
Proof.
  intros Hm Hk. apply (runs_bind m k (returns ok)); [exact Hm | |].
  - intros e1 a [H1 _]. apply (runs_weaken _ _ _ (Hk a)).
    intros e2 r [H2 Hr]. split; [now apply Forall_app | exact Hr].
  - intros e1 r [_ (a & ->)] Hne. now destruct (Hne a).
Qed.

Lemma returns_check (m : M error) (wrap : string -> error) (k : M error) :
  runs m (returns ok) -> runs k (returns ok) ->
  runs (orReturn m wrap k) (returns ok).
Proof.
  intros Hm Hk. unfold orReturn. apply returns_bind; [exact Hm|].
  intros [msg|]; [apply returns_ret | exact Hk].
Qed.

Lemma returns_errOf (c : Call) : ok c = true -> runs (errOf c) (returns ok).
Proof.
  intros Hc. unfold errOf. apply returns_bind; [now apply returns_call|].
  intros r. apply returns_ret.
Qed.

Lemma returns_defer {A} (cleanup : M unit) (body : M A) :
  runs cleanup (returns ok) -> runs body (returns ok) ->
  runs (defer cleanup body) (returns ok).
Proof.
  intros Hc Hb w tr. unfold defer.
  destruct (Hb w tr) as (e1 & Htr & H1 & (a & Hr)).
  destruct (body (w, tr)) as [r [w1 tr1]]. simpl in Htr, Hr. subst r tr1.
  destruct (Hc w1 (tr ++ e1)%list) as (e2 & Htr2 & H2 & _).
  exists (e1 ++ e2)%list. simpl. rewrite Htr2, List.app_assoc.
  split; [reflexivity|]. split; [now apply Forall_app | now exists a].
Qed.

End WithPlatform.

(** One step of a run whose calls are all in the class. *)
Ltac returns_step :=
  first
    [ apply returns_ret
    | apply returns_check
    | apply returns_errOf; reflexivity
    | apply returns_call; reflexivity
    | apply returns_defer
    | apply returns_bind; [|intros ?]
    | match goal with
      | |- runs (match ?x with _ => _ end) _ => destruct x
      | |- runs (if ?b then _ else _) _ => destruct b
      end ].

Section Parts.
Context {P : Platform}.

Lemma setCgroupValue_calls (ok : Call -> bool) (dir filename value : string) :
  (forall p, ok (Stat p) = true) ->
  (forall p d m, ok (WriteFile p d m) = true) ->
  runs (CgroupSetup.setCgroupValue dir filename value) (returns ok).
Proof.
  intros Hs Hw. unfold CgroupSetup.setCgroupValue.
  apply returns_bind; [apply returns_call, Hs | intros st].
  destruct (os_IsNotExist (r_err st)); [apply returns_ret|].
  apply returns_bind; [apply returns_call, Hw | intros wr].
  destruct (r_err wr); apply returns_ret.
Qed.

Lemma SetupCgroups_calls (config : CgroupSetup.CgroupConfig) :
  runs (CgroupSetup.SetupCgroups config) (returns inChild).
Proof.
  unfold CgroupSetup.SetupCgroups.
  repeat first [ apply setCgroupValue_calls; reflexivity | returns_step ].
Qed.

Lemma bindMountLoop_calls (mounts : list Mount) (rootFS : string) :
  runs (Filesystem.bindMountLoop mounts rootFS) (returns inChild).
Proof.
  induction mounts as [|mount mounts IH]; cbn [Filesystem.bindMountLoop].
  - apply returns_ret.
  - apply returns_check; [|exact IH].
    unfold Filesystem.createBindMount. repeat returns_step.
Qed.

Lemma SetupFilesystem_calls (config : ContainerConfig) :
  runs (Filesystem.SetupFilesystem config) (returns inChild).
Proof.
  unfold Filesystem.SetupFilesystem, Filesystem.setupBindMounts,
    Filesystem.copyResolvConf.
  apply returns_check; [apply bindMountLoop_calls|].
  repeat returns_step.
Qed.

Lemma CleanupFilesystem_calls :
  runs Filesystem.CleanupFilesystem (returns inChild).
Proof. unfold Filesystem.CleanupFilesystem. repeat returns_step. Qed.

(** [validateCommand] returns: its index expression is in range. *)
Lemma validateCommand_returns (command : list string) :
  exists err, Utils.validateCommand command = Ok err.
Proof.
  unfold Utils.validateCommand. destruct command as [|c0 command].
  - eexists. reflexivity.
  - replace (llen (c0 :: command) =? 0) with false
      by (symmetry; apply Z.eqb_neq; unfold llen; simpl; lia).
    replace (elem (c0 :: command) 0) with (Some c0).
    + cbn. destruct (String.eqb c0 ""); eexists; reflexivity.
    + unfold elem. simpl length.
      replace ((0 <=? 0) && (0 <? Z.of_nat (S (length command)))) with true;
        [reflexivity|].
      symmetry. apply andb_true_iff. split; [reflexivity|].
      apply Z.ltb_lt. lia.
Qed.

Lemma validatePath_calls (path : string) :
  runs (Utils.validatePath path) (returns inParent).
Proof.
  unfold Utils.validatePath, Utils.fileExists. repeat returns_step.
Qed.

Lemma validateMounts_calls (mounts : list Mount) (i : Z) :
  runs (Container.validateMounts i mounts) (returns inParent).
Proof.
  revert i. induction mounts as [|mount mounts IH]; intros i;
    cbn [Container.validateMounts].
  - apply returns_ret.
  - apply returns_check; [apply validatePath_calls|].
    destruct (String.eqb (Destination mount) ""); [apply returns_ret | apply IH].
Qed.

Lemma validateConfig_calls (config : ContainerConfig) :
  runs (Container.validateConfig config) (returns inParent).
Proof.
  unfold Container.validateConfig.
  apply returns_check.
  - destruct (validateCommand_returns (Command config)) as (err & ->).
    apply runs_lift. split; [constructor | now exists err].
  - apply returns_check; [apply validatePath_calls | apply validateMounts_calls].
Qed.

Lemma mkdirLoop_calls (dirs : list string) :
  runs (Filesystem.mkdirLoop dirs) (returns inParent).
Proof.
  induction dirs as [|dir dirs IH]; cbn [Filesystem.mkdirLoop].
  - apply returns_ret.
  - apply returns_check; [apply returns_errOf; reflexivity | exact IH].
Qed.

Lemma PrepareRootFS_calls (rootfsPath : string) :
  runs (Filesystem.PrepareRootFS rootfsPath) (returns inParent).
Proof.
  unfold Filesystem.PrepareRootFS.
  apply returns_bind; [apply returns_call; reflexivity | intros st].
  destruct (os_IsNotExist (r_err st)); [apply returns_ret | apply mkdirLoop_calls].
Qed.

Lemma CleanupNetwork_calls (config : ContainerConfig) :
  runs (Network.CleanupNetwork config) (returns inParent).
Proof.
  unfold Network.CleanupNetwork, Network.iptables. repeat returns_step.
Qed.

Lemma SetupNetworking_calls (pid : Z) (config : ContainerConfig) :
  runs (Network.SetupNetworking pid config) (returns inParent).
Proof.
  unfold Network.SetupNetworking, Network.createVethPair,
    Network.configureHostNetwork, Network.configureContainerNetwork,
    Network.bringUpLoopback, Network.setupNAT, Network.iptables.
  repeat returns_step.
Qed.

End Parts.

End CallFacts.

(** ** Exit codes *)

Module ExitFacts.
Import Config Spec RunFacts CallFacts Main.

Section Deciding.
Context {P : Platform}.
Variables ok decisive : Call -> bool.
Variable excused : list Event -> Prop.
Hypothesis ok_not_decisive : forall c, ok c = true -> decisive c = false.
Hypothesis ok_not_euid : ok Geteuid = false.
Hypothesis decisive_not_euid : decisive Geteuid = false.
Hypothesis excused_later :
  forall e1 e2 : list Event, excused e2 -> excused (e1 ++ e2)%list.

Lemma decided_prefix (e1 e2 : list Event) (r : res error) :
  Forall (fun e => ok (fst e) = true) e1 ->
  decided ok decisive excused e2 r ->
  decided ok decisive excused (e1 ++ e2) r.
Proof.
  intros H1 [(pre & ev & post & -> & Hd & Hpre & Hpost & ->) | (H2 & Hr)].
  - left. exists (e1 ++ pre)%list, ev, post.
    split; [now rewrite List.app_assoc|]. split; [exact Hd|].
    split; [now apply Forall_app|]. now split.
  - right. split; [now apply Forall_app|].
    destruct Hr as [[-> Hx] | Hr]; [left | now right].
    split; [reflexivity | now apply excused_later].
Qed.

Lemma decided_after {A} (m : M A) (k : A -> M error) :
  runs m (returns ok) ->
  (forall a, runs (k a) (decided ok decisive excused)) ->
  runs (bind m k) (decided ok decisive excused).
Proof.
  intros Hm Hk. apply (runs_bind m k (returns ok)); [exact Hm | |].
  - intros e1 a [H1 _]. apply (runs_weaken _ _ _ (Hk a)).
    intros e2 r H2. now apply decided_prefix.
  - intros e1 r [_ (a & ->)] Hne. now destruct (Hne a).
Qed.

Lemma decided_error (msg : string) :
  runs (ret (Some msg)) (decided ok decisive excused).
Proof.
  apply runs_ret. right. split; [constructor|]. right. now exists msg.
Qed.

Lemma decided_check (m : M error) (pieces : string -> list string)
    (k : M error) :
  runs m (returns ok) -> runs k (decided ok decisive excused) ->
  runs (orReturn m (fun e => Errorf (pieces e)) k)
    (decided ok decisive excused).
Proof.
  intros Hm Hk. unfold orReturn. apply decided_after; [exact Hm|].
  intros [msg|]; [apply decided_error | exact Hk].
Qed.

(** The deciding call, some calls of the class, and the error of the
    deciding call returned. *)
Lemma decided_by {B} (c : Call) (rest : M B) :
  decisive c = true -> runs rest (returns ok) ->
  runs (r <- call c ;; rest ;;; ret (exitError r))
    (decided ok decisive excused).
Proof.
  intros Hc Hrest.
  apply (runs_bind _ _ (fun evs r => exists x, evs = [(c, x)] /\ r = Ok x)).
  - apply runs_call. intros r. now exists r.
  - intros e1 a (x & -> & E). injection E as <-.
    apply (runs_bind _ _ (returns ok)); [exact Hrest | |].
    + intros e2 b [H2 _]. apply runs_ret. left.
      exists [], (c, a), e2. rewrite List.app_nil_r.
      split; [reflexivity|]. split; [exact Hc|].
      split; [constructor|]. now split.
    + intros e2 r [_ (b & ->)] Hne. now destruct (Hne b).
  - intros e1 r (x & _ & ->) Hne. now destruct (Hne x).
Qed.

(** From the error of the deciding run to the exit of the process. *)
Lemma exits_of_decided (m : M error) (helped : Prop) :
  runs m (decided ok decisive excused) ->
  runs (err <- m ;;
        match err with
        | Some _ => os_Exit 1
        | None => ret tt
        end)
    (exitsBy decisive helped excused).
Proof.
  intros Hm.
  assert (Hin : forall (pre : list Event) (ev : Event) post ev',
             Forall (fun e => ok (fst e) = true) pre ->
             Forall (fun e => ok (fst e) = true) post ->
             In ev' (pre ++ ev :: post) -> decisive (fst ev') = true ->
             ev' = ev).
  { intros pre ev post ev' Hpre Hpost Hev Hd.
    apply in_app_or in Hev as [Hev | [<- | Hev]];
      [exfalso | reflexivity | exfalso].
    - rewrite Forall_forall in Hpre.
      rewrite (ok_not_decisive _ (Hpre _ Hev)) in Hd. discriminate.
    - rewrite Forall_forall in Hpost.
      rewrite (ok_not_decisive _ (Hpost _ Hev)) in Hd. discriminate. }
  assert (Hquiet : forall (evs : list Event) ev',
             Forall (fun e => ok (fst e) = true) evs ->
             In ev' evs -> decisive (fst ev') = true -> False).
  { intros evs ev' Hall Hev Hd. rewrite Forall_forall in Hall.
    rewrite (ok_not_decisive _ (Hall _ Hev)) in Hd. discriminate. }
  assert (Heuid : forall (evs : list Event) reply,
             Forall (fun e => ok (fst e) = true) evs ->
             In (Geteuid, reply) evs -> False).
  { intros evs reply Hall Hev. rewrite Forall_forall in Hall.
    specialize (Hall _ Hev). cbn [fst] in Hall. congruence. }
  apply (runs_bind m _ (decided ok decisive excused)); [exact Hm | |].
  - intros e1 err H1.
    assert (Hgen : exitsBy decisive helped excused e1
                     (match err with Some _ => Exit 1 | None => Ok tt end)).
    { destruct H1 as [(pre & ev & post & -> & Hd & Hpre & Hpost & E)
                     | (Hall & [[E _] | (msg & E)])].
      - injection E as ->.
        exists (match exitError (snd ev) with None => 0 | Some _ => 1 end).
        split; [now destruct (exitError (snd ev))|].
        split; [destruct (exitError (snd ev)); tauto|].
        split; [|split; [|split]].
        + intros ev' Hin' Hd'.
          now rewrite (Hin pre ev post ev' Hpre Hpost Hin' Hd').
        + intros _. right. exists ev. split; [|exact Hd].
          apply in_or_app. right. now left.
        + destruct (exitError (snd ev)); discriminate.
        + intros reply Hin'.
          apply in_app_or in Hin' as [Hin' | [E | Hin']].
          * exact (Heuid pre reply Hpre Hin').
          * rewrite E in Hd. cbn [fst] in Hd. congruence.
          * exact (Heuid post reply Hpost Hin').
      - discriminate E.
      - injection E as ->. exists 1. split; [reflexivity|].
        split; [tauto|]. split; [|split; [|split]].
        + intros ev' Hin' Hd'. destruct (Hquiet e1 ev' Hall Hin' Hd').
        + discriminate.
        + discriminate.
        + intros reply Hin'. exact (Heuid e1 reply Hall Hin'). }
    destruct err as [msg|].
    + apply runs_exit. now rewrite List.app_nil_r.
    + apply runs_ret. now rewrite List.app_nil_r.
  - intros e1 r H1 Hne.
    destruct H1 as [(pre & ev & post & _ & _ & _ & _ & ->)
                   | (Hall & [[-> Hx] | (msg & ->)])].
    + now destruct (Hne (exitError (snd ev))).
    + exists 2. split; [reflexivity|]. split; [tauto|].
      split; [|split; [|split]].
      * intros ev' Hin' Hd'. destruct (Hquiet e1 ev' Hall Hin' Hd').
      * discriminate.
      * intros _. exact Hx.
      * intros reply Hin'. exact (Heuid e1 reply Hall Hin').
    + now destruct (Hne (Some msg)).
Qed.

End Deciding.

Section Roles.
Context {P : Platform}.

Lemma inChild_not_isRun (c : Call) : inChild c = true -> isRun c = false.
Proof. now destruct c. Qed.

Lemma inParent_not_isWait (c : Call) : inParent c = true -> isWait c = false.
Proof. now destruct c. Qed.

Lemma statBroke_later (e1 e2 : list Event) :
  statBroke e2 -> statBroke (e1 ++ e2).
Proof.
  intros (path & reply & Hin & He & Hn). exists path, reply.
  split; [apply in_or_app; now right | now split].
Qed.

(** [dirExists] returns after one call, or panics when the stat broke. *)
Lemma dirExists_calls (path : string) :
  runs (Utils.dirExists path)
    (fun evs r =>
       Forall (fun e => inChild (fst e) = true) evs
       /\ ((r = Panic /\ statBroke evs) \/ exists b, r = Ok b)).
Proof.
  unfold Utils.dirExists.
  apply (runs_bind _ _ (fun evs r =>
           exists x, evs = [(Stat path, x)] /\ r = Ok x)).
  - apply runs_call. intros r. now exists r.
  - intros e1 st (x & -> & E). injection E as <-.
    assert (Hall : Forall (fun e : Event => inChild (fst e) = true)
                     ([(Stat path, st)] ++ []))
      by (repeat constructor).
    destruct (os_IsNotExist (r_err st)) eqn:Hst; cbn [negb].
    + apply runs_ret. split; [exact Hall | right; now eexists].
    + destruct (r_err st) as [e|] eqn:He.
      * apply runs_lift. split; [exact Hall|]. left. split; [reflexivity|].
        exists path, st. split; [now left|]. rewrite He.
        split; [discriminate | exact Hst].
      * apply runs_ret. split; [exact Hall | right; now eexists].
  - intros e1 r (x & _ & ->) Hne. now destruct (Hne x).
Qed.

(** [configFromEnv] gives a configuration or an error. *)
Lemma configFromEnv_result (env : list string) :
  EnvBridge.configFromEnv env <> (None, None).
Proof.
  unfold EnvBridge.configFromEnv.
  destruct (negb _); [|discriminate].
  destruct (Utils.parsePID _) as [n [e|]]; discriminate.
Qed.

(** In the child the run of the user command decides. *)
Lemma RunChildProcess_decided (env command : list string) :
  command <> [] ->
  runs (Container.RunChildProcess env command)
    (decided inChild isRun statBroke).
Proof.
  intros Hcommand. unfold Container.RunChildProcess.
  pose proof (configFromEnv_result env) as Hconfig.
  destruct (EnvBridge.configFromEnv env) as [[config|] [e|]];
    try apply decided_error; [|now destruct Hconfig].
  apply decided_check; [exact statBroke_later | apply SetupCgroups_calls|].
  apply decided_check; [exact statBroke_later | apply SetupFilesystem_calls|].
  destruct command as [|name command]; [now destruct Hcommand|].
  replace (elem (name :: command) 0) with (Some name)
    by (unfold elem; simpl length;
        replace ((0 <=? 0) && (0 <? Z.of_nat (S (length command))))
          with true; [reflexivity|];
        symmetry; apply andb_true_iff; split;
        [reflexivity | apply Z.ltb_lt; lia]).
  cbn [orPanic].
  apply decided_after;
    [exact statBroke_later
    | apply runs_lift; split; [constructor | now eexists] |].
  intros name'.
  apply (runs_bind _ _ (fun evs r =>
           Forall (fun e => inChild (fst e) = true) evs
           /\ ((r = Panic /\ statBroke evs) \/ exists b, r = Ok b)));
    [apply dirExists_calls | |].
  - intros e1 app [Hall _].
    apply (runs_weaken _ (decided inChild isRun statBroke) _).
    + apply (decided_by inChild isRun); [reflexivity|].
      apply CleanupFilesystem_calls.
    + intros e2 r H2. apply decided_prefix; [exact statBroke_later | exact Hall | exact H2].
  - intros e1 r [Hall [[-> Hx] | (b & ->)]] Hne; [|now destruct (Hne b)].
    right. split; [exact Hall|]. left. now split.
Qed.

(** In the parent the wait for the child decides, and nothing panics. *)
Lemma RunContainer_decided (excused : list Event -> Prop)
    (environ : list string) (config : ContainerConfig) :
  (forall e1 e2 : list Event, excused e2 -> excused (e1 ++ e2)%list) ->
  runs (Container.RunContainer environ config)
    (decided inParent isWait excused).
Proof.
  intros Hlater. unfold Container.RunContainer.
  apply decided_check; [exact Hlater | apply validateConfig_calls|].
  apply decided_check; [exact Hlater | apply PrepareRootFS_calls|].
  apply decided_after; [exact Hlater | apply returns_call; reflexivity|].
  intros started. destruct (r_err started); [apply decided_error|].
  apply decided_after; [exact Hlater | apply SetupNetworking_calls|].
  intros [msg|].
  - apply decided_after; [exact Hlater | apply returns_call; reflexivity|].
    intros _. apply decided_error.
  - apply (decided_by inParent isWait); [reflexivity|].
    apply CleanupNetwork_calls.
Qed.

Lemma handleChild_exits (proc : Process) (args : list string) :
  runs (handleChild proc args) (exitsBy isRun False statBroke).
Proof.
  unfold handleChild. destruct args as [|arg args].
  - apply runs_exit. exists 1. split; [reflexivity|]. split; [tauto|].
    split; [intros ev []|]. split; [discriminate|].
    split; [discriminate | intros reply []].
  - replace (llen (arg :: args) =? 0) with false
      by (symmetry; apply Z.eqb_neq; unfold llen; simpl; lia).
    apply (exits_of_decided inChild isRun statBroke inChild_not_isRun
             eq_refl eq_refl).
    apply RunChildProcess_decided. discriminate.
Qed.

(** A successful [ParseFlags] gives a configuration. *)
Lemma ParseFlags_result (getwd : string * error) (args : list string) :
  Cli.ParseFlags getwd args <> Ok (None, None).
Proof.
  unfold Cli.ParseFlags.
  destruct (Nat.eqb _ 0).
  - cbn [bindr].
    destruct (Cli.parseMountFlags _ _) as [[ms [e|]]| | |]; cbn;
      try discriminate.
    destruct (llen args =? 0); discriminate.
  - destruct (Flag.Parse _ _ _) as [[v [e|]]| | |]; cbn; try discriminate.
    destruct (Cli.parseMountFlags _ _) as [[ms [e|]]| | |]; cbn;
      try discriminate.
    destruct (llen _ =? 0); discriminate.
Qed.

Lemma handleRun_exits (proc : Process) (args : list string) :
  runs (handleRun proc args)
    (exitsBy isWait (Cli.ParseFlags (Getwd proc) args = Exit 0)
       (fun _ => Cli.ParseFlags (Getwd proc) args = Exit 2)).
Proof.
  unfold handleRun.
  assert (Hnone : forall code (helped refused : Prop),
             (code = 0 \/ code = 1 \/ code = 2) ->
             (code = 0 -> helped) -> (code = 2 -> refused) ->
             forall r, exitStatus r = Some code ->
             exitsBy isWait helped (fun _ => refused) [] r).
  { intros code helped refused Hc Hh Hr r Hcode. exists code.
    split; [exact Hcode|]. split; [exact Hc|]. split; [intros ev []|].
    split; [intros H0; left; now apply Hh|].
    split; [exact Hr | intros reply []]. }
  pose proof (ParseFlags_result (Getwd proc) args) as Hsome.
  destruct (FlagFacts.ParseFlags_ends (Getwd proc) args)
    as [(x & E) | [E | E]]; rewrite E in *.
  - destruct x as [[config|] [e|]]; [| | |now destruct Hsome].
    + apply (runs_bind _ _ (fun evs r => evs = [] /\ r = Ok (Some config, Some e)));
        [now apply runs_lift |
        | intros e1 r [_ ->] Hne; now destruct (Hne (Some config, Some e))].
      intros e1 a [-> Ea]. injection Ea as ->. apply runs_exit.
      apply (Hnone 1); [tauto | discriminate | discriminate | reflexivity].
    + apply (runs_bind _ _ (fun evs r => evs = [] /\ r = Ok (Some config, None)));
        [now apply runs_lift |
        | intros e1 r [_ ->] Hne; now destruct (Hne (Some config, None))].
      intros e1 a [-> Ea]. injection Ea as ->.
      apply (exits_of_decided inParent isWait
               (fun _ => Ok (Some config, None) = Exit 2)
               inParent_not_isWait eq_refl eq_refl).
      apply RunContainer_decided. intros _ _ H. exact H.
    + apply (runs_bind _ _ (fun evs r => evs = [] /\ r = Ok (None, Some e)));
        [now apply runs_lift |
        | intros e1 r [_ ->] Hne; now destruct (Hne (None, Some e))].
      intros e1 a [-> Ea]. injection Ea as ->. apply runs_exit.
      apply (Hnone 1); [tauto | discriminate | discriminate | reflexivity].
  - apply (runs_bind _ _ (fun evs r => evs = [] /\ r = Exit 0));
      [now apply runs_lift | intros e1 a [_ Ea]; discriminate Ea |].
    intros e1 r [-> ->] _.
    apply (Hnone 0); [tauto | tauto | discriminate | reflexivity].
  - apply (runs_bind _ _ (fun evs r => evs = [] /\ r = Exit 2));
      [now apply runs_lift | intros e1 a [_ Ea]; discriminate Ea |].
    intros e1 r [-> ->] _.
    apply (Hnone 2); [tauto | discriminate | tauto | reflexivity].
Qed.

End Roles.

(** A role entered after the check for root: its calls come after the one
    that asked for the user id. *)
Lemma after_root {P : Platform} (role : M unit) (decisive : Call -> bool)
    (helped : Prop) (excused : list Event -> Prop)
    (w w1 : world) (tr : list Event) (r0 : Reply) :
  runs role (exitsBy decisive helped excused) ->
  r_int r0 = 0 ->
  decisive Geteuid = false ->
  (forall evs, excused evs -> excused ((Geteuid, r0) :: evs)) ->
  exists evs r w' code,
    role (w1, (tr ++ [(Geteuid, r0)])%list) = (r, (w', tr ++ evs))%list
    /\ exitStatus r = Some code
    /\ (code = 0 \/ code = 1 \/ code = 2)
    /\ (forall ev, In ev evs -> decisive (fst ev) = true ->
        code = match exitError (snd ev) with
               | None => 0
               | Some _ => 1
               end)
    /\ (code = 0 -> helped \/ exists ev, In ev evs /\ decisive (fst ev) = true)
    /\ (code = 2 -> excused evs)
    /\ (forall reply, In (Geteuid, reply) evs -> r_int reply <> 0 -> code = 1).
Proof.
  intros Hrole Hroot Hd Hx.
  destruct (runs_at _ _ w1 (tr ++ [(Geteuid, r0)])%list Hrole)
    as (evs & r & w' & Hrun & code & Hcode & Hrange & Hdec & Hzero & Htwo
        & Heuid).
  exists ((Geteuid, r0) :: evs), r, w', code.
  split; [rewrite Hrun; now rewrite <- List.app_assoc|].
  split; [exact Hcode|]. split; [exact Hrange|].
  split; [|split; [|split]].
  - intros ev [<- | Hin] Hev; [cbn [fst] in Hev; congruence|].
    now apply Hdec.
  - intros H0. destruct (Hzero H0) as [Hh | (ev & Hin & Hev)]; [now left|].
    right. exists ev. split; [now right | exact Hev].
  - intros H2. apply Hx, Htwo, H2.
  - intros reply [E | Hin] Hne.
    + injection E as <-. now destruct Hne.
    + destruct (Heuid reply Hin).
Qed.

(** The process ends with status 0, 1 or 2.  In the child, once the user
    command has run the status is 0 if the command ended with status 0 and
    1 otherwise, whatever the status of the command was; it is 0 only after
    the command has run, and 2 only after the panic of a broken stat.  In
    the parent, once the child has been waited for the status is 0 if the
    child ended with status 0 and 1 otherwise; it is 0 only after that wait
    or when the flag package exits for a help flag, and 2 only when the
    flag package refuses the flags.  With any other first argument the
    status is not 2, and without root it is 1. *)
Lemma exit_codes_by_role (P : Platform) (proc : Process) (w : world)
    (tr : list Event) :
  exists evs r w' code,
    main proc (w, tr) = (r, (w', tr ++ evs))%list
    /\ exitStatus r = Some code
    /\ (code = 0 \/ code = 1 \/ code = 2)
    /\ (forall exe rest,
          Args proc = exe :: "child" :: rest ->
          (forall name args dir reply,
              In (CmdRun name args dir, reply) evs ->
              code = match exitError reply with
                     | None => 0
                     | Some _ => 1
                     end)
          /\ (code = 0 ->
              exists name args dir reply,
                In (CmdRun name args dir, reply) evs)
          /\ (code = 2 -> statBroke evs))
    /\ (forall exe rest,
          Args proc = exe :: "run" :: rest ->
          (forall pid reply,
              In (CmdWait pid, reply) evs ->
              code = match exitError reply with
                     | None => 0
                     | Some _ => 1
                     end)
          /\ (code = 0 ->
              Cli.ParseFlags (Getwd proc) rest = Exit 0
              \/ exists pid reply, In (CmdWait pid, reply) evs)
          /\ (code = 2 -> Cli.ParseFlags (Getwd proc) rest = Exit 2))
    /\ ((forall exe rest, Args proc <> exe :: "child" :: rest) ->
        (forall exe rest, Args proc <> exe :: "run" :: rest) ->
        code <> 2)
    /\ (forall reply, In (Geteuid, reply) evs -> r_int reply <> 0 -> code = 1).
Proof.
  unfold main.
  destruct (Args proc) as [|exe [|arg1 rest]] eqn:EA.
  - exists [], (Exit 1), w, 1. rewrite List.app_nil_r.
    repeat split; try tauto; try discriminate; intros; contradiction.
  - exists [], (Exit 1), w, 1. rewrite List.app_nil_r.
    repeat split; try tauto; try discriminate; intros; contradiction.
  - replace (llen (exe :: arg1 :: rest) <? 2) with false
      by (symmetry; apply Z.ltb_ge; unfold llen; simpl; lia).
    replace (elem (exe :: arg1 :: rest) 1) with (Some arg1)
      by (unfold elem; simpl length;
          replace ((0 <=? 1) && (1 <? Z.of_nat (S (S (length rest)))))
            with true; [reflexivity|];
          symmetry; apply andb_true_iff; split;
          [reflexivity | apply Z.ltb_lt; lia]).
    cbn [orPanic]. unfold bind at 1, lift at 1.
    cbn [skipn].
    destruct (String.eqb arg1 "help" || String.eqb arg1 "--help"
              || String.eqb arg1 "-h") eqn:Hhelp.
    { exists [], (Ok tt), w, 0. rewrite List.app_nil_r.
      split; [reflexivity|]. split; [reflexivity|]. split; [tauto|].
      split; [|split; [|split]].
      - intros exe' rest' E. injection E as _ -> _. discriminate Hhelp.
      - intros exe' rest' E. injection E as _ -> _. discriminate Hhelp.
      - discriminate.
      - intros reply []. }
    destruct (String.eqb arg1 "version" || String.eqb arg1 "--version"
              || String.eqb arg1 "-v") eqn:Hversion.
    { exists [], (Ok tt), w, 0. rewrite List.app_nil_r.
      split; [reflexivity|]. split; [reflexivity|]. split; [tauto|].
      split; [|split; [|split]].
      - intros exe' rest' E. injection E as _ -> _. discriminate Hversion.
      - intros exe' rest' E. injection E as _ -> _. discriminate Hversion.
      - discriminate.
      - intros reply []. }
    unfold bind at 1, Utils.checkRoot at 1, bind at 1, call at 1.
    cbn [fst snd].
    destruct (syscall Geteuid w) as [r0 w1].
    destruct (r_int r0 =? 0) eqn:Hroot; cbn [negb ret].
    2: { exists [(Geteuid, r0)], (Exit 1), w1, 1.
         split; [reflexivity|]. split; [reflexivity|]. split; [tauto|].
         split; [|split; [|split]].
         - intros exe' rest' _. split; [|split; discriminate].
           intros name args dir reply [E|[]]. discriminate E.
         - intros exe' rest' _. split; [|split; discriminate].
           intros pid reply [E|[]]. discriminate E.
         - discriminate.
         - reflexivity. }
    apply Z.eqb_eq in Hroot.
    destruct (String.eqb_spec arg1 "run") as [-> | Hrun].
    { destruct (after_root (handleRun proc rest) isWait _ _ w w1 tr r0
                  (handleRun_exits proc rest) Hroot eq_refl (fun _ H => H))
        as (evs & r & w' & code & Hrun & Hcode & Hrange & Hdec & Hzero & Htwo
            & Heuid).
      exists evs, r, w', code.
      split; [exact Hrun|]. split; [exact Hcode|]. split; [exact Hrange|].
      split; [|split; [|split; [|exact Heuid]]].
      - intros exe' rest' E. discriminate E.
      - intros exe' rest' E. injection E as _ <-. split; [|split].
        + intros pid reply Hin. exact (Hdec (CmdWait pid, reply) Hin eq_refl).
        + intros H0. destruct (Hzero H0) as [Hh | ([c reply] & Hin & Hev)];
            [now left|].
          right. destruct c; try discriminate Hev.
          match goal with
          | H : In (CmdWait ?p, ?x) _ |- _ => exists p, x; exact H
          end.
        + exact Htwo.
      - intros _ Hnot. now destruct (Hnot exe rest). }
    destruct (String.eqb_spec arg1 "child") as [-> | Hchild].
    { destruct (after_root (handleChild proc rest) isRun False statBroke
                  w w1 tr r0 (handleChild_exits proc rest) Hroot eq_refl
                  (fun evs => statBroke_later [(Geteuid, r0)] evs))
        as (evs & r & w' & code & Hrun' & Hcode & Hrange & Hdec & Hzero & Htwo
            & Heuid).
      exists evs, r, w', code.
      split; [exact Hrun'|]. split; [exact Hcode|]. split; [exact Hrange|].
      split; [|split; [|split; [|exact Heuid]]].
      - intros exe' rest' E. injection E as _ <-. split; [|split].
        + intros name args dir reply Hin.
          exact (Hdec (CmdRun name args dir, reply) Hin eq_refl).
        + intros H0. destruct (Hzero H0) as [[] | ([c reply] & Hin & Hev)].
          destruct c; try discriminate Hev.
          match goal with
          | H : In (CmdRun ?n ?a ?d, ?x) _ |- _ => exists n, a, d, x; exact H
          end.
        + exact Htwo.
      - intros exe' rest' E. discriminate E.
      - intros Hnot _. now destruct (Hnot exe rest). }
    exists [(Geteuid, r0)], (Exit 1), w1, 1.
    split; [reflexivity|]. split; [reflexivity|]. split; [tauto|].
    split; [|split; [|split]].
    + intros exe' rest' E. injection E as _ -> _. now destruct Hchild.
    + intros exe' rest' E. injection E as _ -> _. now destruct Hrun.
    + discriminate.
    + reflexivity.
Qed.

(** C4, the claim as stated fails: the user command ends with status 42,
    the child and then the runtime end with status 1.  A command that ends
    with status 0 gives 0, and a flag the flag package refuses gives 2. *)
Lemma exit_status_not_propagated :
  Hosts.runtimeExit 42 ["/bin/sh"; "-c"; "exit 42"] = Some 1
  /\ Hosts.runtimeExit 42 ["/bin/sh"; "-c"; "exit 42"] <> Some 42
  /\ exitStatus
       (fst (main (P := Hosts.inContainer 42)
               (mkProcess ["/proc/self/exe"; "child"; "/bin/sh"; "-c"; "exit 42"]
                  ["CONTAINER_HOSTNAME=container"; "CONTAINER_MOUNT_COUNT=1";
                   "CONTAINER_MOUNT_0_SOURCE=/work";
                   "CONTAINER_MOUNT_0_DEST=/app";
                   "CONTAINER_MOUNT_0_READONLY=false"]
                  ("/", None))
               (tt, [])))
     = Some 1
  /\ Hosts.runtimeExit 0 ["/bin/true"] = Some 0
  /\ Hosts.runtimeExit 0 ["--bogus"; "/bin/true"] = Some 2.
Proof.
  repeat split; try (vm_compute; reflexivity). vm_compute. discriminate.
Qed.

End ExitFacts.

(** ** The helpers on slices *)

Module SliceFacts.
Import GoMap Helpers.

Lemma index_store (m : GoMap bool) (key x : string) :
  index false (store m key true) x = String.eqb key x || index false m x.
Proof.
  unfold index. induction m as [|[k old] m IH]; cbn [store lookup].
  - destruct (String.eqb key x); reflexivity.
  - destruct (String.eqb_spec k key) as [->|Hk]; cbn [lookup].
    + destruct (String.eqb key x); reflexivity.
    + destruct (String.eqb_spec k x) as [->|Hx].
      * destruct (String.eqb_spec key x) as [->|_]; [now destruct Hk|].
        reflexivity.
      * exact IH.
Qed.

(** What [result] holds already stays in front. *)
Lemma uniqueLoop_result (slice : list string) (keys : GoMap bool)
    (result : list string) :
  uniqueLoop slice keys result = (result ++ uniqueLoop slice keys [])%list.
Proof.
  revert keys result. induction slice as [|item slice IH]; intros keys result;
    cbn [uniqueLoop].
  - now rewrite List.app_nil_r.
  - destruct (index false keys item); cbn [negb].
    + apply IH.
    + rewrite IH, (IH _ ([] ++ [item])%list), <- List.app_assoc.
      reflexivity.
Qed.

Lemma uniqueLoop_cons (item : string) (slice : list string)
    (keys : GoMap bool) :
  uniqueLoop (item :: slice) keys [] =
  if index false keys item then uniqueLoop slice keys []
  else item :: uniqueLoop slice (store keys item true) [].
Proof.
  cbn [uniqueLoop]. destruct (index false keys item); cbn [negb];
    [reflexivity|].
  now rewrite uniqueLoop_result.
Qed.

(** The loop looks at the map only through its lookups. *)
Lemma uniqueLoop_ext (slice : list string) (k1 k2 : GoMap bool) :
  (forall x, index false k1 x = index false k2 x) ->
  uniqueLoop slice k1 [] = uniqueLoop slice k2 [].
Proof.
  revert k1 k2. induction slice as [|item slice IH]; intros k1 k2 H;
    [reflexivity|].
  rewrite !uniqueLoop_cons, <- H.
  destruct (index false k1 item); [now apply IH|].
  f_equal. apply IH. intros x. now rewrite !index_store, H.
Qed.

(** What the loop adds: the elements of the slice that the map does not
    hold. *)
Lemma uniqueLoop_In (slice : list string) (keys : GoMap bool) (x : string) :
  In x (uniqueLoop slice keys []) <-> In x slice /\ index false keys x = false.
Proof.
  revert keys. induction slice as [|item slice IH]; intros keys.
  - simpl. tauto.
  - rewrite uniqueLoop_cons.
    destruct (index false keys item) eqn:Hitem.
    + rewrite IH. simpl. split; [tauto|].
      intros [[<-|Hin] Hx]; [congruence | tauto].
    + cbn [In]. rewrite IH, index_store.
      destruct (String.eqb_spec item x) as [->|Hne]; cbn [orb].
      * split; [intros _; split; [now left | exact Hitem] | now left].
      * split.
        -- intros [E|[Hin Hx]]; [now destruct Hne | tauto].
        -- intros [[E|Hin] Hx]; [now destruct Hne | tauto].
Qed.

Lemma uniqueLoop_NoDup (slice : list string) (keys : GoMap bool) :
  NoDup (uniqueLoop slice keys []).
Proof.
  revert keys. induction slice as [|item slice IH]; intros keys.
  - constructor.
  - rewrite uniqueLoop_cons. destruct (index false keys item); [apply IH|].
    constructor; [|apply IH].
    rewrite uniqueLoop_In, index_store, String.eqb_refl. cbn [orb].
    intros [_ H]. discriminate.
Qed.

(** With more keys in the map, the loop adds what it added before, less
    the keys that are now in the map. *)
Lemma uniqueLoop_filter (slice : list string) (k1 k2 : GoMap bool) :
  (forall x, index false k1 x = true -> index false k2 x = true) ->
  uniqueLoop slice k2 [] =
  filter (fun x => negb (index false k2 x)) (uniqueLoop slice k1 []).
Proof.
  revert k1 k2. induction slice as [|item slice IH]; intros k1 k2 Hsub;
    [reflexivity|].
  rewrite !uniqueLoop_cons.
  destruct (index false k2 item) eqn:H2.
  - destruct (index false k1 item) eqn:H1; [now apply IH|].
    cbn [filter]. rewrite H2. cbn [negb]. apply IH.
    intros x. rewrite index_store.
    destruct (String.eqb_spec item x) as [<-|_]; [now intros _|].
    apply Hsub.
  - destruct (index false k1 item) eqn:H1;
      [rewrite (Hsub item H1) in H2; discriminate|].
    cbn [filter]. rewrite H2. cbn [negb]. f_equal.
    rewrite (IH (store k1 item true) (store k2 item true)).
    + apply filter_ext_in. intros x Hx.
      apply uniqueLoop_In in Hx as [_ Hx].
      rewrite index_store in Hx |- *.
      destruct (String.eqb item x); [discriminate | reflexivity].
    + intros x. rewrite !index_store.
      destruct (String.eqb item x); [reflexivity | apply Hsub].
Qed.

(** The map after the loop has gone through [slice]. *)
Lemma contains_In_iff (slice : list string) (item : string) :
  contains slice item = true <-> In item slice.
Proof.
  induction slice as [|s slice IH]; simpl.
  - split; [discriminate | tauto].
  - destruct (String.eqb_spec s item) as [->|Hne].
    + split; [now left | reflexivity].
    + rewrite IH. split; [now right | intros [E|H]; [now destruct Hne | exact H]].
Qed.

Lemma filter_twice {A} (f g : A -> bool) (l : list A) :
  filter f (filter g l) = filter (fun x => g x && f x) l.
Proof.
  induction l as [|x l IH]; [reflexivity|]. cbn [filter].
  destruct (g x); cbn [filter andb]; [destruct (f x)|]; now rewrite IH.
Qed.

(** The loop on two slices one after the other: what it adds for the
    second is what it would add for it alone, less the elements of the
    first. *)
Lemma uniqueLoop_app (a b : list string) (keys : GoMap bool) :
  uniqueLoop (a ++ b) keys [] =
  (uniqueLoop a keys []
   ++ filter (fun x => negb (contains a x)) (uniqueLoop b keys []))%list.
Proof.
  revert keys. induction a as [|item a IH]; intros keys.
  - cbn [app uniqueLoop contains negb].
    induction (uniqueLoop b keys []) as [|x l IHl]; [reflexivity|].
    cbn [filter]. now rewrite <- IHl.
  - cbn [app]. rewrite !uniqueLoop_cons.
    destruct (index false keys item) eqn:Hitem.
    + rewrite IH. f_equal. apply filter_ext_in. intros x Hx.
      apply uniqueLoop_In in Hx as [_ Hx]. cbn [contains].
      destruct (String.eqb_spec item x) as [->|_]; [congruence | reflexivity].
    + cbn [app]. f_equal. rewrite IH. f_equal.
      rewrite (uniqueLoop_filter b keys (store keys item true)).
      * rewrite filter_twice. apply filter_ext_in. intros x Hx.
        apply uniqueLoop_In in Hx as [_ Hx].
        rewrite index_store, Hx, orb_false_r. cbn [contains].
        destruct (String.eqb item x); reflexivity.
      * intros x Hx. rewrite index_store, Hx. apply orb_true_r.
Qed.

(** [contains] tells whether the item is an element of the slice. *)
Theorem contains_is_membership (slice : list string) (item : string) :
  contains slice item = true <-> In item slice.
Proof. apply contains_In_iff. Qed.

(** [unique] returns a slice without duplicates that has the elements of
    its argument: [contains] answers the same on both. *)
Theorem unique_no_duplicates (slice : list string) :
  NoDup (unique slice)
  /\ forall item, contains (unique slice) item = contains slice item.
Proof.
  split; [apply uniqueLoop_NoDup|]. intros item.
  apply eq_true_iff_eq. rewrite !contains_In_iff.
  unfold unique. rewrite uniqueLoop_In. cbn. tauto.
Qed.

(** [unique] returns its argument exactly when the argument has no
    duplicates; so it changes nothing when applied twice. *)
Theorem unique_fixed_point (slice : list string) :
  (unique slice = slice <-> NoDup slice)
  /\ unique (unique slice) = unique slice.
Proof.
  assert (H : forall s keys,
             NoDup s -> (forall x, In x s -> index false keys x = false) ->
             uniqueLoop s keys [] = s).
  { induction s as [|item s IH]; intros keys Hnd Hk; [reflexivity|].
    rewrite uniqueLoop_cons, (Hk item (or_introl eq_refl)).
    inversion Hnd as [|? ? Hnot Hnd']; subst. f_equal.
    apply IH; [exact Hnd'|]. intros x Hx. rewrite index_store.
    rewrite (Hk x (or_intror Hx)), orb_false_r.
    apply String.eqb_neq. intros ->. now apply Hnot. }
  split; [split|].
  - intros E. rewrite <- E. apply uniqueLoop_NoDup.
  - intros Hnd. apply H; [exact Hnd | reflexivity].
  - apply H; [apply uniqueLoop_NoDup | reflexivity].
Qed.

(** [unique] keeps the first occurrence of each element, in the order of
    the slice: on two slices one after the other it gives what it gives
    on the first, then what it gives on the second without the elements
    of the first. *)
Theorem unique_keeps_first_occurrences (a b : list string) :
  unique (a ++ b) =
  (unique a ++ filter (fun x => negb (contains a x)) (unique b))%list.
Proof. apply uniqueLoop_app. Qed.

End SliceFacts.

(** ** [parsePID] *)

Module PidFacts.
Import GoString Strconv StrconvFacts Utils.

(** [Atoi] reads back the negative numbers [Itoa] prints. *)
Lemma Atoi_Itoa_neg (n : Z) :
  minInt <= n < 0 -> Atoi (Itoa n) = (n, nil_error).
Proof.
  intros [Hmin Hneg]. destruct n as [|p|p]; try lia.
  assert (H0 : 0 <= Z.pos p) by lia.
  destruct (Itoa_head (Z.pos p) H0) as (c & rest & d & E & Dc).
  pose proof (Itoa_value (Z.pos p) H0) as V.
  unfold Itoa in E, V |- *. unfold Atoi. cbn [Ascii.eqb Bool.eqb orb].
  rewrite E in V |- *. rewrite V.
  replace ((minInt <=? - Z.pos p) && (- Z.pos p <=? maxInt)) with true;
    [reflexivity|].
  symmetry. apply andb_true_iff. unfold minInt, maxInt in *.
  split; apply Z.leb_le; lia.
Qed.

(** A result of [Atoi] without an error is within the range of [int]. *)
Lemma Atoi_range (s : string) (n : Z) :
  Atoi s = (n, nil_error) -> minInt <= n <= maxInt.
Proof.
  unfold Atoi. destruct s as [|c rest]; [discriminate|].
  destruct (if Ascii.eqb c "-" || Ascii.eqb c "+" then rest else String c rest)
    as [|b body]; [discriminate|].
  destruct (digits_value 0 (String b body)) as [v|]; [|discriminate].
  destruct ((minInt <=? (if Ascii.eqb c "-" then - v else v))
            && ((if Ascii.eqb c "-" then - v else v) <=? maxInt)) eqn:R;
    [|discriminate].
  intros E. injection E as <-.
  apply andb_true_iff in R as [R1 R2].
  apply Z.leb_le in R1, R2. now split.
Qed.

(** [parsePID] returns either a positive number that [Atoi] read, within
    the range of [int], and no error; or 0 and an error, which says that
    the text is no number or that the number is not positive. *)
Theorem parsePID_result (pidStr : string) :
  match parsePID pidStr with
  | (pid, None) =>
      0 < pid <= maxInt /\ Atoi pidStr = (pid, nil_error)
  | (pid, Some msg) =>
      pid = 0
      /\ (msg = "invalid PID: " ++ pidStr
          \/ exists n, n <= 0 /\ Atoi pidStr = (n, nil_error)
                       /\ msg = "PID must be positive: " ++ Itoa n)
  end.
Proof.
  unfold parsePID. destruct (Atoi pidStr) as [n [e|]] eqn:E.
  - split; [reflexivity|]. left. reflexivity.
  - pose proof (Atoi_range pidStr n E) as [_ Hmax].
    destruct (Z.leb_spec n 0) as [Hle|Hgt].
    + split; [reflexivity|]. right. exists n.
      split; [exact Hle|]. split; [reflexivity|].
      reflexivity.
    + split; [lia | reflexivity].
Qed.

(** [parsePID] reads back a number printed in decimal when it is
    positive, and refuses it with 0 when it is zero or negative. *)
Theorem parsePID_of_printed (n : Z) :
  minInt <= n <= maxInt ->
  parsePID (Itoa n) =
  if n <=? 0
  then (0, Some ("PID must be positive: " ++ Itoa n))
  else (n, nil_error).
Proof.
  intros [Hmin Hmax]. unfold parsePID.
  assert (E : Atoi (Itoa n) = (n, nil_error)).
  { destruct (Z.lt_ge_cases n 0) as [Hneg|Hpos].
    - now apply Atoi_Itoa_neg.
    - now apply Atoi_Itoa. }
  rewrite E. cbv iota beta. unfold nil_error.
  destruct (n <=? 0); [|reflexivity].
  reflexivity.
Qed.

Lemma parsePID_of_printed_witness :
  minInt <= 42 <= maxInt /\ parsePID (Itoa 42) = (42, nil_error).
Proof.
  assert (H : minInt <= 42 <= maxInt) by (unfold minInt, maxInt; lia).
  split; [exact H|]. exact (parsePID_of_printed 42 H).
Defined.

End PidFacts.

(** ** More on [ParseMemorySize] *)

Module MemorySizeFacts.
Import GoString Cgroups CgroupsFacts.

(** A string that is not empty ends with a byte. *)
Lemma last_byte_of (s : string) :
  s <> "" -> exists body c, s = body ++ String c "".
Proof.
  induction s as [|x s IH]; intros Hne; [now destruct Hne|].
  destruct s as [|y s].
  - now exists "", x.
  - destruct IH as (body & c & E); [discriminate|].
    exists (String x body), c. cbn [append]. now rewrite <- E.
Qed.

(** What [ParseMemorySize] returns it returns unchanged: a size is
    converted once. *)
Theorem ParseMemorySize_idempotent (size : string) :
  exists out,
    ParseMemorySize size = Some (out, nil_error)
    /\ ParseMemorySize out = Some (out, nil_error).
Proof.
  destruct (string_dec size "") as [->|Hne]; [now exists ""|].
  destruct (last_byte_of size Hne) as (body & c & ->).
  rewrite ParseMemorySize_last.
  assert (Hz : forall pre, ParseMemorySize (pre ++ "0")
                           = Some (pre ++ "0", nil_error)).
  { intros pre. now rewrite (ParseMemorySize_last pre "0"). }
  destruct (Ascii.eqb c "K" || Ascii.eqb c "k") eqn:EK.
  { exists (body ++ "000"). split; [reflexivity|].
    replace (body ++ "000") with ((body ++ "00") ++ "0")
      by now rewrite StringFacts.app_assoc.
    apply Hz. }
  destruct (Ascii.eqb c "M" || Ascii.eqb c "m") eqn:EM.
  { exists (body ++ "000000"). split; [reflexivity|].
    replace (body ++ "000000") with ((body ++ "00000") ++ "0")
      by now rewrite StringFacts.app_assoc.
    apply Hz. }
  destruct (Ascii.eqb c "G" || Ascii.eqb c "g") eqn:EG.
  { exists (body ++ "000000000"). split; [reflexivity|].
    replace (body ++ "000000000") with ((body ++ "00000000") ++ "0")
      by now rewrite StringFacts.app_assoc.
    apply Hz. }
  exists (body ++ String c ""). split; [reflexivity|].
  now rewrite ParseMemorySize_last, EK, EM, EG.
Qed.

End MemorySizeFacts.

(** ** More on the environment of the child *)

Module ChildEnvFacts.
Import GoString Config EnvBridge Strconv StringFacts StrconvFacts EnvFacts.

Lemma HasPrefix_app (p x : string) : HasPrefix (p ++ x) p = true.
Proof.
  induction p as [|c p IH]; [reflexivity|].
  cbn [append HasPrefix]. now rewrite Ascii.eqb_refl, IH.
Qed.

Lemma prefix_differs (p x key : string) :
  HasPrefix key p = false -> String.eqb (p ++ x) key = false.
Proof.
  intros H. apply String.eqb_neq. intros <-.
  rewrite HasPrefix_app in H. discriminate.
Qed.

(** [RunContainer] adds and overrides only variables whose name begins
    with [CONTAINER_]: every other variable of the parent reads the same
    in the child. *)
Theorem containerEnv_keeps_other_variables (environ : list string)
    (config : ContainerConfig) (key : string) :
  HasPrefix key "CONTAINER_" = false ->
  Getenv (containerEnv environ config) key = Getenv environ key.
Proof.
  intros Hkey.
  assert (Hk : forall x, String.eqb ("CONTAINER_" ++ x) key = false)
    by (intros x; now apply prefix_differs).
  assert (Hsnoc : forall env name v,
             free_of "=" name = true ->
             Getenv (env ++ [("CONTAINER_" ++ name) ++ "=" ++ v]) key
             = Getenv env key).
  { intros env name v Hfree.
    rewrite Getenv_snoc_kv, Hk; [reflexivity|].
    now rewrite free_of_app, Hfree. }
  unfold containerEnv.
  change ("CONTAINER_MOUNT_COUNT=" ++ ?x)
    with (("CONTAINER_" ++ "MOUNT_COUNT") ++ "=" ++ x).
  rewrite Hsnoc by reflexivity.
  rewrite mountsEnv_other
    by first [lia | intros j f _ _;
                    apply (Hk ("MOUNT_" ++ Itoa j ++ f))].
  rewrite snoc5.
  change ("CONTAINER_CONTAINER_IP=" ++ ?x)
    with (("CONTAINER_" ++ "CONTAINER_IP") ++ "=" ++ x).
  change ("CONTAINER_HOST_IP=" ++ ?x)
    with (("CONTAINER_" ++ "HOST_IP") ++ "=" ++ x).
  change ("CONTAINER_NETWORK_CIDR=" ++ ?x)
    with (("CONTAINER_" ++ "NETWORK_CIDR") ++ "=" ++ x).
  change ("CONTAINER_ROOTFS=" ++ ?x)
    with (("CONTAINER_" ++ "ROOTFS") ++ "=" ++ x).
  change ("CONTAINER_HOSTNAME=" ++ ?x)
    with (("CONTAINER_" ++ "HOSTNAME") ++ "=" ++ x).
  now rewrite !Hsnoc by reflexivity.
Qed.

Lemma containerEnv_keeps_other_variables_witness :
  HasPrefix "PATH" "CONTAINER_" = false
  /\ Getenv (containerEnv ["PATH=/usr/bin"; "CONTAINER_HOSTNAME=old"]
               NewDefaultConfig) "PATH" = "/usr/bin".
Proof.
  split; [reflexivity|].
  now rewrite (containerEnv_keeps_other_variables
                 ["PATH=/usr/bin"; "CONTAINER_HOSTNAME=old"]
                 NewDefaultConfig "PATH" eq_refl).
Defined.

(** A configuration without mounts does not reach the command: the parent
    writes the count of mounts as [0], the child refuses it before it
    makes any call, and ends with status 1. *)
Theorem no_mounts_no_container (P : Platform) (environ : list string)
    (config : ContainerConfig) (getwd : string * error)
    (args : list string) (w : world) (tr : list Event) :
  Mounts config = [] ->
  let proc := Main.mkProcess ("/proc/self/exe" :: "child" :: args)
                (containerEnv environ config) getwd in
  Container.RunChildProcess (Main.Environ proc) args (w, tr)
  = (Ok (Some ("failed to parse container config from environment: "
               ++ "invalid mount count: PID must be positive: 0")),
     (w, tr))
  /\ Main.handleChild proc args (w, tr) = (Exit 1, (w, tr)).
Proof.
  intros H0 proc.
  assert (HR : Container.RunChildProcess (Main.Environ proc) args (w, tr)
               = (Ok (Some ("failed to parse container config from environment: "
                            ++ "invalid mount count: PID must be positive: 0")),
                  (w, tr))).
  { unfold Container.RunChildProcess. cbn [proc Main.Environ].
    rewrite (zero_mounts_rejected environ config H0). reflexivity. }
  split; [exact HR|].
  unfold Main.handleChild. destruct (llen args =? 0); [reflexivity|].
  unfold bind. now rewrite HR.
Qed.

Lemma no_mounts_no_container_witness :
  let config := mkConfig "box" "./namespace_fs" [] "192.168.1.0/24"
                  "192.168.1.1" "192.168.1.2" ["/bin/sh"] in
  Mounts config = []
  /\ Main.handleChild (P := Hosts.inContainer 0)
       (Main.mkProcess ["/proc/self/exe"; "child"; "/bin/sh"]
          (containerEnv ["PATH=/usr/bin"] config) ("/", nil_error))
       ["/bin/sh"] (tt, [])
     = (Exit 1, (tt, [])).
Proof.
  intros config. split; [reflexivity|].
  exact (proj2 (no_mounts_no_container (Hosts.inContainer 0) ["PATH=/usr/bin"]
                  config ("/", nil_error) ["/bin/sh"] tt [] eq_refl)).
Defined.

End ChildEnvFacts.

(** ** The repeatable flag *)

Module MultiStringFacts.
Import GoString MultiString MountFacts.

Lemma setAll_app (values : list string) (m : multiString) :
  setAll values m = (m ++ values)%list.
Proof.
  revert m. induction values as [|v values IH]; intros m; cbn.
  - now rewrite List.app_nil_r.
  - unfold setAll in IH. rewrite IH, <- List.app_assoc. reflexivity.
Qed.

Lemma Split_Join (m : list string) :
  m <> [] ->
  Forall (fun value => free_of "," value = true) m ->
  Split (Join m ",") "," = m.
Proof.
  induction m as [|x m IH]; intros Hne Hfree; [now destruct Hne|].
  inversion Hfree as [|? ? Hx Hm]; subst.
  destruct m as [|y m].
  - cbn [Join]. now apply Split_free.
  - cbn [Join]. cbn [Join] in IH.
    change (x ++ "," ++ ?r) with (x ++ String "," r).
    rewrite (Split_cons x _ "," Hx). f_equal. apply IH; [discriminate|exact Hm].
Qed.

(** The values set one after the other, at least one and none with a
    comma, are read back from what [String] writes by splitting it at the
    commas: [Set] keeps every value, in the order of the calls, and
    [String] writes them with commas between them. *)
Theorem multiString_round_trip (values : list string) :
  values <> [] ->
  Forall (fun value => free_of "," value = true) values ->
  Split (String_ (setAll values [])) "," = values.
Proof.
  intros Hne Hfree. rewrite setAll_app. cbn [app]. unfold String_.
  now apply Split_Join.
Qed.

Lemma multiString_round_trip_witness :
  ["/srv:/data:ro"; "/tmp:/tmp"] <> []
  /\ Forall (fun value => free_of "," value = true)
       ["/srv:/data:ro"; "/tmp:/tmp"]
  /\ String_ (setAll ["/srv:/data:ro"; "/tmp:/tmp"] [])
     = "/srv:/data:ro,/tmp:/tmp"
  /\ Split (String_ (setAll ["/srv:/data:ro"; "/tmp:/tmp"] [])) ","
     = ["/srv:/data:ro"; "/tmp:/tmp"].
Proof.
  assert (H1 : ["/srv:/data:ro"; "/tmp:/tmp"] <> []) by discriminate.
  assert (H2 : Forall (fun value => free_of "," value = true)
                 ["/srv:/data:ro"; "/tmp:/tmp"]) by (repeat constructor).
  split; [exact H1|]. split; [exact H2|]. split; [reflexivity|].
  exact (multiString_round_trip ["/srv:/data:ro"; "/tmp:/tmp"] H1 H2).
Defined.

End MultiStringFacts.

(** ** What [ParseFlags] reads *)

Module ParseFacts.
Import GoString Config Flag Cli CliSpec StringFacts FlagFacts.

Lemma last_cons {A} (x d : A) (l : list A) : last (x :: l) d = last l x.
Proof.
  revert x d. induction l as [|y l IH]; intros x d; [reflexivity|].
  change (last (x :: y :: l) d) with (last (y :: l) d).
  now rewrite !IH.
Qed.

(** What setting a flag does to the five string variables. *)
Lemma formal_fields (name x : string) (set : string -> Values -> Values)
    (v : Values) :
  formal name = Some set ->
  hostname (set x v) = (if String.eqb name "hostname" then x else hostname v)
  /\ rootfs (set x v) = (if String.eqb name "rootfs" then x else rootfs v)
  /\ networkCIDR (set x v)
     = (if String.eqb name "network" then x else networkCIDR v)
  /\ hostIP (set x v) = (if String.eqb name "host-ip" then x else hostIP v)
  /\ containerIP (set x v)
     = (if String.eqb name "container-ip" then x else containerIP v).
Proof.
  unfold formal. intros H.
  repeat match type of H with
         | (if String.eqb ?a ?b then _ else _) = _ =>
             destruct (String.eqb_spec a b) as [->|_];
             [injection H as <-; repeat split; reflexivity|]
         end.
  discriminate.
Qed.

Lemma Values_eta (v : Values) :
  v = mkValues (hostname v) (rootfs v) (networkCIDR v) (hostIP v)
        (containerIP v) (mountFlags v).
Proof. now destruct v. Qed.

(** The variables after the flags [pre], each written as one token. *)
Lemma parseLoop_reads (pre more : list string) (v : Values) (n : nat)
    (h : ErrorHandling) :
  Forall (fun t => wellFormedFlag t = true) pre ->
  parseLoop (length pre + n) h v (pre ++ more) =
  parseLoop n h
    (mkValues (last (flagValues "hostname" pre) (hostname v))
       (last (flagValues "rootfs" pre) (rootfs v))
       (last (flagValues "network" pre) (networkCIDR v))
       (last (flagValues "host-ip" pre) (hostIP v))
       (last (flagValues "container-ip" pre) (containerIP v))
       (mountFlags v ++ flagValues "mount" pre))
    more.
Proof.
  intros Hwf. revert v.
  induction Hwf as [|tok pre Htok _ IH]; intros v.
  - cbn [length Nat.add app flagValues last].
    now rewrite List.app_nil_r, <- Values_eta.
  - unfold wellFormedFlag in Htok.
    destruct (asFlag tok) as [[name value]|] eqn:Ea; [|discriminate].
    destruct (asFlag_split tok name value Ea)
      as (dashes & set & Hd & Etok & Hf & Hfree).
    cbn [length Nat.add app parseLoop].
    rewrite Etok at 1.
    rewrite (parseOne_flag dashes name value set v (pre ++ more) Hd Hf Hfree).
    rewrite IH. cbn [flagValues]. rewrite Ea.
    destruct (formal_fields name value set v Hf) as (H1 & H2 & H3 & H4 & H5).
    rewrite H1, H2, H3, H4, H5, (formal_mountFlags name value set v Hf).
    f_equal.
    destruct (String.eqb name "hostname"), (String.eqb name "rootfs"),
      (String.eqb name "network"), (String.eqb name "host-ip"),
      (String.eqb name "container-ip"), (String.eqb name "mount");
      rewrite ?last_cons, <- ?List.app_assoc; reflexivity.
Qed.

(** The mount flags of well-formed tokens are accepted by [parseMount]. *)
Lemma flagValues_mount (pre : list string) :
  Forall (fun t => wellFormedFlag t = true) pre ->
  Forall (fun x => exists m, parseMount x = Some (m, nil_error))
    (flagValues "mount" pre).
Proof.
  induction 1 as [|tok pre Htok _ IH]; [constructor|].
  cbn [flagValues]. unfold wellFormedFlag in Htok.
  destruct (asFlag tok) as [[name value]|]; [|discriminate].
  destruct (String.eqb name "mount"); [|exact IH].
  constructor; [|exact IH].
  destruct (parseMount value) as [[m [e|]]|]; try discriminate.
  now exists m.
Qed.

Lemma parseMountFlags_map (flags : list string) (acc : list Mount) :
  Forall (fun x => exists m, parseMount x = Some (m, nil_error)) flags ->
  parseMountFlags flags acc = Ok ((acc ++ map mountOf flags)%list, nil_error).
Proof.
  intros H. revert acc. induction H as [|x flags (m & Hm) _ IH]; intros acc.
  - cbn. now rewrite List.app_nil_r.
  - cbn [parseMountFlags map]. unfold mountOf at 1. rewrite Hm. cbn.
    rewrite IH, <- List.app_assoc. reflexivity.
Qed.

(** When every token before the command is a flag written as one token,
    [ParseFlags] returns the defaults with each variable replaced by the
    last value given to its flag, the mounts of the [mount] flags in the
    order of the command line, or the working directory at [/app] when
    there is none; the command is the first token without a leading [-]
    and everything after it, flags or not. *)
Theorem ParseFlags_reads_flags (getwd : string * error) (pre : list string)
    (tok : string) (rest : list string) :
  Forall (fun t => wellFormedFlag t = true) pre ->
  HasPrefix tok "-" = false ->
  ParseFlags getwd (pre ++ tok :: rest) =
  Ok (Some {| Hostname := last (flagValues "hostname" pre) "container";
              RootFS := last (flagValues "rootfs" pre) "./namespace_fs";
              Mounts := match flagValues "mount" pre with
                        | [] => defaultMounts getwd
                        | values => map mountOf values
                        end;
              NetworkCIDR := last (flagValues "network" pre) "192.168.1.0/24";
              HostIP := last (flagValues "host-ip" pre) "192.168.1.1";
              ContainerIP :=
                last (flagValues "container-ip" pre) "192.168.1.2";
              Command := tok :: rest |},
      nil_error).
Proof.
  intros Hwf Htok.
  assert (Hdash : Forall (fun t => HasPrefix t "-" = true) pre).
  { eapply Forall_impl; [|exact Hwf]. intros t. apply wellFormed_dash. }
  rewrite (ParseFlags_unfold getwd pre tok rest Hdash Htok). cbv zeta.
  set (flags0 := mkValues "container" "./namespace_fs" "192.168.1.0/24"
                   "192.168.1.1" "192.168.1.2" []).
  assert (HP : match pre with
               | [] => Ok (flags0, nil_error)
               | _ :: _ => Parse ExitOnError flags0 pre
               end
               = Ok (mkValues (last (flagValues "hostname" pre) "container")
                       (last (flagValues "rootfs" pre) "./namespace_fs")
                       (last (flagValues "network" pre) "192.168.1.0/24")
                       (last (flagValues "host-ip" pre) "192.168.1.1")
                       (last (flagValues "container-ip" pre) "192.168.1.2")
                       (flagValues "mount" pre),
                     nil_error)).
  { destruct pre as [|p pre]; [reflexivity|].
    unfold Parse.
    pose proof (parseLoop_reads (p :: pre) [] flags0 1 ExitOnError Hwf) as H.
    rewrite List.app_nil_r in H.
    replace (S (length (p :: pre))) with (length (p :: pre) + 1)%nat by lia.
    rewrite H. reflexivity. }
  rewrite HP. cbn [bindr fst snd mountFlags hostname rootfs networkCIDR
                     hostIP containerIP].
  rewrite (parseMountFlags_map _ [] (flagValues_mount pre Hwf)).
  cbn [bindr fst snd app]. f_equal. f_equal. f_equal.
  destruct (flagValues "mount" pre) as [|x xs]; [reflexivity|].
  cbn [map]. replace (llen (mountOf x :: map mountOf xs) =? 0) with false;
    [reflexivity|].
  symmetry. apply Z.eqb_neq. unfold llen. simpl length. lia.
Qed.

Lemma ParseFlags_reads_flags_witness :
  let pre := ["--hostname=a"; "-mount=/srv:/data:ro"; "--hostname=b";
              "--mount=/tmp:/tmp"] in
  Forall (fun t => wellFormedFlag t = true) pre
  /\ HasPrefix "/bin/sh" "-" = false
  /\ ParseFlags ("/work", nil_error) (pre ++ ["/bin/sh"; "--hostname=c"])
     = Ok (Some {| Hostname := "b";
                   RootFS := "./namespace_fs";
                   Mounts := [mkMount "/srv" "/data" true;
                              mkMount "/tmp" "/tmp" false];
                   NetworkCIDR := "192.168.1.0/24";
                   HostIP := "192.168.1.1";
                   ContainerIP := "192.168.1.2";
                   Command := ["/bin/sh"; "--hostname=c"] |},
           nil_error).
Proof.
  intros pre.
  assert (H1 : Forall (fun t => wellFormedFlag t = true) pre)
    by (repeat constructor).
  assert (H2 : HasPrefix "/bin/sh" "-" = false) by reflexivity.
  split; [exact H1|]. split; [exact H2|].
  exact (ParseFlags_reads_flags ("/work", nil_error) pre "/bin/sh"
           ["--hostname=c"] H1 H2).
Defined.

Lemma findCommandStart_none (args : list string) (i : nat) :
  Forall (fun t => HasPrefix t "-" = true) args ->
  findCommandStart i args = O.
Proof.
  intros H. revert i. induction H as [|t args Ht _ IH]; intros i;
    cbn [findCommandStart]; [reflexivity|].
  rewrite Ht. cbn [negb]. apply IH.
Qed.

(** When no argument is without a leading [-], no flag is read: the
    arguments, whatever they are, become the command of the default
    configuration; and with no argument at all the error is that no
    command is specified. *)
Theorem ParseFlags_without_command (getwd : string * error)
    (args : list string) :
  Forall (fun t => HasPrefix t "-" = true) args ->
  ParseFlags getwd args =
  match args with
  | [] => Ok (None, Some "no command specified")
  | _ :: _ =>
      Ok (Some {| Hostname := "container";
                  RootFS := "./namespace_fs";
                  Mounts := defaultMounts getwd;
                  NetworkCIDR := "192.168.1.0/24";
                  HostIP := "192.168.1.1";
                  ContainerIP := "192.168.1.2";
                  Command := args |},
          nil_error)
  end.
Proof.
  intros H. unfold ParseFlags. rewrite (findCommandStart_none args 0 H).
  cbn [Nat.eqb bindr parseMountFlags mountFlags NewDefaultConfig Mounts
         fst snd].
  destruct args as [|a args]; [reflexivity|].
  replace (llen (a :: args) =? 0) with false
    by (symmetry; apply Z.eqb_neq; unfold llen; simpl length; lia).
  unfold defaultMounts. destruct (snd getwd); reflexivity.
Qed.

Lemma ParseFlags_without_command_witness :
  Forall (fun t => HasPrefix t "-" = true) ["--hostname=x"; "--bogus"]
  /\ ParseFlags ("/work", nil_error) ["--hostname=x"; "--bogus"]
     = Ok (Some {| Hostname := "container";
                   RootFS := "./namespace_fs";
                   Mounts := [mkMount "/work" "/app" false];
                   NetworkCIDR := "192.168.1.0/24";
                   HostIP := "192.168.1.1";
                   ContainerIP := "192.168.1.2";
                   Command := ["--hostname=x"; "--bogus"] |},
           nil_error).
Proof.
  assert (H : Forall (fun t => HasPrefix t "-" = true)
                ["--hostname=x"; "--bogus"]) by (repeat constructor).
  split; [exact H|].
  exact (ParseFlags_without_command ("/work", nil_error)
           ["--hostname=x"; "--bogus"] H).
Defined.

(** A flag that stands alone as the last argument to parse. *)
Lemma parseOne_alone (dashes name : string)
    (set : string -> Values -> Values) (v : Values) :
  dashes = "-" \/ dashes = "--" ->
  formal name = Some set ->
  parseOne v [dashes ++ name]
  = Fail false ("flag needs an argument: -" ++ name).
Proof.
  intros Hd Hf. pose proof (formal_names name set Hf) as Hin. simpl in Hin.
  destruct Hd as [-> | ->];
    destruct Hin as [<-|[<-|[<-|[<-|[<-|[<-|[]]]]]]]; reflexivity.
Qed.

(** A value written as an argument of its own, after the flag, is not
    read: the value is taken for the command, the flag is left without
    its value, and the flag package ends the process with status 2. *)
Theorem ParseFlags_separate_value (getwd : string * error)
    (pre : list string) (dashes name value : string) (rest : list string)
    (set : string -> Values -> Values) :
  Forall (fun t => wellFormedFlag t = true) pre ->
  dashes = "-" \/ dashes = "--" ->
  formal name = Some set ->
  HasPrefix value "-" = false ->
  ParseFlags getwd (pre ++ (dashes ++ name) :: value :: rest) = Exit 2.
Proof.
  intros Hwf Hd Hf Hvalue.
  assert (Hflag : HasPrefix (dashes ++ name) "-" = true)
    by (destruct Hd as [-> | ->]; reflexivity).
  assert (Hdash : Forall (fun t => HasPrefix t "-" = true)
                    (pre ++ [dashes ++ name])).
  { apply Forall_app. split; [|now repeat constructor].
    eapply Forall_impl; [|exact Hwf]. intros t. apply wellFormed_dash. }
  replace (app pre ((dashes ++ name) :: value :: rest))
    with (app (app pre [dashes ++ name]) (value :: rest))
    by now rewrite <- List.app_assoc.
  rewrite (ParseFlags_unfold getwd _ value rest Hdash Hvalue). cbv zeta.
  destruct (app pre [dashes ++ name]) as [|p ps] eqn:E;
    [now destruct pre|].
  rewrite <- E. unfold Parse.
  replace (S (length (app pre [dashes ++ name])))
    with (length pre + 2)%nat by (rewrite List.length_app; simpl; lia).
  rewrite (parseLoop_reads pre [dashes ++ name] _ 2 ExitOnError Hwf).
  cbn [parseLoop]. rewrite (parseOne_alone dashes name set _ Hd Hf).
  reflexivity.
Qed.

Lemma ParseFlags_separate_value_witness :
  ParseFlags ("/work", nil_error)
    ["--mount=/srv:/data"; "--hostname"; "mycontainer"; "/bin/sh"]
  = Exit 2.
Proof.
  assert (H1 : Forall (fun t => wellFormedFlag t = true) ["--mount=/srv:/data"])
    by (repeat constructor).
  exact (ParseFlags_separate_value ("/work", nil_error) ["--mount=/srv:/data"]
           "--" "hostname" "mycontainer" ["/bin/sh"] _ H1
           (or_intror eq_refl) eq_refl eq_refl).
Defined.

End ParseFacts.

(** ** What the parent checks and prepares *)

Module PrepareFacts.
Import Config Spec RunSpec RunFacts FilesystemFacts Filesystem.

Section WithPlatform.
Context {P : Platform}.





End WithPlatform.

End PrepareFacts.

(** ** What [validateConfig] checks *)

Module ValidateFacts.
Import Config Spec RunSpec RunFacts Utils Container.

Section WithPlatform.
Context {P : Platform}.





End WithPlatform.

End ValidateFacts.

(** ** Namespaces and links: what [SetupNetworking] holds and releases *)

Module NetworkingFacts.
Import Config Spec RunSpec RunFacts Network.

Section WithPlatform.
Context {P : Platform}.

(** The rule of [defer] when the body returns. *)
Lemma runs_defer {A} (cleanup : M unit) (body : M A)
    (Q1 Q : list Event -> res A -> Prop) :
  runs body Q1 ->
  (forall e1 r, Q1 e1 r -> exists a, r = Ok a) ->
  (forall e1 a, Q1 e1 (Ok a) ->
                runs cleanup (fun e2 _ => Q (e1 ++ e2)%list (Ok a))) ->
  runs (defer cleanup body) Q.
Proof.
  intros Hb Hret Hc w tr. unfold defer.
  destruct (Hb w tr) as (e1 & Htr & H1).
  destruct (body (w, tr)) as [r [w1 tr1]]. simpl in Htr, H1. subst tr1.
  destruct (Hret e1 r H1) as (a & ->).
  destruct (Hc e1 a H1 w1 (tr ++ e1)%list) as (e2 & Htr2 & H2).
  exists (e1 ++ e2)%list. simpl. rewrite Htr2, List.app_assoc.
  now split.
Qed.

(** One call and its reply. *)
Lemma runs_one (c : Call) :
  runs (call c) (fun evs r => exists x, evs = [(c, x)] /\ r = Ok x).
Proof. apply runs_call. intros r. now exists r. Qed.

(** *** Careful runs *)

Section Careful.
Variable cls : Call -> bool.

Lemma careful_ret (e : error) : runs (ret e) (careful cls).
Proof.
  apply runs_ret. exists e. split; [reflexivity|].
  split; [constructor | intros _; constructor].
Qed.

Lemma careful_errOf (c : Call) :
  cls c = true ->
  (forall r, rejected (c, r) = match r_err r with
                               | Some _ => true
                               | None => false
                               end) ->
  runs (errOf c) (careful cls).
Proof.
  intros Hc Hr. apply runs_errOf. intros r.
  exists (as_error (r_err r)). split; [reflexivity|].
  split; [now repeat constructor|].
  intros E. constructor; [|constructor]. rewrite Hr.
  destruct (r_err r); [discriminate E | reflexivity].
Qed.

Lemma careful_check (m k : M error) (pieces : string -> list string) :
  runs m (careful cls) -> runs k (careful cls) ->
  runs (orReturn m (fun e => Errorf (pieces e)) k) (careful cls).
Proof.
  intros Hm Hk. apply (runs_check m _ k (careful cls)); [exact Hm | | |].
  - intros e1 r (err & -> & _). now exists err.
  - intros e1 msg (err & E & Hcls & _). eexists. split; [reflexivity|].
    split; [exact Hcls | discriminate].
  - intros e1 (err & E & Hcls & Hok). injection E as <-.
    apply (runs_weaken _ _ _ Hk).
    intros e2 r (err2 & -> & Hcls2 & Hok2).
    exists err2. split; [reflexivity|].
    split; [now apply Forall_app|].
    intros E. apply Forall_app. split; [now apply Hok | now apply Hok2].
Qed.

(** A call whose reply is used when it is not an error. *)
Lemma careful_call (c : Call) (fail : OSError -> string)
    (k : Reply -> M error) :
  cls c = true ->
  (forall r, rejected (c, r) = match r_err r with
                               | Some _ => true
                               | None => false
                               end) ->
  (forall x, runs (k x) (careful cls)) ->
  runs (x <- call c ;;
        match r_err x with
        | Some e => ret (Some (fail e))
        | None => k x
        end) (careful cls).
Proof.
  intros Hc Hr Hk. apply (runs_bind _ _ _ _ (runs_one c)).
  - intros e1 a (x & -> & E). injection E as <-.
    destruct (r_err a) as [e|] eqn:Ha.
    + apply runs_ret. eexists. split; [reflexivity|].
      split; [now repeat constructor | discriminate].
    + apply (runs_weaken _ _ _ (Hk a)).
      intros e2 r (err & -> & Hcls & Hok). exists err.
      split; [reflexivity|]. split; [now constructor|].
      intros E. constructor; [|now apply Hok]. now rewrite Hr, Ha.
  - intros e1 r (x & _ & ->) Hne. now destruct (Hne x).
Qed.

End Careful.

Lemma careful_iptables (args : list string) :
  runs (iptables args) (careful isIptables).
Proof.
  unfold iptables. apply (runs_bind _ _ _ _ (runs_one _)).
  - intros e1 a (x & -> & E). injection E as <-.
    apply runs_ret. exists (exitError a). split; [reflexivity|].
    split; [now repeat constructor|].
    intros E. constructor; [|constructor].
    unfold rejected. cbn [fst snd]. now rewrite E.
  - intros e1 r (x & _ & ->) Hne. now destruct (Hne x).
Qed.

Lemma careful_setupNAT (config : ContainerConfig) :
  runs (setupNAT config) (careful isIptables).
Proof.
  unfold setupNAT. destruct (net_ParseCIDR (NetworkCIDR config));
    [|apply careful_ret].
  repeat (apply (careful_check isIptables); [apply careful_iptables|]).
  apply careful_ret.
Qed.

Lemma careful_createVethPair : runs createVethPair (careful linkCall).
Proof.
  unfold createVethPair.
  apply careful_check; [now apply careful_errOf | apply careful_ret].
Qed.

Lemma careful_configureHostNetwork (config : ContainerConfig) :
  runs (configureHostNetwork config) (careful linkCall).
Proof.
  unfold configureHostNetwork.
  apply (careful_call linkCall _
           (fun e => String.concat "" ["failed to get veth0: "; Message e]));
    [reflexivity | reflexivity |].
  intros veth0.
  apply careful_check; [now apply careful_errOf|].
  destruct (net_ParseIP (HostIP config)); [|apply careful_ret].
  destruct (net_ParseCIDR (NetworkCIDR config)); [|apply careful_ret].
  apply careful_check; [now apply careful_errOf | apply careful_ret].
Qed.

Lemma careful_bringUpLoopback : runs bringUpLoopback (careful linkCall).
Proof.
  unfold bringUpLoopback.
  apply (careful_call linkCall _
           (fun e => String.concat ""
                       ["failed to get loopback interface: "; Message e]));
    [reflexivity | reflexivity |].
  intros lo.
  apply careful_check; [now apply careful_errOf | apply careful_ret].
Qed.

Lemma careful_configureContainerNetwork (config : ContainerConfig) :
  runs (configureContainerNetwork config) (careful linkCall).
Proof.
  unfold configureContainerNetwork.
  apply careful_check; [apply careful_bringUpLoopback|].
  apply (careful_call linkCall _
           (fun e => String.concat "" ["failed to get veth1: "; Message e]));
    [reflexivity | reflexivity |].
  intros veth1.
  apply careful_check; [now apply careful_errOf|].
  destruct (net_ParseIP (ContainerIP config)); [|apply careful_ret].
  destruct (net_ParseCIDR (NetworkCIDR config)); [|apply careful_ret].
  apply careful_check; [now apply careful_errOf|].
  apply careful_check; [now apply careful_errOf | apply careful_ret].
Qed.

(** *** After the switch *)

Lemma inside_the_container (hostNs : Z) (config : ContainerConfig) :
  runs
    (cerr <- configureContainerNetwork config ;;
     match cerr with
     | Some e =>
         call (NetnsSet hostNs) ;;;
         ret (Errorf ["failed to configure container network: "; e])
     | None =>
         check errOf (NetnsSet hostNs)
         else (fun e =>
                 Errorf ["failed to switch back to host namespace: "; e]) ;;
         check setupNAT config
         else (fun e => Errorf ["failed to setup NAT: "; e]) ;;
         ret nil_error
     end)
    (inContainerNs hostNs).
Proof.
  apply (runs_bind _ _ _ _ (careful_configureContainerNetwork config)).
  - intros e1 cerr (err & E & Hcls & Hok). injection E as ->.
    destruct err as [e|].
    + apply (runs_bind _ _ _ _ (runs_one _)).
      * intros e2 a (x & -> & _). apply runs_ret.
        exists e1, x, []. eexists. split; [reflexivity|].
        rewrite List.app_nil_r. split; [reflexivity|].
        split; [exact Hcls|]. split; [constructor|].
        split; [now intros H | discriminate].
      * intros e2 r (x & _ & ->) Hne. now destruct (Hne x).
    + specialize (Hok eq_refl).
      apply (runs_check _ _ _
               (fun evs r => exists x, evs = [(NetnsSet hostNs, x)]
                                       /\ r = Ok (as_error (r_err x)))).
      * apply runs_errOf. intros r. now exists r.
      * intros e2 r (x & _ & ->). now eexists.
      * intros e2 msg (x & -> & E).
        exists e1, x, []. eexists. split; [reflexivity|].
        split; [reflexivity|]. split; [exact Hcls|]. split; [constructor|].
        split; [now intros H | discriminate].
      * intros e2 (x & -> & E).
        assert (Hx : r_err x = None) by (destruct (r_err x); [discriminate | reflexivity]).
        apply (runs_weaken _ (careful isIptables)).
        -- apply careful_check; [apply careful_setupNAT | apply careful_ret].
        -- intros e3 r (err & -> & Hcls3 & Hok3).
           exists e1, x, e3, err. split; [reflexivity|].
           split; [reflexivity|].
           split; [exact Hcls|]. split; [exact Hcls3|].
           split; [now intros _|].
           intros E'. split; [exact Hx|].
           apply Forall_app. split; [exact Hok | now apply Hok3].
  - intros e1 r (err & -> & _) Hne. now destruct (Hne err).
Qed.

(** *** Between the two namespaces *)

Section Work.
Variables hostNs containerNs : Z.

Lemma networkWork_after (pre evs : list Event) (r : res error) :
  Forall (fun ev => linkCall (fst ev) = true) pre ->
  Forall (fun ev => rejected ev = false) pre ->
  networkWork hostNs containerNs evs r ->
  networkWork hostNs containerNs (pre ++ evs) r.
Proof.
  intros Hcls Hok (hostSide & rest & err & -> & -> & Hhost & H).
  exists (pre ++ hostSide)%list, rest, err. split; [reflexivity|].
  split; [now rewrite List.app_assoc|].
  split; [now apply Forall_app|].
  destruct rest as [|ev after]; [exact H|].
  destruct H as (Hev & Hhok & H). split; [exact Hev|].
  split; [now apply Forall_app | exact H].
Qed.

Lemma networkWork_stopped (evs : list Event) (msg : string) :
  Forall (fun ev => linkCall (fst ev) = true) evs ->
  networkWork hostNs containerNs evs (Ok (Some msg)).
Proof.
  intros Hcls. exists evs, [], (Some msg). split; [reflexivity|].
  rewrite List.app_nil_r. split; [reflexivity|].
  split; [exact Hcls | discriminate].
Qed.

Lemma networkWork_check (m k : M error) (pieces : string -> list string) :
  runs m (careful linkCall) ->
  runs k (networkWork hostNs containerNs) ->
  runs (orReturn m (fun e => Errorf (pieces e)) k)
    (networkWork hostNs containerNs).
Proof.
  intros Hm Hk. apply (runs_check m _ k (careful linkCall)); [exact Hm | | |].
  - intros e1 r (err & -> & _). now exists err.
  - intros e1 msg (err & E & Hcls & _). now apply networkWork_stopped.
  - intros e1 (err & E & Hcls & Hok). injection E as <-.
    apply (runs_weaken _ _ _ Hk). intros e2 r H2.
    apply networkWork_after; [exact Hcls | now apply Hok | exact H2].
Qed.

Lemma between_the_namespaces (config : ContainerConfig) :
  runs
    (check createVethPair
     else (fun e => Errorf ["failed to create veth pair: "; e]) ;;
     check configureHostNetwork config
     else (fun e => Errorf ["failed to configure host network: "; e]) ;;
     veth1 <- call (LinkByName "veth1") ;;
     match r_err veth1 with
     | Some e => ret (Errorf ["failed to get veth1: "; Message e])
     | None =>
         check errOf (LinkSetNsFd (r_int veth1) containerNs)
         else (fun e => Errorf ["failed to move veth1 to container: "; e]) ;;
         check errOf (NetnsSet containerNs)
         else (fun e =>
                 Errorf ["failed to switch to container namespace: "; e]) ;;
         cerr <- configureContainerNetwork config ;;
         match cerr with
         | Some e =>
             call (NetnsSet hostNs) ;;;
             ret (Errorf ["failed to configure container network: "; e])
         | None =>
             check errOf (NetnsSet hostNs)
             else (fun e =>
                     Errorf ["failed to switch back to host namespace: "; e]) ;;
             check setupNAT config
             else (fun e => Errorf ["failed to setup NAT: "; e]) ;;
             ret nil_error
         end
     end)
    (networkWork hostNs containerNs).
Proof.
  apply networkWork_check; [apply careful_createVethPair|].
  apply networkWork_check; [apply careful_configureHostNetwork|].
  apply (runs_bind _ _ _ _ (runs_one _)).
  2: { intros e1 r (x & _ & ->) Hne. now destruct (Hne x). }
  intros e1 veth1 (x & -> & E). injection E as <-.
  destruct (r_err veth1) as [e|] eqn:Hv.
  { apply runs_ret. rewrite List.app_nil_r.
    apply networkWork_stopped. now repeat constructor. }
  assert (Hrest : runs
            (check errOf (LinkSetNsFd (r_int veth1) containerNs)
             else (fun e => Errorf ["failed to move veth1 to container: "; e]) ;;
             check errOf (NetnsSet containerNs)
             else (fun e =>
                     Errorf ["failed to switch to container namespace: "; e]) ;;
             cerr <- configureContainerNetwork config ;;
             match cerr with
             | Some e =>
                 call (NetnsSet hostNs) ;;;
                 ret (Errorf ["failed to configure container network: "; e])
             | None =>
                 check errOf (NetnsSet hostNs)
                 else (fun e =>
                         Errorf ["failed to switch back to host namespace: ";
                                 e]) ;;
                 check setupNAT config
                 else (fun e => Errorf ["failed to setup NAT: "; e]) ;;
                 ret nil_error
             end)
            (networkWork hostNs containerNs)).
  { apply networkWork_check; [now apply careful_errOf|].
    apply (runs_check _ _ _
             (fun evs r => exists x, evs = [(NetnsSet containerNs, x)]
                                     /\ r = Ok (as_error (r_err x)))).
    - apply runs_errOf. intros r. now exists r.
    - intros e2 r (x & _ & ->). now eexists.
    - intros e2 msg (x & -> & E).
      exists [], [(NetnsSet containerNs, x)]. eexists.
      split; [reflexivity|]. split; [reflexivity|]. split; [constructor|].
      split; [reflexivity|]. split; [constructor|]. cbn [snd].
      destruct (r_err x); [split; [reflexivity | discriminate] | discriminate].
    - intros e2 (x & -> & E).
      assert (Hx : r_err x = None)
        by (destruct (r_err x); [discriminate | reflexivity]).
      apply (runs_weaken _ _ _ (inside_the_container hostNs config)).
      intros e3 r H3.
      assert (Herr : exists err, r = Ok err)
        by (destruct H3 as (? & ? & ? & err & -> & _); now exists err).
      destruct Herr as (err & ->).
      exists [], ((NetnsSet containerNs, x) :: e3), err.
      split; [reflexivity|]. split; [reflexivity|]. split; [constructor|].
      split; [reflexivity|]. split; [constructor|]. cbn [snd].
      now rewrite Hx. }
  apply (runs_weaken _ _ _ Hrest). intros e2 r H2.
  apply (networkWork_after [(LinkByName "veth1", veth1)]);
    [now repeat constructor | | exact H2].
  constructor; [|constructor]. unfold rejected. cbn [fst snd]. now rewrite Hv.
Qed.

End Work.

(** *** The handles *)

Lemma runs_held (get : Call) (fail : OSError -> string)
    (k : Reply -> M error)
    (work : Z -> list Event -> res error -> Prop) :
  (forall x, runs (k x) (work (r_int x))) ->
  (forall n evs r, work n evs r -> exists err, r = Ok err) ->
  runs (x <- call get ;;
        match r_err x with
        | Some e => ret (Some (fail e))
        | None => defer (call (NetnsClose (r_int x)) ;;; ret tt) (k x)
        end)
    (held get work).
Proof.
  intros Hk Hret. apply (runs_bind _ _ _ _ (runs_one get)).
  - intros e1 got (x & -> & E). injection E as <-.
    destruct (r_err got) as [e|] eqn:Hg.
    + apply runs_ret. exists got. rewrite Hg. split; [reflexivity | now eexists].
    + apply (runs_defer _ _ (work (r_int got))); [apply Hk | apply Hret |].
      intros e2 a H2.
      apply (runs_bind _ _ _ _ (runs_one _)).
      * intros e3 b (closed & -> & _). apply runs_ret.
        exists got. rewrite Hg. exists e2, closed.
        rewrite List.app_nil_r. cbn [app]. now split.
      * intros e3 r (closed & _ & ->) Hne. now destruct (Hne closed).
  - intros e1 r (x & _ & ->) Hne. now destruct (Hne x).
Qed.

Lemma held_returns (get : Call)
    (work : Z -> list Event -> res error -> Prop) (evs : list Event)
    (r : res error) :
  (forall n evs r, work n evs r -> exists err, r = Ok err) ->
  held get work evs r -> exists err, r = Ok err.
Proof.
  intros Hret (got & H). destruct (r_err got).
  - destruct H as (_ & msg & ->). now eexists.
  - destruct H as (inner & closed & _ & H). exact (Hret _ _ _ H).
Qed.

Lemma networkWork_returns (h c : Z) (evs : list Event) (r : res error) :
  networkWork h c evs r -> exists err, r = Ok err.
Proof. intros (? & ? & err & -> & _). now exists err. Qed.

(** [SetupNetworking] returns, and releases what it holds on every way
    out.  The thread is locked first and unlocked last.  Between the two
    the namespace of the host is got and, when that succeeded, closed as
    the last call before the unlocking; within, the same holds of the
    namespace of the container.  Between getting the two namespaces and
    closing them the links are made and configured on the host, the thread
    is switched to the namespace of the container, and after a successful
    switch it is switched back to the namespace of the host whether the
    configuration in the container failed or not, before [iptables] is
    run.  The result is nil only when no call of this work was refused. *)
Theorem SetupNetworking_releases (pid : Z) (config : ContainerConfig)
    (w : world) (tr : list Event) :
  exists evs err w',
    SetupNetworking pid config (w, tr) = (Ok err, (w', tr ++ evs))%list
    /\ exists locked unlocked body,
         evs = ((LockOSThread, locked) :: body
                ++ [(UnlockOSThread, unlocked)])%list
         /\ held NetnsGet
              (fun hostNs =>
                 held (NetnsGetFromPid pid)
                   (fun containerNs => networkWork hostNs containerNs))
              body (Ok err).
Proof.
  assert (H : runs (SetupNetworking pid config)
                (fun evs r =>
                   exists locked unlocked body,
                     evs = ((LockOSThread, locked) :: body
                            ++ [(UnlockOSThread, unlocked)])%list
                     /\ (exists err, r = Ok err)
                     /\ held NetnsGet
                          (fun hostNs =>
                             held (NetnsGetFromPid pid)
                               (fun containerNs =>
                                  networkWork hostNs containerNs))
                          body r)).
  { unfold SetupNetworking.
    apply (runs_bind _ _ _ _ (runs_one _)).
    2: { intros e1 r (x & _ & ->) Hne. now destruct (Hne x). }
    intros e1 a (locked & -> & _).
    set (inner := fun hostNs : Z =>
                    held (NetnsGetFromPid pid)
                      (fun containerNs => networkWork hostNs containerNs)).
    assert (Hinner : forall n evs r, inner n evs r -> exists err, r = Ok err).
    { intros n evs r. apply held_returns. intros c. apply networkWork_returns. }
    apply (runs_defer _ _ (held NetnsGet inner)).
    - apply (runs_held NetnsGet
               (fun e => String.concat ""
                           ["failed to get host namespace: "; Message e])
               _ inner); [|exact Hinner].
      intros hostNs. unfold inner.
      apply (runs_held (NetnsGetFromPid pid)
               (fun e => String.concat ""
                           ["failed to get container namespace: "; Message e])
               _ (fun containerNs => networkWork (r_int hostNs) containerNs)).
      + intros containerNs. apply between_the_namespaces.
      + intros c. apply networkWork_returns.
    - intros e2 r. now apply held_returns.
    - intros e2 err H2.
      apply (runs_bind _ _ _ _ (runs_one _)).
      + intros e3 b (unlocked & -> & _). apply runs_ret.
        exists locked, unlocked, e2. rewrite List.app_nil_r.
        split; [reflexivity|]. split; [now exists err | exact H2].
      + intros e3 r (x & _ & ->) Hne. now destruct (Hne x). }
  destruct (runs_at _ _ w tr H)
    as (evs & r & w' & Hrun & locked & unlocked & body & Hevs & (err & ->) & Hh).
  exists evs, err, w'. split; [exact Hrun|].
  now exists locked, unlocked, body.
Qed.

End WithPlatform.

End NetworkingFacts.

(** ** The child process of [RunContainer] *)

Module LifecycleFacts.
Import Config Spec RunSpec RunFacts CallFacts Container.

Section WithPlatform.
Context {P : Platform}.

(** The calls of a run are calls it performs. *)
Lemma runs_performs {A} (m : M A) (Q : list Event -> res A -> Prop) :
  runs m Q -> runs m (fun evs r => Q evs r /\ performs m evs r).
Proof.
  intros H w tr. destruct (H w tr) as (evs & Htr & HQ).
  exists evs. split; [exact Htr|]. split; [exact HQ|].
  exists w, tr, (fst (snd (m (w, tr)))).
  destruct (m (w, tr)) as [r [w' tr']]. simpl in *. now subst tr'.
Qed.

(** A run that returns, with the calls it performs. *)
Lemma runs_returned {A} (m : M A) (cls : Call -> bool) :
  runs m (returns cls) ->
  runs m (fun evs r => (exists a, r = Ok a) /\ performs m evs r).
Proof.
  intros H. apply (runs_weaken _ _ _ (runs_performs m _ H)).
  intros evs r [[_ Hr] Hp]. now split.
Qed.

(** The calls of [RunContainer] are those of the life of a child. *)
Lemma RunContainer_runs (environ : list string) (config : ContainerConfig) :
  runs (RunContainer environ config)
    (fun evs r => exists err,
         r = Ok err /\ lifecycle environ config evs err).
Proof.
  unfold RunContainer.
  apply (runs_check _ _ _ _ _
           (runs_returned _ _ (validateConfig_calls config))).
  { intros e1 r [Hr _]. exact Hr. }
  { intros e1 msg [_ Hp]. eexists. split; [reflexivity|].
    exists e1, (Some msg). split; [exact Hp|].
    split; [reflexivity | discriminate]. }
  intros checks [_ Hchecks].
  apply (runs_check _ _ _ _ _
           (runs_returned _ _ (PrepareRootFS_calls (RootFS config)))).
  { intros e1 r [Hr _]. exact Hr. }
  { intros e1 msg [_ Hp]. eexists. split; [reflexivity|].
    exists checks, None. split; [exact Hchecks|].
    exists e1, (Some msg). split; [exact Hp|].
    split; [reflexivity | discriminate]. }
  intros dirs [_ Hdirs].
  apply (runs_weaken _
           (fun evs r => exists err,
                r = Ok err /\ launched environ config evs err)).
  2: { intros rest r (err & -> & Hl). exists err. split; [reflexivity|].
       exists checks, None. split; [exact Hchecks|].
       exists dirs, None. split; [exact Hdirs|].
       now exists rest. }
  apply (runs_bind _ _ (fun evs r =>
           exists x, evs = [(childStart environ config, x)] /\ r = Ok x)).
  { apply runs_call. intros r. exists r. split; reflexivity. }
  2: { intros e1 r (x & _ & ->) Hne. now destruct (Hne x). }
  intros e1 started (x & -> & E). injection E as <-.
  destruct (r_err started) as [e|] eqn:Hs.
  { apply runs_ret. eexists. split; [reflexivity|].
    exists started, []. split; [reflexivity|]. rewrite Hs.
    split; [reflexivity | discriminate]. }
  apply (runs_weaken _
           (fun evs r => exists err,
                r = Ok err /\ supervised config (r_int started) evs err)).
  2: { intros after r (err & -> & Hsup). exists err. split; [reflexivity|].
       exists started, after. split; [reflexivity|]. now rewrite Hs. }
  apply (runs_bind _ _ _ _
           (runs_returned _ _
              (SetupNetworking_calls (r_int started) config))).
  2: { intros e2 r [(a & ->) _] Hne. now destruct (Hne a). }
  intros net nerr [_ Hnet].
  destruct nerr as [e|].
  - apply (runs_bind _ _ (fun evs r =>
             exists k, evs = [(ProcessKill (r_int started), k)] /\ r = Ok k)).
    { apply runs_call. intros r. now exists r. }
    2: { intros e3 r (k & _ & ->) Hne. now destruct (Hne k). }
    intros e3 a (killed & -> & _). apply runs_ret.
    eexists. split; [reflexivity|].
    exists net, (Some e). split; [exact Hnet|].
    exists killed. rewrite List.app_nil_r.
    split; [reflexivity | discriminate].
  - apply (runs_bind _ _ (fun evs r =>
             exists x, evs = [(CmdWait (r_int started), x)] /\ r = Ok x)).
    { apply runs_call. intros r. now exists r. }
    2: { intros e3 r (x & _ & ->) Hne. now destruct (Hne x). }
    intros e3 waited (x & -> & E). injection E as <-.
    apply (runs_bind _ _ _ _
             (runs_returned _ _ (CleanupNetwork_calls config))).
    2: { intros e4 r [(a & ->) _] Hne. now destruct (Hne a). }
    intros cleanup [] [_ Hclean]. apply runs_ret.
    eexists. split; [reflexivity|].
    exists net, None. split; [exact Hnet|].
    exists waited, cleanup. rewrite List.app_nil_r.
    now repeat split.
Qed.

(** [RunContainer] returns.  It validates the configuration and prepares
    the root filesystem, and when one of the two returns an error nothing
    else is called and the result is an error.  Only then the child is
    started: this program again with [child] and the command as its
    arguments and the configuration in its environment.  A child that was
    started is either killed, when the network setup returned an error,
    and nothing is called after the kill; or waited for, after which the
    rules of the packet filter are removed and the result is the outcome
    of the wait. *)
Theorem RunContainer_lifecycle (environ : list string)
    (config : ContainerConfig) (w : world) (tr : list Event) :
  exists evs err w',
    RunContainer environ config (w, tr) = (Ok err, (w', tr ++ evs))%list
    /\ lifecycle environ config evs err.
Proof.
  destruct (runs_at _ _ w tr (RunContainer_runs environ config))
    as (evs & r & w' & Hrun & err & -> & HQ).
  now exists evs, err, w'.
Qed.

End WithPlatform.

End LifecycleFacts.

(** ** The command of the container *)

Module ChildFacts.
Import Config Spec RunSpec RunFacts CallFacts LifecycleFacts Container.

Section WithPlatform.
Context {P : Platform}.

(** The command once [/app] was looked at. *)
Lemma runs_command (name : string) (args : list string) (dir : string) :
  runs (ran <- call (CmdRun name args dir) ;;
        Filesystem.CleanupFilesystem ;;;
        ret (exitError ran))
    (ranIn dir (name :: args)).
Proof.
  apply (runs_bind _ _ (fun evs r =>
           exists x, evs = [(CmdRun name args dir, x)] /\ r = Ok x)).
  { apply runs_call. intros r. now exists r. }
  2: { intros e1 r (x & _ & ->) Hne. now destruct (Hne x). }
  intros e1 ran (x & -> & E). injection E as <-.
  unfold Filesystem.CleanupFilesystem.
  apply (runs_bind _ _ (fun evs r =>
           exists u1 u2, evs = [(SysUnmount "/dev/pts" 0, u1);
                                (SysUnmount "proc" 0, u2)]
                         /\ exists e, r = Ok e)).
  - apply (runs_bind _ _ (fun evs r =>
             exists u1, evs = [(SysUnmount "/dev/pts" 0, u1)]
                        /\ r = Ok (as_error (r_err u1)))).
    + apply runs_errOf. intros r. now exists r.
    + intros e2 a (u1 & -> & _).
      apply (runs_bind _ _ (fun evs r =>
               exists u2, evs = [(SysUnmount "proc" 0, u2)]
                          /\ r = Ok (as_error (r_err u2)))).
      * apply runs_errOf. intros r. now exists r.
      * intros e3 b (u2 & -> & _). apply runs_ret.
        exists u1, u2. split; [reflexivity | now eexists].
      * intros e3 r (u2 & _ & ->) Hne.
        now destruct (Hne (as_error (r_err u2))).
    + intros e2 r (u1 & _ & ->) Hne.
      now destruct (Hne (as_error (r_err u1))).
  - intros e2 a (u1 & u2 & -> & _). apply runs_ret.
    now exists name, args, ran, u1, u2.
  - intros e2 r (u1 & u2 & _ & e & ->) Hne. now destruct (Hne e).
Qed.

(** What [RunChildProcess] does after the setup. *)
Lemma runs_commanded (command : list string) :
  runs (name <- lift (orPanic (elem command 0)) ;;
        let args := skipn 1 command in
        app <- Utils.dirExists "/app" ;;
        let dir := if (app : bool) then "/app" else "" in
        ran <- call (CmdRun name args dir) ;;
        let err := exitError ran in
        Filesystem.CleanupFilesystem ;;;
        ret err)
    (commanded command).
Proof.
  destruct command as [|name args].
  { apply (runs_bind _ _ (fun evs r => evs = [] /\ r = Panic)).
    - now apply runs_lift.
    - intros e1 a (_ & E). discriminate.
    - intros e1 r (-> & ->) _. now split. }
  replace (elem (name :: args) 0) with (Some name).
  2: { unfold elem. simpl length.
       replace ((0 <=? 0) && (0 <? Z.of_nat (S (length args)))) with true;
         [reflexivity|].
       symmetry. apply andb_true_iff. split; [reflexivity|].
       apply Z.ltb_lt. lia. }
  apply (runs_bind _ _ (fun evs r => evs = [] /\ r = Ok name)).
  { now apply runs_lift. }
  2: { intros e1 r (_ & ->) Hne. now destruct (Hne name). }
  intros e1 a (-> & E). injection E as ->. cbn [skipn app].
  unfold Utils.dirExists.
  apply (runs_bind _ _ (fun evs r =>
           exists st, evs = [(Stat "/app", st)]
                      /\ match r_err st with
                         | Some e => if NotExist e then r = Ok false
                                     else r = Panic
                         | None => r = Ok (r_dir st)
                         end)).
  - apply (runs_bind _ _ (fun evs r =>
             exists x, evs = [(Stat "/app", x)] /\ r = Ok x)).
    + apply runs_call. intros r. now exists r.
    + intros e1 st (x & -> & E). injection E as <-.
      unfold os_IsNotExist.
      destruct (r_err st) as [e|] eqn:Hst.
      * destruct (NotExist e) eqn:He; cbn [negb].
        -- apply runs_ret. exists st. rewrite Hst, He. now split.
        -- apply runs_lift. exists st. rewrite Hst, He. now split.
      * cbn [negb]. apply runs_ret. exists st. rewrite Hst. now split.
    + intros e1 r (x & _ & ->) Hne. now destruct (Hne x).
  - intros e1 app (st & -> & Hr).
    apply (runs_weaken _ _ _ (runs_command name args _)).
    intros e2 r H2. exists st, e2. split; [reflexivity|].
    destruct (r_err st) as [e|].
    + destruct (NotExist e); [|discriminate]. injection Hr as ->. exact H2.
    + injection Hr as ->. exact H2.
  - intros e1 r (st & -> & Hr) Hne.
    exists st, []. split; [reflexivity|].
    destruct (r_err st) as [e|].
    + destruct (NotExist e); [now destruct (Hne false)|].
      subst r. now split.
    + now destruct (Hne (r_dir st)).
Qed.

(** The calls of [RunChildProcess] are those of a run of the command. *)
Lemma RunChildProcess_runs (env command : list string) :
  runs (RunChildProcess env command) (childRun env command).
Proof.
  unfold RunChildProcess, childRun.
  destruct (EnvBridge.configFromEnv env) as [[config|] [e|]].
  1, 3: apply runs_ret; split; [reflexivity | now eexists].
  2: { apply runs_lift. now split. }
  apply (runs_check _ _ _ _ _
           (runs_returned _ _
              (SetupCgroups_calls CgroupSetup.NewDefaultCgroupConfig))).
  { intros e1 r [Hr _]. exact Hr. }
  { intros e1 msg [_ Hp]. exists e1, (Some msg). split; [exact Hp|].
    split; [reflexivity | now eexists]. }
  intros cgroups [_ Hcg].
  apply (runs_check _ _ _ _ _
           (runs_returned _ _ (SetupFilesystem_calls config))).
  { intros e1 r [Hr _]. exact Hr. }
  { intros e1 msg [_ Hp]. exists cgroups, None. split; [exact Hcg|].
    exists e1, (Some msg). split; [exact Hp|].
    split; [reflexivity | now eexists]. }
  intros files [_ Hfs].
  apply (runs_weaken _ _ _ (runs_commanded command)).
  intros rest r Hc. exists cgroups, None. split; [exact Hcg|].
  exists files, None. split; [exact Hfs|]. now exists rest.
Qed.

(** [RunChildProcess] ends.  When the configuration cannot be read from
    the environment, or the setup of the control group or of the
    filesystem returns an error, nothing else is called and the result is
    an error.  Otherwise [/app] is looked at, the command is run, in
    [/app] exactly when [/app] is a directory, and [/dev/pts] and [proc]
    are unmounted whatever the outcome of the command; the errors of the
    unmounts are not returned, and the result is the outcome of the
    command.  When looking at [/app] fails for another reason than [/app]
    not existing the child panics and the command is not run. *)
Theorem RunChildProcess_runs_command (env command : list string)
    (w : world) (tr : list Event) :
  exists evs r w',
    RunChildProcess env command (w, tr) = (r, (w', tr ++ evs))%list
    /\ childRun env command evs r.
Proof.
  destruct (runs_at _ _ w tr (RunChildProcess_runs env command))
    as (evs & r & w' & Hrun & HQ).
  now exists evs, r, w'.
Qed.

End WithPlatform.

End ChildFacts.

(** ** What [SetupCgroups] writes *)

Module CgroupValueFacts.
Import Spec RunSpec RunFacts CgroupSetup.

Section WithPlatform.
Context {P : Platform}.
Variable config : CgroupConfig.
Variable dir : string.

Lemma cgroupValue_more (before evs after : list Event)
    (filename data : string) :
  cgroupValue config evs filename data ->
  cgroupValue config (before ++ evs ++ after) filename data.
Proof.
  intros [H|[H|[H|(Hf & pid & Hin & Hd)]]];
    [now left | right; now left | right; right; now left|].
  right. right. right. split; [exact Hf|]. exists pid. split; [|exact Hd].
  apply in_or_app. right. apply in_or_app. now left.
Qed.

Lemma writesOnly_app (e1 e2 : list Event) :
  writesOnly dir config e1 -> writesOnly dir config e2 ->
  writesOnly dir config (e1 ++ e2).
Proof.
  intros H1 H2 path data perm reply Hin.
  apply in_app_or in Hin as [Hin|Hin].
  - destruct (H1 path data perm reply Hin) as (Hp & filename & Hpath & Hv).
    split; [exact Hp|]. exists filename. split; [exact Hpath|].
    rewrite <- (List.app_nil_l (e1 ++ e2)).
    now apply cgroupValue_more.
  - destruct (H2 path data perm reply Hin) as (Hp & filename & Hpath & Hv).
    split; [exact Hp|]. exists filename. split; [exact Hpath|].
    rewrite <- (List.app_nil_r e2). now apply cgroupValue_more.
Qed.

Lemma writing_ret (e : error) : runs (ret e) (writing dir config).
Proof.
  apply runs_ret. split; [now exists e|]. intros path data perm reply [].
Qed.

Lemma writing_check (m k : M error) (wrap : string -> error) :
  runs m (writing dir config) -> runs k (writing dir config) ->
  runs (orReturn m wrap k) (writing dir config).
Proof.
  intros Hm Hk. apply (runs_check m _ k (writing dir config)); [exact Hm | | |].
  - intros e1 r (Hr & _). exact Hr.
  - intros e1 msg (_ & Hw). split; [now eexists | exact Hw].
  - intros e1 (_ & Hw1). apply (runs_weaken _ _ _ Hk).
    intros e2 r (Hr & Hw2). split; [exact Hr | now apply writesOnly_app].
Qed.

(** One control file, written with a value that is allowed whatever else
    is called. *)
Lemma writing_setCgroupValue (filename value : string) :
  (forall evs, cgroupValue config evs filename value) ->
  runs (setCgroupValue dir filename value) (writing dir config).
Proof.
  intros Hv. unfold setCgroupValue.
  apply (runs_bind _ _ (fun evs r =>
           exists st, evs = [(Stat (filepath_Join dir filename), st)]
                      /\ r = Ok st)).
  - apply runs_call. intros r. now exists r.
  - intros e1 st (x & -> & E). injection E as <-.
    destruct (os_IsNotExist (r_err st)).
    + apply runs_ret. split; [now eexists|].
      intros path data perm reply Hin. rewrite List.app_nil_r in Hin.
      destruct Hin as [Hin|[]]. discriminate.
    + apply (runs_bind _ _ (fun evs r =>
               exists wr, evs = [(WriteFile (filepath_Join dir filename)
                                    value 420, wr)] /\ r = Ok wr)).
      * apply runs_call. intros r. now exists r.
      * intros e2 wr (x & -> & E). injection E as <-.
        assert (Hw : writesOnly dir config
                       ([(Stat (filepath_Join dir filename), st)]
                        ++ [(WriteFile (filepath_Join dir filename) value 420,
                             wr)] ++ [])).
        { intros path data perm reply Hin.
          destruct Hin as [Hin|[Hin|[]]]; [discriminate|].
          injection Hin as <- <- <- _. split; [reflexivity|].
          exists filename. split; [reflexivity | apply Hv]. }
        destruct (r_err wr); apply runs_ret; (split; [now eexists | exact Hw]).
      * intros e2 r (x & _ & ->) Hne. now destruct (Hne x).
  - intros e1 r (x & _ & ->) Hne. now destruct (Hne x).
Qed.

End WithPlatform.

(** [SetupCgroups] returns, and whatever the host answers it writes only
    to control files of its group, with mode 0644: to [pids.max] the
    configured limit; to [memory.max] and [cpu.max] their configured
    values, and only when these are set; to [cgroup.procs] the process id
    that [os.Getpid] returned, in decimal. *)
Theorem SetupCgroups_writes_configured_values (P : Platform)
    (config : CgroupConfig) (w : world) (tr : list Event) :
  exists evs err w',
    SetupCgroups config (w, tr) = (Ok err, (w', tr ++ evs))%list
    /\ writesOnly (filepath_Join cgroupBasePath (Name config)) config evs.
Proof.
  set (dir := filepath_Join cgroupBasePath (Name config)).
  assert (H : runs (SetupCgroups config)
                (fun evs r => (exists err, r = Ok err)
                              /\ writesOnly dir config evs)).
  { unfold SetupCgroups. fold dir.
    apply writing_check; [|apply writing_check; [|apply writing_check;
                             [|apply writing_check]]].
    - apply (runs_bind _ _ (fun evs r =>
               exists st, evs = [(Stat dir, st)] /\ r = Ok st)).
      + apply runs_call. intros r. now exists r.
      + intros e1 st (x & -> & E). injection E as <-.
        destruct (os_IsNotExist (r_err st)).
        * apply runs_errOf. intros mk. split; [now eexists|].
          intros path data perm reply [Hin|[Hin|[]]]; discriminate.
        * apply runs_ret. split; [now eexists|].
          intros path data perm reply [Hin|[]]. discriminate.
      + intros e1 r (x & _ & ->) Hne. now destruct (Hne x).
    - apply writing_setCgroupValue. intros evs. now left.
    - destruct (String.eqb_spec (MemoryLimit config) "") as [E|N]; cbn [negb].
      + apply writing_ret.
      + apply writing_setCgroupValue. intros evs. right. left. now repeat split.
    - destruct (String.eqb_spec (CPUQuota config) "") as [E|N]; cbn [negb].
      + apply writing_ret.
      + apply writing_setCgroupValue. intros evs. right. right. left.
        now repeat split.
    - apply (runs_bind _ _ (fun evs r =>
               exists pid, evs = [(Getpid, pid)] /\ r = Ok pid)).
      + apply runs_call. intros r. now exists r.
      + intros e1 pid (x & -> & E). injection E as <-.
        apply (runs_weaken _
                 (fun evs r =>
                    (exists err, r = Ok err)
                    /\ forall path data perm reply,
                         In (WriteFile path data perm, reply) evs ->
                         perm = 420
                         /\ path = filepath_Join dir "cgroup.procs"
                         /\ data = Strconv.Itoa (r_int pid))).
        * unfold setCgroupValue, orReturn.
          apply (runs_bind _ _ (fun evs r =>
                   (exists err, r = Ok err)
                   /\ forall path data perm reply,
                        In (WriteFile path data perm, reply) evs ->
                        perm = 420
                        /\ path = filepath_Join dir "cgroup.procs"
                        /\ data = Strconv.Itoa (r_int pid))).
          -- apply (runs_bind _ _ (fun evs r =>
                      exists st, evs = [(Stat (filepath_Join dir "cgroup.procs"),
                                         st)] /\ r = Ok st)).
             ++ apply runs_call. intros r. now exists r.
             ++ intros e2 st (x & -> & E). injection E as <-.
                destruct (os_IsNotExist (r_err st)).
                ** apply runs_ret. split; [now eexists|].
                   intros path data perm reply [Hin|[]]. discriminate.
                ** apply (runs_bind _ _ (fun evs r =>
                            exists wr,
                              evs = [(WriteFile
                                        (filepath_Join dir "cgroup.procs")
                                        (Strconv.Itoa (r_int pid)) 420, wr)]
                              /\ r = Ok wr)).
                   --- apply runs_call. intros r. now exists r.
                   --- intros e3 wr (x & -> & E). injection E as <-.
                       destruct (r_err wr); apply runs_ret;
                         (split; [now eexists|]);
                         intros path data perm reply [Hin|[Hin|[]]];
                         try discriminate;
                         injection Hin as <- <- <- _; now repeat split.
                   --- intros e3 r (x & _ & ->) Hne. now destruct (Hne x).
             ++ intros e2 r (x & _ & ->) Hne. now destruct (Hne x).
          -- intros e2 [msg|] (_ & Hw); apply runs_ret;
               (split; [now eexists|]); now rewrite List.app_nil_r.
          -- intros e2 r ((err & ->) & _) Hne. now destruct (Hne err).
        * intros e2 r (Hr & Hw). split; [exact Hr|].
          intros path data perm reply [Hin|Hin]; [discriminate|].
          destruct (Hw path data perm reply Hin) as (Hp & Hpath & Hd).
          split; [exact Hp|]. exists "cgroup.procs". split; [exact Hpath|].
          right. right. right. split; [reflexivity|].
          exists pid. split; [now left | exact Hd].
      + intros e1 r (x & _ & ->) Hne. now destruct (Hne x). }
  destruct (runs_at _ _ w tr H) as (evs & r & w' & Hrun & (err & ->) & HQ).
  now exists evs, err, w'.
Qed.

End CgroupValueFacts.

(** ** [ensureDir] *)

Module DirFacts.
Import Spec RunFacts Helpers.

(** [ensureDir] looks at the path once.  A path that is a directory is
    left alone and the result is nil; a path that does not exist, or that
    is no directory, is made with [MkdirAll], whose error is the result;
    and when the look fails for another reason than the path not existing
    the call panics, nothing having been made. *)
Theorem ensureDir_makes_missing (P : Platform) (path : string) (perm : Z)
    (w : world) (tr : list Event) :
  exists st evs r w',
    ensureDir path perm (w, tr)
    = (r, (w', tr ++ (Stat path, st) :: evs))%list
    /\ match r_err st with
       | None =>
           if r_dir st then evs = [] /\ r = Ok nil_error
           else exists mk, evs = [(MkdirAll path perm, mk)]
                           /\ r = Ok (as_error (r_err mk))
       | Some e =>
           if NotExist e
           then exists mk, evs = [(MkdirAll path perm, mk)]
                           /\ r = Ok (as_error (r_err mk))
           else evs = [] /\ r = Panic
       end.
Proof.
  unfold ensureDir, Utils.dirExists, errOf, bind, call, ret, lift.
  cbn [fst snd].
  destruct (syscall (Stat path) w) as [st w1]. exists st.
  unfold os_IsNotExist. destruct (r_err st) as [e|].
  - destruct (NotExist e); cbn [negb fst snd].
    + destruct (syscall (MkdirAll path perm) w1) as [mk w2].
      exists [(MkdirAll path perm, mk)]. eexists. exists w2.
      rewrite <- List.app_assoc. split; [reflexivity|]. now exists mk.
    + exists []. eexists. exists w1. split; [reflexivity | now split].
  - cbn [negb]. destruct (r_dir st); cbn [negb fst snd].
    + exists []. eexists. exists w1. split; [reflexivity | now split].
    + destruct (syscall (MkdirAll path perm) w1) as [mk w2].
      exists [(MkdirAll path perm, mk)]. eexists. exists w2.
      rewrite <- List.app_assoc. split; [reflexivity|]. now exists mk.
Qed.

End DirFacts.

(** ** The statistics of the group *)

Module StatsFacts.
Import GoMap CgroupSetup CgroupStats.

Lemma lookup_store {V} (m : GoMap V) (key x : string) (v : V) :
  lookup (store m key v) x = if String.eqb key x then Some v else lookup m x.
Proof.
  induction m as [|[k old] m IH]; cbn [store lookup].
  - reflexivity.
  - destruct (String.eqb_spec k key) as [->|Hk]; cbn [lookup].
    + destruct (String.eqb key x); reflexivity.
    + destruct (String.eqb_spec k x) as [->|Hx]; [|exact IH].
      destruct (String.eqb_spec key x) as [->|_]; [now destruct Hk|].
      reflexivity.
Qed.

Lemma keys_store {V} (m : GoMap V) (key x : string) (v : V) :
  In x (map fst (store m key v)) <-> x = key \/ In x (map fst m).
Proof.
  induction m as [|[k old] m IH]; cbn [store map fst In].
  - intuition congruence.
  - destruct (String.eqb_spec k key) as [->|Hk]; cbn [map fst In].
    + intuition congruence.
    + rewrite IH. intuition congruence.
Qed.

Lemma NoDup_store {V} (m : GoMap V) (key : string) (v : V) :
  NoDup (map fst m) -> NoDup (map fst (store m key v)).
Proof.
  induction m as [|[k old] m IH]; cbn [store map fst]; intros H.
  - repeat constructor. intros [].
  - inversion H as [|? ? Hk Hm]; subst.
    destruct (String.eqb_spec k key) as [->|Hne]; cbn [map fst].
    + now constructor.
    + constructor; [|now apply IH].
      rewrite keys_store. intros [E|Hin]; [now destruct Hne | now apply Hk].
Qed.

Lemma lookup_keys {V} (m : GoMap V) (x : string) (v : V) :
  lookup m x = Some v -> In x (map fst m).
Proof.
  induction m as [|[k old] m IH]; cbn [lookup map fst In]; [discriminate|].
  destruct (String.eqb_spec k x) as [->|_]; [now left|].
  intros H. right. now apply IH.
Qed.

Section WithPlatform.
Context {P : Platform}.
Variable ReadFile : string -> world -> (string * error) * world.

Lemma readStats_keys (dir : string) (files : list string)
    (stats : GoMap string) (w : world) :
  NoDup (map fst stats) ->
  NoDup (map fst (fst (readStats ReadFile dir files stats w)))
  /\ forall x, In x (map fst (fst (readStats ReadFile dir files stats w))) ->
               In x files \/ In x (map fst stats).
Proof.
  revert stats w. induction files as [|file files IH]; intros stats w Hnd;
    cbn [readStats].
  - split; [exact Hnd | now right].
  - destruct (ReadFile (filepath_Join dir file) w) as [[data [e|]] w1];
      cbn [fst snd].
    + destruct (IH stats w1 Hnd) as [H1 H2]. split; [exact H1|].
      intros x Hx. destruct (H2 x Hx); [left; now right | now right].
    + destruct (IH (store stats file data) w1 (NoDup_store _ _ _ Hnd))
        as [H1 H2].
      split; [exact H1|]. intros x Hx.
      destruct (H2 x Hx) as [Hin|Hin]; [left; now right|].
      apply keys_store in Hin as [->|Hin]; [left; now left | now right].
Qed.

Lemma readStats_lookup (dir : string) (files : list string)
    (stats : GoMap string) (w : world) (x : string) :
  (forall path w0, snd (ReadFile path w0) = w0) ->
  snd (readStats ReadFile dir files stats w) = w
  /\ lookup (fst (readStats ReadFile dir files stats w)) x =
     if in_dec string_dec x files
     then match fst (ReadFile (filepath_Join dir x) w) with
          | (data, None) => Some data
          | (_, Some _) => lookup stats x
          end
     else lookup stats x.
Proof.
  intros Hro. revert stats. induction files as [|file files IH]; intros stats;
    cbn [readStats].
  - split; reflexivity.
  - pose proof (Hro (filepath_Join dir file) w) as Hw.
    destruct (ReadFile (filepath_Join dir file) w) as [[data e] w1] eqn:Hread.
    cbn [fst snd] in Hw |- *. subst w1.
    assert (Hnext : forall stats1,
               lookup stats1 x
               = (if String.eqb file x
                  then match e with
                       | None => Some data
                       | Some _ => lookup stats x
                       end
                  else lookup stats x) ->
               snd (readStats ReadFile dir files stats1 w) = w
               /\ lookup (fst (readStats ReadFile dir files stats1 w)) x =
                  if in_dec string_dec x (file :: files)
                  then match fst (ReadFile (filepath_Join dir x) w) with
                       | (data, None) => Some data
                       | (_, Some _) => lookup stats x
                       end
                  else lookup stats x).
    { intros stats1 H1. destruct (IH stats1) as [Hw Hl]. split; [exact Hw|].
      rewrite Hl, H1.
      destruct (in_dec string_dec x files) as [Hin|Hout];
        destruct (in_dec string_dec x (file :: files)) as [Hin'|Hout'].
      - destruct (fst (ReadFile (filepath_Join dir x) w)) as [d [e'|]] eqn:Hx;
          [|reflexivity].
        destruct (String.eqb_spec file x) as [->|_]; [|reflexivity].
        rewrite Hread in Hx. cbn [fst] in Hx. injection Hx as _ ->.
        reflexivity.
      - exfalso. apply Hout'. now right.
      - destruct Hin' as [->|Hin']; [|now destruct Hout].
        rewrite String.eqb_refl, Hread. cbn [fst]. now destruct e.
      - destruct (String.eqb_spec file x) as [->|_]; [|reflexivity].
        exfalso. apply Hout'. now left. }
    destruct e as [e|]; apply Hnext.
    + now destruct (String.eqb file x).
    + apply lookup_store.
Qed.

(** [GetCgroupStats] never returns an error.  The map it returns has no
    other keys than the names of the four statistics files.  When reading
    leaves the host as it is, the map holds under each name the content
    of the file of that name in the directory of the group, and nothing
    under the name of a file that cannot be read. *)
Theorem GetCgroupStats_keeps_what_it_reads (config : CgroupConfig)
    (w : world) :
  let dir := filepath_Join cgroupBasePath (Name config) in
  let stats := fst (fst (GetCgroupStats ReadFile config w)) in
  snd (fst (GetCgroupStats ReadFile config w)) = nil_error
  /\ NoDup (map fst stats)
  /\ (forall file data, lookup stats file = Some data -> In file statFiles)
  /\ ((forall path w0, snd (ReadFile path w0) = w0) ->
      snd (GetCgroupStats ReadFile config w) = w
      /\ forall file,
           In file statFiles ->
           lookup stats file =
           match fst (ReadFile (filepath_Join dir file) w) with
           | (data, None) => Some data
           | (_, Some _) => None
           end).
Proof.
  intros dir stats. subst stats. unfold GetCgroupStats. fold dir.
  destruct (readStats ReadFile dir statFiles [] w) as [stats w'] eqn:E.
  cbn [fst snd].
  assert (Hs : stats = fst (readStats ReadFile dir statFiles [] w))
    by now rewrite E.
  assert (Hw : w' = snd (readStats ReadFile dir statFiles [] w))
    by now rewrite E.
  destruct (readStats_keys dir statFiles [] w (NoDup_nil _)) as [Hnd Hkeys].
  rewrite <- Hs in Hnd, Hkeys.
  split; [reflexivity|]. split; [exact Hnd|]. split.
  - intros file data Hl. destruct (Hkeys file (lookup_keys _ _ _ Hl)) as [H|[]].
    exact H.
  - intros Hro. split.
    + rewrite Hw. apply (readStats_lookup dir statFiles [] w "" Hro).
    + intros file Hin. rewrite Hs.
      rewrite (proj2 (readStats_lookup dir statFiles [] w file Hro)).
      destruct (in_dec string_dec file statFiles) as [_|Hout];
        [|now destruct Hout].
      now destruct (fst (ReadFile (filepath_Join dir file) w)) as [d [e|]].
Qed.

End WithPlatform.

End StatsFacts.

(** ** Addresses that do not parse *)

Module AddressFacts.
Import Config Spec RunSpec RunFacts CallFacts Network NetworkingFacts.

Section WithPlatform.
Context {P : Platform}.






End WithPlatform.


End AddressFacts.

(** ** The exit status, case by case *)

Module ExitStatusFacts.
Import Config Spec RunSpec RunFacts Main.

Lemma bind_lift {P : Platform} {A B} (a : A) (k : A -> M B)
    (s : world * list Event) :
  bind (lift (Ok a)) k s = k a s.
Proof. reflexivity. Qed.

(** [checkRoot] asks for the user id, once. *)
Lemma checkRoot_at {P : Platform} (w : world) (tr : list Event)
    (k : error -> M unit) :
  bind Utils.checkRoot k (w, tr) =
  k (if negb (r_int (fst (syscall Geteuid w)) =? 0)
     then Errorf ["this program must be run as root"]
     else nil_error)
    (snd (syscall Geteuid w),
     (tr ++ [(Geteuid, fst (syscall Geteuid w))])%list).
Proof.
  unfold Utils.checkRoot, bind, call, ret. cbn [fst snd].
  destruct (syscall Geteuid w) as [r w']. cbn [fst snd].
  destruct (negb (r_int r =? 0)); reflexivity.
Qed.

Section Roles.
Context {P : Platform}.

(** A run of the command returns or panics. *)
Lemma childRun_result (env command : list string) (evs : list Event)
    (r : res error) :
  childRun env command evs r -> (exists err, r = Ok err) \/ r = Panic.
Proof.
  unfold childRun.
  assert (Hran : forall dir after, ranIn dir command after r ->
                                   (exists err, r = Ok err) \/ r = Panic).
  { intros dir after (name & args & ran & u1 & u2 & _ & _ & ->).
    left. now eexists. }
  destruct (EnvBridge.configFromEnv env) as [[config|] [e|]].
  1, 3: intros (_ & msg & ->); left; now eexists.
  2: { intros (_ & ->). now right. }
  intros (cgroups & [cgerr|] & _ & H).
  { destruct H as (_ & msg & ->). left. now eexists. }
  destruct H as (files & [fserr|] & _ & H).
  { destruct H as (_ & msg & ->). left. now eexists. }
  destruct H as (rest & _ & H). unfold commanded in H.
  destruct command as [|name args]; [destruct H as (_ & ->); now right|].
  destruct H as (app & after & _ & H).
  destruct (r_err app) as [e|]; [|exact (Hran _ _ H)].
  destruct (NotExist e); [exact (Hran _ _ H)|].
  destruct H as (_ & ->). now right.
Qed.

Lemma handleChild_status (proc : Process) (args : list string) :
  runs (handleChild proc args)
    (fun evs r => exists code,
         exitStatus r = Some code /\ childExit proc args evs code).
Proof.
  unfold handleChild. destruct args as [|arg args].
  - apply runs_exit. exists 1. split; [reflexivity | now split].
  - replace (llen (arg :: args) =? 0) with false
      by (symmetry; apply Z.eqb_neq; unfold llen; simpl length; lia).
    apply (runs_bind _ _ _ _
             (ChildFacts.RunChildProcess_runs (Environ proc) (arg :: args))).
    + intros e1 err H1. destruct err as [msg|].
      * apply runs_exit. rewrite List.app_nil_r. exists 1.
        split; [reflexivity|]. now exists (Ok (Some msg)).
      * apply runs_ret. rewrite List.app_nil_r. exists 0.
        split; [reflexivity|]. now exists (Ok None).
    + intros e1 r H1 Hne.
      destruct (childRun_result _ _ _ _ H1) as [(err & ->) | ->];
        [now destruct (Hne err)|].
      exists 2. split; [reflexivity|]. now exists Panic.
Qed.

Lemma handleRun_status (proc : Process) (args : list string) :
  runs (handleRun proc args)
    (fun evs r => exists code,
         exitStatus r = Some code /\ parentExit proc args evs code).
Proof.
  unfold handleRun, parentExit.
  pose proof (ExitFacts.ParseFlags_result (Getwd proc) args) as Hsome.
  destruct (FlagFacts.ParseFlags_ends (Getwd proc) args)
    as [(x & E) | [E | E]]; rewrite E in *.
  - apply (runs_bind _ _ (fun evs r => evs = [] /\ r = Ok x));
      [now apply runs_lift |
      | intros e1 r [_ ->] Hne; now destruct (Hne x)].
    intros e1 a [-> Ea]. injection Ea as ->. cbn [app].
    destruct x as [[config|] [e|]]; [| | |now destruct Hsome].
    + apply runs_exit. exists 1. split; [reflexivity | now split].
    + apply (runs_bind _ _ _ _
               (LifecycleFacts.RunContainer_runs (Environ proc) config)).
      * intros e1 err (err' & Eerr & Hlife). injection Eerr as <-.
        destruct err as [msg|].
        -- apply runs_exit. rewrite List.app_nil_r. exists 1.
           split; [reflexivity|]. now exists (Some msg).
        -- apply runs_ret. rewrite List.app_nil_r. exists 0.
           split; [reflexivity|]. now exists None.
      * intros e1 r (err & -> & _) Hne. now destruct (Hne err).
    + apply runs_exit. exists 1. split; [reflexivity | now split].
  - apply (runs_bind _ _ (fun evs r => evs = [] /\ r = Exit 0));
      [now apply runs_lift | intros e1 a [_ Ea]; discriminate Ea |].
    intros e1 r [-> ->] _. exists 0. split; [reflexivity | now split].
  - apply (runs_bind _ _ (fun evs r => evs = [] /\ r = Exit 2));
      [now apply runs_lift | intros e1 a [_ Ea]; discriminate Ea |].
    intros e1 r [-> ->] _. exists 2. split; [reflexivity | now split].
Qed.

End Roles.

(** The calls of [main] and its status, case by case. *)
Lemma main_status (P : Platform) (proc : Process) (w : world)
    (tr : list Event) :
  exists evs r w' code,
    main proc (w, tr) = (r, (w', tr ++ evs))%list
    /\ exitStatus r = Some code
    /\ (llen (Args proc) < 2 -> evs = [] /\ code = 1)
    /\ (forall exe arg1 rest,
          Args proc = exe :: arg1 :: rest ->
          (In arg1 informational -> evs = [] /\ code = 0)
          /\ (~ In arg1 informational ->
              exists euid calls,
                evs = (Geteuid, euid) :: calls
                /\ (r_int euid <> 0 -> calls = [] /\ code = 1)
                /\ (r_int euid = 0 ->
                    (arg1 <> "run" -> arg1 <> "child" ->
                     calls = [] /\ code = 1)
                    /\ (arg1 = "child" -> childExit proc rest calls code)
                    /\ (arg1 = "run" -> parentExit proc rest calls code)))).
Proof.
  unfold main.
  destruct (Args proc) as [|exe [|arg1 rest]] eqn:EA.
  1, 2: exists [], (Exit 1), w, 1; rewrite List.app_nil_r;
        split; [reflexivity|]; split; [reflexivity|];
        split; [now intros _ | intros ? ? ? E; discriminate E].
  replace (llen (exe :: arg1 :: rest) <? 2) with false
    by (symmetry; apply Z.ltb_ge; unfold llen; simpl length; lia).
  replace (elem (exe :: arg1 :: rest) 1) with (Some arg1).
  2: { unfold elem. simpl length.
       replace ((0 <=? 1) && (1 <? Z.of_nat (S (S (length rest)))))
         with true; [reflexivity|].
       symmetry. apply andb_true_iff. split; [reflexivity|].
       apply Z.ltb_lt. lia. }
  cbn [orPanic skipn]. rewrite bind_lift.
  assert (Hlen : ~ llen (exe :: arg1 :: rest) < 2)
    by (unfold llen; simpl length; lia).
  destruct (in_dec string_dec arg1 informational) as [Hin|Hnot].
  { exists [], (Ok tt), w, 0. rewrite List.app_nil_r.
    split; [|split; [reflexivity|]].
    - simpl in Hin.
      destruct Hin as [<-|[<-|[<-|[<-|[<-|[<-|[]]]]]]]; reflexivity.
    - split; [intros H; now destruct Hlen|].
      intros exe' arg1' rest' E. injection E as _ <- _.
      split; [now intros _ | intros H; now destruct H]. }
  assert (Hne : forall s, In s informational -> String.eqb arg1 s = false).
  { intros s Hs. apply String.eqb_neq. intros ->. now apply Hnot. }
  rewrite !Hne by (simpl; tauto). cbn [orb].
  rewrite checkRoot_at.
  destruct (syscall Geteuid w) as [euid w1]. cbn [fst snd].
  destruct (Z.eqb_spec (r_int euid) 0) as [Hroot|Hroot]; cbn [negb].
  2: { exists [(Geteuid, euid)], (Exit 1), w1, 1.
       split; [reflexivity|]. split; [reflexivity|].
       split; [intros H; now destruct Hlen|].
       intros exe' arg1' rest' E. injection E as _ <- _.
       split; [intros H; now destruct Hnot|]. intros _.
       exists euid, []. split; [reflexivity|].
       split; [now intros _ | intros H; now destruct Hroot]. }
  assert (Hrole : forall (role : M unit) (exit : list Event -> Z -> Prop),
             runs role (fun evs r => exists code,
                            exitStatus r = Some code /\ exit evs code) ->
             exists calls r w' code,
               role (w1, (tr ++ [(Geteuid, euid)])%list)
               = (r, (w', (tr ++ (Geteuid, euid) :: calls)%list))
               /\ exitStatus r = Some code /\ exit calls code).
  { intros role exit Hruns.
    destruct (runs_at _ _ w1 (tr ++ [(Geteuid, euid)])%list Hruns)
      as (calls & r & w' & Hrun & code & Hcode & Hexit).
    exists calls, r, w', code. rewrite Hrun, <- List.app_assoc.
    now repeat split. }
  destruct (String.eqb_spec arg1 "run") as [->|Hrun].
  { destruct (Hrole _ _ (handleRun_status proc rest))
      as (calls & r & w' & code & Hrun & Hcode & Hexit).
    exists ((Geteuid, euid) :: calls), r, w', code.
    split; [exact Hrun|]. split; [exact Hcode|].
    split; [intros H; now destruct Hlen|].
    intros exe' arg1' rest' E. injection E as _ <- <-.
    split; [intros H; now destruct Hnot|]. intros _.
    exists euid, calls. split; [reflexivity|].
    split; [intros H; now destruct H|]. intros _.
    split; [intros H; now destruct H|].
    split; [discriminate | now intros _]. }
  destruct (String.eqb_spec arg1 "child") as [->|Hchild].
  { destruct (Hrole _ _ (handleChild_status proc rest))
      as (calls & r & w' & code & Hrun' & Hcode & Hexit).
    exists ((Geteuid, euid) :: calls), r, w', code.
    split; [exact Hrun'|]. split; [exact Hcode|].
    split; [intros H; now destruct Hlen|].
    intros exe' arg1' rest' E. injection E as _ <- <-.
    split; [intros H; now destruct Hnot|]. intros _.
    exists euid, calls. split; [reflexivity|].
    split; [intros H; now destruct H|]. intros _.
    split; [intros _ H; now destruct H|].
    split; [now intros _ | discriminate]. }
  exists [(Geteuid, euid)], (Exit 1), w1, 1.
  split; [reflexivity|]. split; [reflexivity|].
  split; [intros H; now destruct Hlen|].
  intros exe' arg1' rest' E. injection E as _ <- _.
  split; [intros H; now destruct Hnot|]. intros _.
  exists euid, []. split; [reflexivity|].
  split; [now intros _|]. intros _.
  split; [now intros _ _|].
  split; [intros H; now destruct Hchild | intros H; now destruct Hrun].
Qed.

(** C4 (as the code has it): the status of the process is 0, 1 or 2, and
    it is known from the arguments and the calls.  With less than two
    arguments it is 1 and for help and version 0, without a call.
    Otherwise the user id is asked for first; when it is not 0, or the
    first argument is neither [run] nor [child], nothing else is called
    and the status is 1.  In the child ([childExit]) the status is 1
    without a command and when the configuration or the setup fails, 2
    when looking at [/app] fails for another reason than [/app] not
    existing, and once the command has run 0 if it ended with status 0
    and 1 otherwise: the status of the command is not passed on.  In the
    parent ([parentExit]) the status is the one the flag package leaves
    with (0 for a help flag, 2 for flags it refuses), 1 when [ParseFlags]
    returns an error, when the child is not started or is killed, and once
    the child has been waited for 0 if it ended with status 0 and 1
    otherwise.  So every run of a command and every wait among the calls
    gives the status 0 or 1 by its outcome alone. *)
Theorem exit_codes (P : Platform) (proc : Process) (w : world)
    (tr : list Event) :
  exists evs r w' code,
    main proc (w, tr) = (r, (w', tr ++ evs))%list
    /\ exitStatus r = Some code
    /\ (code = 0 \/ code = 1 \/ code = 2)
    /\ (llen (Args proc) < 2 -> evs = [] /\ code = 1)
    /\ (forall exe arg1 rest,
          Args proc = exe :: arg1 :: rest ->
          (In arg1 informational -> evs = [] /\ code = 0)
          /\ (~ In arg1 informational ->
              exists euid calls,
                evs = (Geteuid, euid) :: calls
                /\ (r_int euid <> 0 -> calls = [] /\ code = 1)
                /\ (r_int euid = 0 ->
                    (arg1 <> "run" -> arg1 <> "child" ->
                     calls = [] /\ code = 1)
                    /\ (arg1 = "child" -> childExit proc rest calls code)
                    /\ (arg1 = "run" -> parentExit proc rest calls code))))
    /\ (forall exe rest,
          Args proc = exe :: "child" :: rest ->
          (forall name args dir reply,
              In (CmdRun name args dir, reply) evs ->
              code = match exitError reply with
                     | None => 0
                     | Some _ => 1
                     end)
          /\ (code = 0 ->
              exists name args dir reply,
                In (CmdRun name args dir, reply) evs)
          /\ (code = 2 -> statBroke evs))
    /\ (forall exe rest,
          Args proc = exe :: "run" :: rest ->
          (forall pid reply,
              In (CmdWait pid, reply) evs ->
              code = match exitError reply with
                     | None => 0
                     | Some _ => 1
                     end)
          /\ (code = 0 ->
              Cli.ParseFlags (Getwd proc) rest = Exit 0
              \/ exists pid reply, In (CmdWait pid, reply) evs)
          /\ (code = 2 -> Cli.ParseFlags (Getwd proc) rest = Exit 2))
    /\ (forall reply, In (Geteuid, reply) evs -> r_int reply <> 0 -> code = 1).
Proof.
  destruct (ExitFacts.exit_codes_by_role P proc w tr)
    as (evs & r & w' & code & Hrun & Hcode & Hrange & Hchild & Hparent & _
        & Heuid).
  destruct (main_status P proc w tr)
    as (evs2 & r2 & w2 & code2 & Hrun2 & Hcode2 & Hshort & Hargs).
  rewrite Hrun in Hrun2. injection Hrun2 as <- <- E.
  apply List.app_inv_head in E. subst evs2.
  assert (code2 = code) by congruence. subst code2.
  exists evs, r, w', code.
  split; [exact Hrun|]. split; [exact Hcode|]. split; [exact Hrange|].
  split; [exact Hshort|]. split; [exact Hargs|].
  split; [exact Hchild|]. split; [exact Hparent | exact Heuid].
Qed.

End ExitStatusFacts.
